(** * python_async_tools: a shallow embedding of the benchmark harness

    The development follows the layout of the package:

    - [Py]         the fragment of Python the harness relies on: exceptions,
                   results, the heap of objects, the clock, [range], indexing;
    - [Utils]      utils.py        ([percentile], [mean]);
    - [Backends]   backends.py     ([spawn_many], [cancellation_storm] for the
                   asyncio, trio and anyio adapters);
    - [Benchmarks] benchmarks/*.py (the three scenarios);
    - [Runner]     runner.py       ([run_benchmark], [main]).

    Modelling conventions.  Python [int] is [Z].  Python [float] is modelled by
    exact rationals [Q] (plus an explicit infinity where the code produces
    one): rounding is not modelled.  Mutable objects live in a heap indexed
    by locations, so that aliasing and in-place updates are visible. *)

From Stdlib Require Import ZArith QArith Qround Lia List Permutation Sorted.
From stdpp Require Import gmap strings list.

Local Open Scope Z_scope.

(* ===================================================================== *)
(** * The Python fragment                                                  *)
(* ===================================================================== *)

Module Py.

(** Exceptions the harness can meet.  [CancelledError] stands for
    asyncio.CancelledError, trio.Cancelled and anyio's cancelled class: all
    three derive from BaseException, not from Exception. *)
Inductive exn : Type :=
| CancelledError
| IndexError
| ZeroDivisionError
| ValueError
| KeyError
| TypeError
| OverflowError
| RuntimeError (tag : nat).

Definition is_Exception (e : exn) : bool :=
  match e with CancelledError => false | _ => true end.

Definition is_CancelledError (e : exn) : bool :=
  match e with CancelledError => true | _ => false end.

(** The result of evaluating an expression: a value or a raised exception. *)
Inductive result (A : Type) : Type :=
| Ok (a : A)
| Err (e : exn).
Arguments Ok {A} a.
Arguments Err {A} e.

(** Values stored in dicts.  [VInf] is float("inf"); [VRef] points to
    another heap object. *)
Abbreviation loc := positive.

Inductive value : Type :=
| VNone
| VInt (z : Z)
| VFloat (q : Q)
| VInf
| VStr (s : string)
| VRef (l : loc).

(** A dict keeps its keys in insertion order; assigning to an existing key
    keeps its position. *)
Definition dict := list (string * value).

Fixpoint dict_get (k : string) (d : dict) : option value :=
  match d with
  | [] => None
  | (k', v) :: d' => if String.eqb k k' then Some v else dict_get k d'
  end.

Fixpoint dict_set (k : string) (v : value) (d : dict) : dict :=
  match d with
  | [] => [(k, v)]
  | (k', v') :: d' =>
      if String.eqb k k' then (k', v) :: d' else (k', v') :: dict_set k v d'
  end.

(** d.update(other) *)
Definition dict_update (other : dict) (d : dict) : dict :=
  fold_left (fun acc kv => dict_set (fst kv) (snd kv) acc) other d.

Definition dict_keys (d : dict) : list string := map fst d.

(** Heap objects: lists of floats (latency samples), dicts (metrics,
    entries, and the fields of the params dataclasses) and random.Random
    generators, whose state is the seed and the number of draws made. *)
Inductive object : Type :=
| OList (xs : list Q)
| ODict (d : dict)
| ORandom (seed : Z) (draws : nat).

Abbreviation heap := (gmap loc object).

(** The world a call runs in: the heap, and the monotonic clock, given by the
    readings successive calls of time.perf_counter() return. *)
Record world : Type := World {
  mem : heap;
  clock : nat -> Q;
  reads : nat
}.

Definition set_mem (h : heap) (w : world) : world :=
  World h (clock w) (reads w).

(** Sequential code: it reads and updates the world and may raise. *)
Definition M (A : Type) : Type := world -> result A * world.

Definition ret {A} (a : A) : M A := fun w => (Ok a, w).
Definition raise {A} (e : exn) : M A := fun w => (Err e, w).
Definition bind {A B} (m : M A) (k : A -> M B) : M B :=
  fun w => match m w with
           | (Ok a, w') => k a w'
           | (Err e, w') => (Err e, w')
           end.

Definition of_result {A} (r : result A) : M A :=
  match r with Ok a => ret a | Err e => raise e end.

(** time.perf_counter() *)
Definition perf_counter : M Q :=
  fun w => (Ok (clock w (reads w)), World (mem w) (clock w) (S (reads w))).

Definition alloc (o : object) : M loc :=
  fun w => let l := fresh (dom (mem w)) in (Ok l, set_mem (<[l := o]> (mem w)) w).

Definition read_list (l : loc) : M (list Q) :=
  fun w => match mem w !! l with
           | Some (OList xs) => (Ok xs, w)
           | _ => (Err TypeError, w)
           end.

Definition write_list (l : loc) (xs : list Q) : M unit :=
  fun w => match mem w !! l with
           | Some (OList _) => (Ok tt, set_mem (<[l := OList xs]> (mem w)) w)
           | _ => (Err TypeError, w)
           end.

Definition read_dict (l : loc) : M dict :=
  fun w => match mem w !! l with
           | Some (ODict d) => (Ok d, w)
           | _ => (Err TypeError, w)
           end.

Definition write_dict (l : loc) (d : dict) : M unit :=
  fun w => match mem w !! l with
           | Some (ODict _) => (Ok tt, set_mem (<[l := ODict d]> (mem w)) w)
           | _ => (Err TypeError, w)
           end.

(** obj.field / d[key] on a dict-like object *)
Definition getattr (l : loc) (k : string) : M value :=
  bind (read_dict l) (fun d =>
    match dict_get k d with Some v => ret v | None => raise KeyError end).

(** d[key] = v *)
Definition setitem (l : loc) (k : string) (v : value) : M unit :=
  bind (read_dict l) (fun d => write_dict l (dict_set k v d)).

Definition as_int (v : value) : M Z :=
  match v with VInt z => ret z | _ => raise TypeError end.

(** A float field also accepts an int, as Python arithmetic does.  The int
    is taken exactly: the range of a double is the matter of
    [float_of_int] below. *)
Definition as_float (v : value) : M Q :=
  match v with
  | VFloat q => ret q
  | VInt z => ret (inject_Z z)
  | _ => raise TypeError
  end.

(** An int operand of a float operation is converted to a double first
    (n / x with an int n and a float x).  The conversion rounds to the
    nearest double and raises OverflowError ("int too large to convert to
    float") when that would be beyond the largest one, 2^1024 - 2^971: that
    is, from 2^1024 - 2^970 on in magnitude.  The rounding itself is not
    modelled: the value stays exact. *)
Definition fits_double (n : Z) : bool := Z.abs n <? 2 ^ 1024 - 2 ^ 970.

Definition float_of_int (n : Z) : result Q :=
  if fits_double n then Ok (inject_Z n) else Err OverflowError.

(** range(n): empty when n <= 0. *)
Definition range (n : Z) : list nat := seq 0 (Z.to_nat n).

(** int(x) on a float truncates towards zero. *)
Definition int (x : Q) : Z := Z.quot (Qnum x) (Z.pos (Qden x)).

(** xs[i] with Python's index rules: a negative index counts from the end,
    an index outside [-len, len) raises IndexError. *)
Definition getitem (xs : list Q) (i : Z) : result Q :=
  let n := Z.of_nat (length xs) in
  if (0 <=? i) && (i <? n) then
    match xs !! Z.to_nat i with Some x => Ok x | None => Err IndexError end
  else if (- n <=? i) && (i <? 0) then
    match xs !! Z.to_nat (n + i) with Some x => Ok x | None => Err IndexError end
  else Err IndexError.

(** x / y on floats raises ZeroDivisionError on a zero divisor. *)
Definition truediv (x y : Q) : result Q :=
  if Qeq_bool y 0 then Err ZeroDivisionError else Ok (x / y)%Q.

(** Truth value of a float: zero is false. *)
Definition truthy (x : Q) : bool := negb (Qeq_bool x 0).

(** list.sort() is stable; insertion from the right keeps equal elements in
    their original order. *)
Fixpoint insert_sorted (x : Q) (xs : list Q) : list Q :=
  match xs with
  | [] => [x]
  | y :: ys => if Qle_bool x y then x :: y :: ys else y :: insert_sorted x ys
  end.

Fixpoint sorted (xs : list Q) : list Q :=
  match xs with
  | [] => []
  | x :: xs' => insert_sorted x (sorted xs')
  end.

(** list(values) on a sequence: a new list object with the same elements. *)
Definition list_of (values : loc) : M loc :=
  bind (read_list values) (fun xs => alloc (OList xs)).

(** vals.sort(): in place. *)
Definition list_sort (vals : loc) : M unit :=
  bind (read_list vals) (fun xs => write_list vals (sorted xs)).

Definition len (vals : loc) : M Z :=
  bind (read_list vals) (fun xs => ret (Z.of_nat (length xs))).

Definition list_getitem (vals : loc) (i : Z) : M Q :=
  bind (read_list vals) (fun xs => of_result (getitem xs i)).

(** xs.append(x) *)
Definition list_append (vals : loc) (x : Q) : M unit :=
  bind (read_list vals) (fun xs => write_list vals (xs ++ [x])).

(** Code that awaits: it may, besides, never return ([None]) when what it
    waits for never happens. *)
Definition Async (A : Type) : Type := world -> option (result A) * world.

Definition lift {A} (m : M A) : Async A :=
  fun w => let '(r, w') := m w in (Some r, w').

Definition abind {A B} (m : Async A) (k : A -> Async B) : Async B :=
  fun w => match m w with
           | (Some (Ok a), w') => k a w'
           | (Some (Err e), w') => (Some (Err e), w')
           | (None, w') => (None, w')
           end.

End Py.

Import Py.

Notation "'let*' x ':=' m 'in' k" := (bind m (fun x => k))
  (at level 10, x binder, m at level 100, k at level 200).
Notation "'await*' x ':=' m 'in' k" := (abind m (fun x => k))
  (at level 10, x binder, m at level 100, k at level 200).

(* ===================================================================== *)
(** * utils.py                                                            *)
(* ===================================================================== *)

Module Utils.

(** Floats are exact rationals here: the formulas are the code's, the
    rounding of each operation to a double is not modelled, nor are inf
    and nan. *)
Definition percentile (values : loc) (pct : Q) : M Q :=
  let* vals := list_of values in
  let* n := len vals in
  if n =? 0 then ret 0%Q
  else
    let* _ := list_sort vals in
    let k := (inject_Z (n - 1) * (pct / 100))%Q in
    let f := int k in
    let c := Z.min (f + 1) (n - 1) in
    if f =? c then list_getitem vals (int k)
    else
      let* x := list_getitem vals f in
      let* y := list_getitem vals c in
      let d0 := (x * (inject_Z c - k))%Q in
      let d1 := (y * (k - inject_Z f))%Q in
      ret (d0 + d1)%Q.

(** statistics.mean of a non-empty sample: the exact arithmetic mean. *)
Definition statistics_mean (xs : list Q) : Q :=
  (fold_right Qplus 0 xs / inject_Z (Z.of_nat (length xs)))%Q.

Definition mean (values : loc) : M Q :=
  let* vals := list_of values in
  let* xs := read_list vals in
  match xs with
  | [] => ret 0%Q
  | _ => ret (statistics_mean xs)
  end.

(** What [percentile] computes from the elements of the sample, heap aside. *)
Definition percentile_of (xs : list Q) (pct : Q) : result Q :=
  match xs with
  | [] => Ok 0%Q
  | _ =>
      let s := sorted xs in
      let n := Z.of_nat (length xs) in
      let k := (inject_Z (n - 1) * (pct / 100))%Q in
      let f := int k in
      let c := Z.min (f + 1) (n - 1) in
      if f =? c then getitem s (int k)
      else
        match getitem s f with
        | Err e => Err e
        | Ok x =>
            match getitem s c with
            | Err e => Err e
            | Ok y => Ok (x * (inject_Z c - k) + y * (k - inject_Z f))%Q
            end
        end
  end.

Definition mean_of (xs : list Q) : Q :=
  match xs with
  | [] => 0%Q
  | _ => statistics_mean xs
  end.

(** The linear-interpolation percentile as the specification words it: sort
    the sample, take the rank k = (n-1) * pct/100 and interpolate between the
    order statistics at floor(k) and ceil(k). *)
Definition linear_reference (xs : list Q) (pct : Q) : Q :=
  let s := sorted xs in
  let k := (inject_Z (Z.of_nat (length xs) - 1) * (pct / 100))%Q in
  let lo := Qfloor k in
  let hi := Qceiling k in
  let x_lo := nth (Z.to_nat lo) s 0%Q in
  let x_hi := nth (Z.to_nat hi) s 0%Q in
  (x_lo + (x_hi - x_lo) * (k - inject_Z lo))%Q.

End Utils.

(* ===================================================================== *)
(** * backends.py                                                         *)
(* ===================================================================== *)

Module Backends.

Inductive backend : Type := Asyncio | Trio | Anyio.

Definition name (b : backend) : string :=
  match b with
  | Asyncio => "asyncio"
  | Trio => "trio"
  | Anyio => "anyio"
  end.

(** BACKENDS *)
Definition BACKENDS : list (string * backend) :=
  [("asyncio", Asyncio); ("trio", Trio); ("anyio", Anyio)].

(** backend.sleep(delay) up to the suspension: trio.sleep rejects a negative
    duration with ValueError; asyncio.sleep, and anyio.sleep on its default
    asyncio loop, return at once for one. *)
Definition sleep (b : backend) (delay : Q) : M unit :=
  match b with
  | Trio => if Qle_bool 0 delay then ret tt else raise ValueError
  | Asyncio | Anyio => ret tt
  end.

(** ** Units of concurrency

    A unit is a coroutine of type [U]: the state it is suspended in.  All the
    suspension points of the harness are sleeps, so a unit that suspends
    says for how long.  Scheduling is cooperative: between two suspension
    points a unit runs alone, as sequential code over the world.

    [resume u] runs the unit from [u] to its next suspension point or to its
    end; [on_cancel u] is what the unit does when the cancellation exception
    is raised in it at [u] instead: it ends, with CancelledError unless its
    own handlers decide otherwise. *)

Section Units.
Context {U V : Type}.

Inductive step : Type :=
| Suspend (delay : Q) (u : U)
| Return (v : V).

Record coroutine : Type := Coroutine {
  resume : U -> M step;
  on_cancel : U -> M V
}.

(** A task wraps a unit: live (with the cancellation requested or not) or
    ended with its outcome. *)
Inductive task : Type :=
| Live (u : U) (cancelling : bool)
| Exited (o : result V).

(** What an observer of the run sees, in order. *)
Inductive event : Type :=
| Launch (i : nat)
| Slept (i : nat) (delay : Q)
| Exit (i : nat) (o : result V)
| Signal (i : nat).

Record pool : Type := Pool {
  tasks : list task;
  shared : world;
  trace : list event
}.

(** The delays handed to backend.sleep, in the order of the calls. *)
Definition delays (tr : list event) : list Q :=
  flat_map (fun ev => match ev with Slept _ d => [d] | _ => [] end) tr.

(** The units the cancellation signal was sent to, in the order of sending. *)
Definition signals (tr : list event) : list nat :=
  flat_map (fun ev => match ev with Signal i => [i] | _ => [] end) tr.

Definition is_Signal (ev : event) : bool :=
  match ev with Signal _ => true | _ => false end.

Definition is_Launch (ev : event) : bool :=
  match ev with Launch _ => true | _ => false end.

(** The discipline of the cancellation signal, read off a trace: the
    signals form one uninterrupted block, no unit is signalled twice, and
    nothing is launched once the block has begun. *)
Definition signalled_once (tr : list event) : Prop :=
  exists before sent after,
    tr = before ++ map Signal sent ++ after /\
    NoDup sent /\
    signals before = [] /\
    signals after = [] /\
    Forall (fun ev => is_Launch ev = false) after.

(** Unit [i] is outstanding after [tr]: launched and not yet ended. *)
Definition outstanding (tr : list event) (i : nat) : bool :=
  existsb (fun ev => match ev with Launch j => Nat.eqb j i | _ => false end) tr
  && negb (existsb (fun ev => match ev with Exit j _ => Nat.eqb j i | _ => false end)
                   tr).

(** The signal reaching every outstanding unit: the discipline of
    [signalled_once], the units signalled being exactly those outstanding
    when the block of signals begins. *)
Definition signalled_all (tr : list event) : Prop :=
  exists before sent after,
    tr = before ++ map Signal sent ++ after /\
    NoDup sent /\
    signals before = [] /\
    signals after = [] /\
    Forall (fun ev => is_Launch ev = false) after /\
    forall i, In i sent <-> outstanding before i = true.

Variable code : coroutine.

(** [fn(i) for i in range(count)], each wrapped in a task. *)
Definition create_tasks (fn : nat -> U) (count : Z) (w : world) : pool :=
  Pool (map (fun i => Live (fn i) false) (range count)) w
       (map Launch (range count)).

Definition exit_task (i : nat) (o : result V) (w : world) (p : pool) : pool :=
  Pool (<[i := Exited o]> (tasks p)) w (trace p ++ [Exit i o]).

(** One turn of unit [i].  A turn given to an ended or unknown unit does
    nothing.  The second component is the outcome if the unit ended. *)
Definition turn (i : nat) (p : pool) : pool * option (result V) :=
  match tasks p !! i with
  | Some (Live u false) =>
      match resume code u (shared p) with
      | (Ok (Suspend d u'), w) =>
          (Pool (<[i := Live u' false]> (tasks p)) w (trace p ++ [Slept i d]),
           None)
      | (Ok (Return v), w) => (exit_task i (Ok v) w p, Some (Ok v))
      | (Err e, w) => (exit_task i (Err e) w p, Some (Err e))
      end
  | Some (Live u true) =>
      let '(o, w) := on_cancel code u (shared p) in
      (exit_task i o w p, Some o)
  | _ => (p, None)
  end.

(** The units left to themselves: they take the turns the scheduler gives
    them and nobody collects anything. *)
Definition free_run (sched : list nat) (p : pool) : pool :=
  fold_left (fun q i => fst (turn i q)) sched p.

(** task.cancel() / scope.cancel() reaching unit [i]: a live unit receives
    the signal, an ended one ignores it. *)
Definition cancel (i : nat) (p : pool) : pool :=
  match tasks p !! i with
  | Some (Live u _) =>
      Pool (<[i := Live u true]> (tasks p)) (shared p) (trace p ++ [Signal i])
  | _ => p
  end.

(** A task group tearing its children down after one of them failed: every
    live child is cancelled.  This is the runtime's doing, not a signal of
    the harness, and leaves no [Signal] in the trace.  The cancellation is
    delivered at the child's next turn; a child that had not started is
    taken to meet it at its first suspension point without acting
    before. *)
Definition abort (p : pool) : pool :=
  Pool (map (fun t => match t with
                      | Live u _ => Live u true
                      | Exited o => Exited o
                      end) (tasks p))
       (shared p) (trace p).

Definition is_exited (t : task) : bool :=
  match t with Exited _ => true | Live _ _ => false end.

Definition all_exited (ts : list task) : bool := forallb is_exited ts.

Fixpoint results_of (ts : list task) : option (list V) :=
  match ts with
  | [] => Some []
  | Exited (Ok v) :: ts' =>
      match results_of ts' with Some vs => Some (v :: vs) | None => None end
  | _ => None
  end.

Fixpoint outcomes_of (ts : list task) : option (list (result V)) :=
  match ts with
  | [] => Some []
  | Exited o :: ts' =>
      match outcomes_of ts' with Some os => Some (o :: os) | None => None end
  | Live _ _ :: _ => None
  end.

(** A unit that can only end through the cancellation signal: left alone
    it suspends again and again, and cancelled it ends with CancelledError. *)
Definition only_cancellable : Prop :=
  (forall u w, exists d u' w', resume code u w = (Ok (Suspend d u'), w')) /\
  (forall u w, exists w', on_cancel code u w = (Err CancelledError, w')).

(** *** asyncio.gather

    [await asyncio.gather( *tasks )]: the values of the tasks in the order
    of the arguments once all have returned; the first exception raised by
    a task is propagated, and the other tasks are neither awaited nor
    cancelled.  The event loop resumes the caller a few iterations after
    the failure, once the tasks already scheduled have run; the model
    resumes it at the failure, so the schedule it is given ends there.
    [None] is a gather that is still waiting when the schedule ends. *)
Fixpoint gather (sched : list nat) (p : pool) : option (result (list V)) * pool :=
  match results_of (tasks p) with
  | Some vs => (Some (Ok vs), p)
  | None =>
      match sched with
      | [] => (None, p)
      | i :: sched' =>
          match turn i p with
          | (p', Some (Err e)) => (Some (Err e), p')
          | (p', _) => gather sched' p'
          end
      end
  end.

(** [await asyncio.gather( *tasks, return_exceptions=True)]: waits for
    every task and returns values and exceptions alike. *)
Fixpoint gather_return_exceptions (sched : list nat) (p : pool)
  : option (list (result V)) * pool :=
  match outcomes_of (tasks p) with
  | Some os => (Some os, p)
  | None =>
      match sched with
      | [] => (None, p)
      | i :: sched' => gather_return_exceptions sched' (fst (turn i p))
      end
  end.

(** *** Nurseries and task groups

    [async with trio.open_nursery()] and [async with
    anyio.create_task_group()] share one discipline.  Each child runs a
    [runner] around the unit; the runner's bookkeeping is a state [R],
    updated when the child takes a turn ([on_turn]) and when its unit ends
    ([on_exit]).  An Exception leaving a child makes the group cancel all
    its live children; CancelledError leaving a child is absorbed.  The
    block is left when every child has ended, with the first exception if
    there was one. *)
Section Nursery.
Context {R : Type}.
Variable on_turn : nat -> R -> R.
Variable on_exit : nat -> result V -> R -> R.

Definition is_live (i : nat) (p : pool) : bool :=
  match tasks p !! i with Some (Live _ _) => true | _ => false end.

(** One turn of child [i]; the third component is the exception that
    leaves the child, if any. *)
Definition runner_turn (i : nat) (r : R) (p : pool) : R * pool * option exn :=
  let r1 := if is_live i p then on_turn i r else r in
  match turn i p with
  | (p', None) => (r1, p', None)
  | (p', Some o) =>
      (on_exit i o r1, p',
       match o with
       | Err e => if is_Exception e then Some e else None
       | Ok _ => None
       end)
  end.

(** Leaving the block: wait for every child.  [failed] is the first
    exception that left a child. *)
Fixpoint join (failed : option exn) (r : R) (sched : list nat) (p : pool)
  : option (option exn) * R * pool :=
  if all_exited (tasks p) then (Some failed, r, p)
  else
    match sched with
    | [] => (None, r, p)
    | i :: sched' =>
        match runner_turn i r p with
        | (r', p', None) => join failed r' sched' p'
        | (r', p', Some e) =>
            match failed with
            | None => join (Some e) r' sched' (abort p')
            | Some _ => join failed r' sched' p'
            end
        end
    end.

(** The children running while the body of the block is suspended.
    Stops at the first exception leaving a child: the group then cancels
    the children and the body alike. *)
Fixpoint during (r : R) (sched : list nat) (p : pool) : R * pool * option exn :=
  match sched with
  | [] => (r, p, None)
  | i :: sched' =>
      match runner_turn i r p with
      | (r', p', None) => during r' sched' p'
      | (r', p', Some e) => (r', abort p', Some e)
      end
  end.
End Nursery.

(** ** spawn_many *)

(** Python's None among the values. *)
Variable none : V.

Definition AsyncioBackend_spawn_many (count : Z) (fn : nat -> U)
    (sched : list nat) (w : world) : option (result (list V)) * pool :=
  let tasks := create_tasks fn count w in
  gather sched tasks.

(** [runner(idx)]: results[idx] = await fn(idx) *)
Definition spawn_runner_exit (idx : nat) (o : result V) (results : list V) : list V :=
  match o with
  | Ok v => <[idx := v]> results
  | Err _ => results
  end.

(** [None] * count is the list of max(count, 0) None's for a count that
    fits an index; the error a nursery or task group raises wraps those of
    its children, and the model keeps the first of them. *)
Definition group_spawn_many (count : Z) (fn : nat -> U)
    (sched : list nat) (w : world) : option (result (list V)) * pool :=
  let results := replicate (Z.to_nat count) none in
  match join (fun _ r => r) spawn_runner_exit None results sched
             (create_tasks fn count w) with
  | (None, _, p) => (None, p)
  | (Some (Some e), _, p) => (Some (Err e), p)
  | (Some None, results', p) => (Some (Ok results'), p)
  end.

Definition TrioBackend_spawn_many := group_spawn_many.
Definition AnyioBackend_spawn_many := group_spawn_many.

Definition spawn_many (b : backend) :=
  match b with
  | Asyncio => AsyncioBackend_spawn_many
  | Trio => TrioBackend_spawn_many
  | Anyio => AnyioBackend_spawn_many
  end.

(** ** cancellation_storm *)

(** How the scheduler interleaves a storm: the turns the units take while
    the harness sleeps [cancel_after], and the turns they take once the
    harness waits for them to settle. *)
Record storm_schedule : Type := StormSchedule {
  before_signal : list nat;
  after_signal : list nat
}.

Definition in_pool {A} (m : M A) (p : pool) : result A * pool :=
  let '(r, w) := m (shared p) in (r, Pool (tasks p) w (trace p)).

(** {"cancelled": ..., "exceptions": ..., "settle_s": ...} *)
Definition storm_dict (cancelled other_errors : Z) (settle : Q) : dict :=
  [("cancelled", VInt cancelled); ("exceptions", VInt other_errors);
   ("settle_s", VFloat settle)].

Definition storm_return (cancelled other_errors : Z) (cancel_start : Q)
    (p : pool) : option (result loc) * pool :=
  match in_pool perf_counter p with
  | (Err e, p1) => (Some (Err e), p1)
  | (Ok now, p1) =>
      let settle := (now - cancel_start)%Q in
      let '(r, p2) := in_pool (alloc (ODict (storm_dict cancelled other_errors settle))) p1 in
      (Some r, p2)
  end.

(** isinstance(res, asyncio.CancelledError), on the results of gather:
    what a unit raised, or what it returned, taken not to be an exception
    object. *)
Definition isinstance_CancelledError (res : result V) : bool :=
  match res with Err e => is_CancelledError e | Ok _ => false end.

(** isinstance(res, Exception) and not isinstance(res, asyncio.CancelledError) *)
Definition isinstance_other_error (res : result V) : bool :=
  match res with
  | Err e => is_Exception e && negb (is_CancelledError e)
  | Ok _ => false
  end.

Definition count_true {A} (f : A -> bool) (xs : list A) : Z :=
  Z.of_nat (length (List.filter f xs)).

Definition AsyncioBackend_cancellation_storm (task_count : Z) (cancel_after : Q)
    (task_fn : nat -> U) (s : storm_schedule) (w : world)
  : option (result loc) * pool :=
  let tasks := create_tasks task_fn task_count w in
  (* await asyncio.sleep(cancel_after) *)
  let p1 := free_run (before_signal s) tasks in
  match in_pool perf_counter p1 with
  | (Err e, p2) => (Some (Err e), p2)
  | (Ok cancel_start, p2) =>
      (* for task in tasks: task.cancel() *)
      let p3 := fold_left (fun q i => cancel i q) (range task_count) p2 in
      match gather_return_exceptions (after_signal s) p3 with
      | (None, p4) => (None, p4)
      | (Some results, p4) =>
          let cancelled := count_true isinstance_CancelledError results in
          let other_errors := count_true isinstance_other_error results in
          storm_return cancelled other_errors cancel_start p4
      end
  end.

(** The nonlocal counters of the trio and anyio runners, and trio's list of
    cancel scopes (a scope is named by the index of its unit). *)
Record tally : Type := Tally {
  cancelled : Z;
  other_errors : Z;
  scopes : list nat
}.

(** except Cancelled: cancelled += 1; raise
    except Exception: other_errors += 1; raise *)
Definition storm_runner_exit (idx : nat) (o : result V) (t : tally) : tally :=
  match o with
  | Ok _ => t
  | Err e =>
      if is_CancelledError e then Tally (cancelled t + 1) (other_errors t) (scopes t)
      else if is_Exception e then Tally (cancelled t) (other_errors t + 1) (scopes t)
      else t
  end.

(** trio's runner opens its CancelScope and appends it to [scopes] when it
    first runs. *)
Definition trio_runner_turn (idx : nat) (t : tally) : tally :=
  if bool_decide (idx ∈ scopes t) then t
  else Tally (cancelled t) (other_errors t) (scopes t ++ [idx]).

Definition anyio_runner_turn (idx : nat) (t : tally) : tally := t.

(** The storm inside a nursery or task group.  [sleeping] is the outcome
    of the call to sleep in the body; [targets] are the units the signal
    is sent to. *)
Definition group_cancellation_storm (on_turn : nat -> tally -> tally)
    (targets : tally -> list nat) (sleeping : M unit)
    (task_count : Z) (task_fn : nat -> U) (s : storm_schedule) (w : world)
  : option (result loc) * pool :=
  let failing e t p :=
    match join on_turn storm_runner_exit (Some e) t (after_signal s) p with
    | (None, _, p') => (None, p')
    | (Some _, _, p') => (Some (Err e), p')
    end in
  let t0 := Tally 0 0 [] in
  let p0 := create_tasks task_fn task_count w in
  match in_pool sleeping p0 with
  | (Err e, p1) => failing e t0 (abort p1)
  | (Ok _, p1) =>
      match during on_turn storm_runner_exit t0 (before_signal s) p1 with
      | (t1, p2, Some e) => failing e t1 p2
      | (t1, p2, None) =>
          match in_pool perf_counter p2 with
          | (Err e, p3) => failing e t1 (abort p3)
          | (Ok cancel_start, p3) =>
              let p4 := fold_left (fun q i => cancel i q) (targets t1) p3 in
              match join on_turn storm_runner_exit None t1 (after_signal s) p4 with
              | (None, _, p5) => (None, p5)
              | (Some (Some e), _, p5) => (Some (Err e), p5)
              | (Some None, t2, p5) =>
                  storm_return (cancelled t2) (other_errors t2) cancel_start p5
              end
          end
      end
  end.

(** for scope in scopes: scope.cancel() *)
Definition TrioBackend_cancellation_storm (task_count : Z) (cancel_after : Q) :=
  group_cancellation_storm trio_runner_turn scopes (sleep Trio cancel_after)
    task_count.

(** tg.cancel_scope.cancel(): the scope of the group holds every child. *)
Definition AnyioBackend_cancellation_storm (task_count : Z) (cancel_after : Q) :=
  group_cancellation_storm anyio_runner_turn (fun _ => range task_count)
    (sleep Anyio cancel_after) task_count.

Definition cancellation_storm (b : backend) :=
  match b with
  | Asyncio => AsyncioBackend_cancellation_storm
  | Trio => TrioBackend_cancellation_storm
  | Anyio => AnyioBackend_cancellation_storm
  end.

End Units.

End Backends.

(* ===================================================================== *)
(** * benchmarks/                                                         *)
(* ===================================================================== *)

Module Benchmarks.
Import Backends.

(** The fields of the params dataclasses; an instance is a heap object. *)
Definition TaskSpawnParams (task_count : Z) (payload_sleep : Q) : dict :=
  [("task_count", VInt task_count); ("payload_sleep", VFloat payload_sleep)].

Definition IOBoundParams (concurrency ops_per_worker : Z) (mean_delay_ms : Q)
    (seed : Z) : dict :=
  [("concurrency", VInt concurrency); ("ops_per_worker", VInt ops_per_worker);
   ("mean_delay_ms", VFloat mean_delay_ms); ("seed", VInt seed)].

Definition CancellationParams (task_count : Z) (cancel_after_s : Q) : dict :=
  [("task_count", VInt task_count); ("cancel_after_s", VFloat cancel_after_s)].

(** params = params or XParams() *)
Definition or_default (params : option loc) (default : dict) : M loc :=
  match params with
  | Some l => ret l
  | None => alloc (ODict default)
  end.

(** What backend.spawn_many / cancellation_storm hand back, as awaited by a
    scenario: the outcome and the world the units left. *)
Definition awaited {U V A} (r : option (result A) * pool (U:=U) (V:=V))
  : option (result A) * world :=
  (fst r, shared (snd r)).

(** ** task_spawn.py *)

Inductive run_one_state : Type :=
| RunOneStart
| RunOneSleeping (start : Q).

(** async def run_one(_): start = perf_counter();
      await _worker(backend, params.payload_sleep);
      latencies.append(perf_counter() - start) *)
Definition run_one (backend : backend) (params latencies : loc)
  : coroutine (U:=run_one_state) (V:=value) :=
  {| resume := fun u =>
       match u with
       | RunOneStart =>
           let* start := perf_counter in
           let* v := getattr params "payload_sleep" in
           let* delay := as_float v in
           let* _ := sleep backend delay in
           ret (Suspend delay (RunOneSleeping start))
       | RunOneSleeping start =>
           let* now := perf_counter in
           let* _ := list_append latencies (now - start)%Q in
           ret (Return VNone)
       end;
     on_cancel := fun _ => raise CancelledError |}.

(** The dict run_task_spawn returns. *)
Definition task_spawn_metrics (params latencies : loc) (elapsed : Q) : M loc :=
  let* tasks := getattr params "task_count" in
  let* payload_sleep := getattr params "payload_sleep" in
  let* tasks_per_sec :=
    if truthy elapsed
    then let* task_count := as_float tasks in
         let* x := of_result (truediv task_count elapsed) in ret (VFloat x)
    else ret VInf in
  let* p50 := Utils.percentile latencies 50 in
  let* p95 := Utils.percentile latencies 95 in
  alloc (ODict [("tasks", tasks); ("payload_sleep_s", payload_sleep);
                ("duration_s", VFloat elapsed); ("tasks_per_sec", tasks_per_sec);
                ("latency_p50_ms", VFloat (p50 * 1000));
                ("latency_p95_ms", VFloat (p95 * 1000))]).

Definition run_task_spawn (backend : backend) (params : option loc)
    (sched : list nat) : Async loc :=
  await* params := lift (or_default params (TaskSpawnParams 20000 0.0005)) in
  await* latencies := lift (alloc (OList [])) in
  await* started := lift perf_counter in
  await* task_count := lift (let* v := getattr params "task_count" in as_int v) in
  await* _ := (fun w => awaited (spawn_many (run_one backend params latencies) VNone
                              backend task_count (fun _ => RunOneStart) sched w)) in
  await* now := lift perf_counter in
  let elapsed := (now - started)%Q in
  lift (task_spawn_metrics params latencies elapsed).

(** ** io_bound.py *)

Section IOBound.
(** random.Random: [expovariate_value seed k lambd] is what the k-th call of
    expovariate(lambd) returns on a generator seeded with [seed]. *)
Variable expovariate_value : Z -> nat -> Q -> Q.

(** random.Random(seed) *)
Definition Random (seed : Z) : M loc := alloc (ORandom seed 0).

(** rng.expovariate(lambd) *)
Definition expovariate (rng : loc) (lambd : Q) : M Q :=
  fun w => match mem w !! rng with
           | Some (ORandom seed k) =>
               (Ok (expovariate_value seed k lambd),
                set_mem (<[rng := ORandom seed (S k)]> (mem w)) w)
           | _ => (Err TypeError, w)
           end.

Inductive worker_state : Type :=
| WorkerStart
| WorkerSleeping (start : Q) (remaining : nat).

(** The body of [for _ in range(params.ops_per_worker)] with [remaining]
    iterations to go, up to the next suspension. *)
Definition worker_loop (backend : backend) (params rng : loc)
    (remaining : nat) : M (step (U:=worker_state) (V:=value)) :=
  match remaining with
  | O => ret (Return VNone)
  | S remaining' =>
      let* v := getattr params "mean_delay_ms" in
      let* mean_delay_ms := as_float v in
      let* lambd := of_result (truediv 1 mean_delay_ms) in
      let* x := expovariate rng lambd in
      let delay := (x / 1000)%Q in
      let* start := perf_counter in
      let* _ := sleep backend delay in
      ret (Suspend delay (WorkerSleeping start remaining'))
  end.

Definition worker (backend : backend) (params rng op_latencies : loc)
  : coroutine (U:=worker_state) (V:=value) :=
  {| resume := fun u =>
       match u with
       | WorkerStart =>
           let* v := getattr params "ops_per_worker" in
           let* ops_per_worker := as_int v in
           worker_loop backend params rng (length (range ops_per_worker))
       | WorkerSleeping start remaining =>
           let* now := perf_counter in
           let* _ := list_append op_latencies (now - start)%Q in
           worker_loop backend params rng remaining
       end;
     on_cancel := fun _ => raise CancelledError |}.

(** The dict run_io_bound returns. *)
Definition io_bound_metrics (params op_latencies : loc) (elapsed : Q) : M loc :=
  let* workers := getattr params "concurrency" in
  let* concurrency := as_int workers in
  let* opw := getattr params "ops_per_worker" in
  let* ops_per_worker := as_int opw in
  let total_ops := concurrency * ops_per_worker in
  let* mean_delay_ms := getattr params "mean_delay_ms" in
  let* ops_per_sec :=
    if truthy elapsed
    then let* x := of_result (truediv (inject_Z total_ops) elapsed) in ret (VFloat x)
    else ret VInf in
  let* m := Utils.mean op_latencies in
  let* p95 := Utils.percentile op_latencies 95 in
  let* p99 := Utils.percentile op_latencies 99 in
  alloc (ODict [("workers", workers); ("ops_per_worker", opw);
                ("mean_delay_ms", mean_delay_ms);
                ("duration_s", VFloat elapsed); ("ops", VInt total_ops);
                ("ops_per_sec", ops_per_sec);
                ("latency_mean_ms", VFloat (m * 1000));
                ("latency_p95_ms", VFloat (p95 * 1000));
                ("latency_p99_ms", VFloat (p99 * 1000))]).

(** The first lines of run_io_bound: the generator and the sample list. *)
Definition io_bound_setup (params : option loc) : M (loc * loc * loc) :=
  let* params := or_default params (IOBoundParams 200 200 5 1337) in
  let* v := getattr params "seed" in
  let* seed := as_int v in
  let* rng := Random seed in
  let* op_latencies := alloc (OList []) in
  ret (params, rng, op_latencies).

(** await backend.spawn_many(params.concurrency, worker) *)
Definition io_bound_spawn (backend : backend) (params rng op_latencies : loc)
    (sched : list nat) (w : world) :=
  match (let* v := getattr params "concurrency" in as_int v) w with
  | (Err e, w') => (Some (Err e), Pool [] w' [])
  | (Ok concurrency, w') =>
      spawn_many (worker backend params rng op_latencies) VNone
                 backend concurrency (fun _ => WorkerStart) sched w'
  end.

(** The delays the workers of a run hand to backend.sleep, in the order
    they draw them. *)
Definition io_bound_delays (backend : backend) (params : option loc)
    (sched : list nat) (w : world) : list Q :=
  match io_bound_setup params w with
  | (Ok (params, rng, op_latencies), w1) =>
      let '(_, w2) := perf_counter w1 in
      delays (trace (snd (io_bound_spawn backend params rng op_latencies sched w2)))
  | (Err _, _) => []
  end.

(** A schedule that lets each of [concurrency] workers make its
    [ops_per_worker] calls and return. *)
Definition lets_workers_finish (concurrency ops_per_worker : Z)
    (sched : list nat) : Prop :=
  forall i, (i < Z.to_nat concurrency)%nat ->
    (Z.to_nat ops_per_worker + 1 <= count_occ Nat.eq_dec sched i)%nat.

Definition run_io_bound (backend : backend) (params : option loc)
    (sched : list nat) : Async loc :=
  await* '(params, rng, op_latencies) := lift (io_bound_setup params) in
  await* started := lift perf_counter in
  await* _ := (fun w => awaited (io_bound_spawn backend params rng op_latencies sched w)) in
  await* now := lift perf_counter in
  let elapsed := (now - started)%Q in
  lift (io_bound_metrics params op_latencies elapsed).
End IOBound.

(** ** The throughput expressions

    [params.task_count / elapsed if elapsed else float("inf")] of
    task_spawn.py and [total_ops / elapsed if elapsed else float("inf")] of
    io_bound.py, where total_ops = params.concurrency *
    params.ops_per_worker, on their own, with the int operand converted to
    a double as the division does.  The condition is evaluated first, so
    nothing is converted when elapsed is zero. *)
Definition tasks_per_sec (params : loc) (elapsed : Q) : M value :=
  if truthy elapsed
  then let* v := getattr params "task_count" in
       let* task_count := as_int v in
       let* n := of_result (float_of_int task_count) in
       let* x := of_result (truediv n elapsed) in ret (VFloat x)
  else ret VInf.

Definition ops_per_sec (params : loc) (elapsed : Q) : M value :=
  let* workers := getattr params "concurrency" in
  let* concurrency := as_int workers in
  let* opw := getattr params "ops_per_worker" in
  let* ops_per_worker := as_int opw in
  let total_ops := concurrency * ops_per_worker in
  if truthy elapsed
  then let* n := of_result (float_of_int total_ops) in
       let* x := of_result (truediv n elapsed) in ret (VFloat x)
  else ret VInf.

(** ** cancellation.py *)

(** async def _long_task(backend, _): while True: await backend.sleep(1) *)
Definition _long_task (backend : backend) : coroutine (U:=unit) (V:=value) :=
  {| resume := fun _ => let* _ := sleep backend 1 in ret (Suspend 1 tt);
     on_cancel := fun _ => raise CancelledError |}.

(** result.update({...}) *)
Definition update (l : loc) (other : dict) : M unit :=
  let* d := read_dict l in write_dict l (dict_update other d).

Definition run_cancellation (backend : backend) (params : option loc)
    (s : storm_schedule) : Async loc :=
  await* params := lift (or_default params (CancellationParams 5000 0.05)) in
  await* launched_at := lift perf_counter in
  await* tasks := lift (getattr params "task_count") in
  await* task_count := lift (as_int tasks) in
  await* cancel_after_s := lift (getattr params "cancel_after_s") in
  await* cancel_after := lift (as_float cancel_after_s) in
  await* result := (fun w => awaited (cancellation_storm (_long_task backend) backend
                      task_count cancel_after (fun _ => tt) s w)) in
  await* finished_at := lift perf_counter in
  await* _ := lift (update result
                [("tasks", tasks); ("cancel_after_s", cancel_after_s);
                 ("duration_s", VFloat (finished_at - launched_at))]) in
  lift (ret result).

(** What run_cancellation adds to the dict of the storm. *)
Definition cancellation_extras (tc : Z) (ca dur : Q) : dict :=
  [("tasks", VInt tc); ("cancel_after_s", VFloat ca); ("duration_s", VFloat dur)].

End Benchmarks.

(* ===================================================================== *)
(** * runner.py                                                           *)
(* ===================================================================== *)

Module Runner.
Import Backends Benchmarks.

(** The keys of SCENARIOS.  argparse restricts --benchmarks to them and
    --libraries to the keys of BACKENDS, so the parsed selections are lists
    over these two enumerations (repetitions allowed). *)
Inductive scenario : Type := task_spawn | io_bound | cancellation.

Definition scenario_name (s : scenario) : string :=
  match s with
  | task_spawn => "task_spawn"
  | io_bound => "io_bound"
  | cancellation => "cancellation"
  end.

(** A benchmark function: BenchmarkFn, already run through backend.run. *)
Definition BenchmarkFn : Type := backend -> loc -> Async loc.

(** The Namespace parse_args returns. *)
Record Namespace : Type := {
  benchmarks : list scenario;
  libraries : list backend;
  repetitions : Z;
  task_count : Z;
  payload_sleep : Q;
  concurrency : Z;
  ops_per_worker : Z;
  mean_io_ms : Q;
  io_seed : Z;
  cancel_tasks : Z;
  cancel_after : Q
}.

(** build_params: one params object per scenario. *)
Definition build_params (args : Namespace) : M (scenario -> loc) :=
  let* ts := alloc (ODict (TaskSpawnParams (task_count args) (payload_sleep args))) in
  let* io := alloc (ODict (IOBoundParams (concurrency args) (ops_per_worker args)
                                         (mean_io_ms args) (io_seed args))) in
  let* ca := alloc (ODict (CancellationParams (cancel_tasks args) (cancel_after args))) in
  ret (fun s => match s with
                | task_spawn => ts
                | io_bound => io
                | cancellation => ca
                end).

(** dataclasses.asdict(params): a new dict with the fields. *)
Definition asdict (params : loc) : M loc :=
  let* d := read_dict params in alloc (ODict d).

Definition run_benchmark (backend : backend) (name : string) (fn : BenchmarkFn)
    (params : loc) : Async loc :=
  await* result := fn backend params in
  await* snapshot := lift (asdict params) in
  lift (alloc (ODict [("library", VStr (Backends.name backend));
                      ("scenario", VStr name);
                      ("params", VRef snapshot);
                      ("metrics", VRef result)])).

(** A for loop whose body awaits: the body threads the list of entries. *)
Fixpoint for_each {A} (xs : list A) (body : A -> list loc -> Async (list loc))
    (entries : list loc) : Async (list loc) :=
  match xs with
  | [] => lift (ret entries)
  | x :: xs' => await* entries' := body x entries in for_each xs' body entries'
  end.

Section Main.
(** SCENARIOS[name]["fn"] *)
Variable SCENARIOS : scenario -> BenchmarkFn.

(** The body of the innermost loop of main. *)
Definition repetition (params : scenario -> loc) (lib : backend)
    (scenario_name_ : scenario) (rep : nat) (entries : list loc)
  : Async (list loc) :=
  let fn := SCENARIOS scenario_name_ in
  await* started := lift perf_counter in
  await* entry := run_benchmark lib (scenario_name scenario_name_) fn
                    (params scenario_name_) in
  await* _ := lift (setitem entry "rep" (VInt (Z.of_nat rep + 1))) in
  await* now := lift perf_counter in
  await* _ := lift (setitem entry "duration_s" (VFloat (now - started))) in
  lift (ret (entries ++ [entry])).

(** main, from build_params to the end of its loops: the entries of
    payload["results"].  ensure_output_dir before the loops, print in them
    and the writing of the document after them act on the file system and
    the terminal only, and are left out. *)
Definition main (args : Namespace) : Async (list loc) :=
  await* params := lift (build_params args) in
  for_each (libraries args) (fun lib =>
    for_each (benchmarks args) (fun scenario_name_ =>
      for_each (range (repetitions args)) (fun rep =>
        repetition params lib scenario_name_ rep))) [].
End Main.

(** The fields build_params gives the params of a scenario. *)
Definition params_fields (args : Namespace) (s : scenario) : dict :=
  match s with
  | task_spawn => TaskSpawnParams (task_count args) (payload_sleep args)
  | io_bound => IOBoundParams (concurrency args) (ops_per_worker args)
                              (mean_io_ms args) (io_seed args)
  | cancellation => CancellationParams (cancel_tasks args) (cancel_after args)
  end.

(** The (library, scenario, repetition) triples of a run, in the order of
    the loops of main; the repetition counts from 0, as [rep] does. *)
Definition combinations (args : Namespace) : list (backend * scenario * nat) :=
  flat_map (fun lib =>
    flat_map (fun sc =>
      map (fun rep => (lib, sc, rep)) (range (repetitions args)))
      (benchmarks args))
    (libraries args).

(** [entry] is, in [w], the entry of the result document for a triple: its
    rep is the repetition counted from 1 and its params the snapshot of
    the scenario's params. *)
Definition is_entry (args : Namespace) (w : world) (entry : loc)
    (c : backend * scenario * nat) : Prop :=
  exists snapshot metrics duration,
    mem w !! entry
    = Some (ODict [("library", VStr (Backends.name (fst (fst c))));
                   ("scenario", VStr (scenario_name (snd (fst c))));
                   ("params", VRef snapshot);
                   ("metrics", VRef metrics);
                   ("rep", VInt (Z.of_nat (snd c) + 1));
                   ("duration_s", VFloat duration)]) /\
    mem w !! snapshot = Some (ODict (params_fields args (snd (fst c)))).

(** What the result document shows of an entry: one of its fields, and the
    contents of its params snapshot. *)
Definition entry_field (w : world) (k : string) (entry : loc) : option value :=
  match mem w !! entry with
  | Some (ODict d) => dict_get k d
  | _ => None
  end.

Definition entry_params (w : world) (entry : loc) : option dict :=
  match entry_field w "params" entry with
  | Some (VRef snapshot) =>
      match mem w !! snapshot with
      | Some (ODict d) => Some d
      | _ => None
      end
  | _ => None
  end.

(** The object at [l] is in [w'] what it was in [w]. *)
Definition unchanged_since (w w' : world) (l : loc) : Prop :=
  mem w' !! l = mem w !! l.

(** SCENARIOS, each function run under the interleaving the scheduler picks
    for it. *)
Definition SCENARIOS (expovariate_value : Z -> nat -> Q -> Q)
    (sched : list nat) (storm : storm_schedule) (s : scenario) : BenchmarkFn :=
  fun backend params =>
    match s with
    | task_spawn => run_task_spawn backend (Some params) sched
    | io_bound => run_io_bound expovariate_value backend (Some params) sched
    | cancellation => run_cancellation backend (Some params) storm
    end.

(** Every benchmark of the run returns its metrics. *)
Definition benchmarks_terminate (fns : scenario -> BenchmarkFn)
    (args : Namespace) : Prop :=
  forall lib sc p w0,
    In lib (libraries args) -> In sc (benchmarks args) ->
    mem w0 !! p = Some (ODict (params_fields args sc)) ->
    exists m w1, fns sc lib p w0 = (Some (Ok m), w1).

End Runner.

(* ===================================================================== *)
(** * Sample inputs                                                       *)
(* ===================================================================== *)

Module Samples.
Import Backends Benchmarks.

(** A world with an empty heap whose clock reads 0, 1, 2, ... *)
Definition empty_world : world :=
  World ∅ (fun n => inject_Z (Z.of_nat n)) 0.

(** A world whose heap holds one list, at location 1. *)
Definition sample_world (xs : list Q) : world :=
  World {[ 1%positive := OList xs ]} (fun _ => 0%Q) 0.

(** A world holding default params of the first two scenarios and an empty
    latency sample. *)
Definition metrics_world : world :=
  World (<[3%positive := OList []]>
         (<[2%positive := ODict (IOBoundParams 200 200 5 1337)]>
          {[ 1%positive := ODict (TaskSpawnParams 20000 0.0005) ]}))
        (fun _ => 0%Q) 0.

(** Params whose counts are beyond the range of a double: --task-count
    -(2^1024), and --concurrency and --ops-per-worker -(2^512).  A negative
    count is an empty range: under asyncio no unit is launched and the run
    reaches its metrics at once. *)
Definition huge_world : world :=
  World (<[3%positive := OList []]>
         (<[2%positive := ODict (IOBoundParams (- 2 ^ 512) (- 2 ^ 512) 5 1337)]>
          {[ 1%positive := ODict (TaskSpawnParams (- 2 ^ 1024) 0.0005) ]}))
        (fun n => inject_Z (Z.of_nat n)) 0.

(** A unit that sleeps a given number of times and then ends as told:
    [async def fn(i): for _ in range(n): await backend.sleep(0); return v]
    or [...; raise e]. *)
Definition scripted : coroutine (U := nat * result value) (V := value) :=
  {| resume := fun u =>
       match u with
       | (S n, o) => ret (Suspend 0 (n, o))
       | (O, Ok v) => ret (Return v)
       | (O, Err e) => raise e
       end;
     on_cancel := fun _ => raise CancelledError |}.

(** Unit i sleeps [3 - i] times and returns i: the units complete in the
    reverse of the order they were launched in. *)
Definition countdown (i : nat) : nat * result value :=
  ((3 - i)%nat, Ok (VInt (Z.of_nat i))).

(** Unit 0 raises at once; unit 1 sleeps once and returns 1. *)
Definition one_fails (i : nat) : nat * result value :=
  match i with
  | O => (O, Err (RuntimeError 7))
  | _ => (1%nat, Ok (VInt 1))
  end.

(** A stand-in for random.Random.expovariate: like -log(1 - u) / lambd it
    divides a non-negative number, fixed by the seed and the rank of the
    call, by lambd. *)
Definition sample_expovariate (seed : Z) (k : nat) (lambd : Q) : Q :=
  (inject_Z (Z.abs seed + Z.of_nat k) / lambd)%Q.

(** Two worlds holding the same IOBoundParams, with different clocks. *)
Definition io_world_1 : world :=
  World {[ 1%positive := ODict (IOBoundParams 2 2 5 1337) ]}
        (fun n => inject_Z (Z.of_nat n)) 0.

Definition io_world_2 : world :=
  World (<[5%positive := ODict (IOBoundParams 2 2 5 1337)]>
         {[ 1%positive := OList [1; 2]%Q ]})
        (fun n => inject_Z (7 * Z.of_nat n)) 3.

(** A world holding the params of a storm of two units. *)
Definition cancel_world : world :=
  World {[ 1%positive := ODict (CancellationParams 2 0.05) ]}
        (fun n => inject_Z (Z.of_nat n)) 0.

(** Both units get a turn before the signal and one after it. *)
Definition sample_storm : storm_schedule :=
  StormSchedule [0; 1]%nat [1; 0]%nat.

(** --benchmarks cancellation --libraries asyncio --repetitions 3
    --cancel-tasks 2, the other options at their defaults. *)
Definition sample_args : Runner.Namespace :=
  {| Runner.benchmarks := [Runner.cancellation];
     Runner.libraries := [Asyncio];
     Runner.repetitions := 3;
     Runner.task_count := 20000;
     Runner.payload_sleep := 0.0005;
     Runner.concurrency := 200;
     Runner.ops_per_worker := 200;
     Runner.mean_io_ms := 5;
     Runner.io_seed := 1337;
     Runner.cancel_tasks := 2;
     Runner.cancel_after := 0.05 |}.

(** Params of a spawn of three units, under a clock that reads 0, 1, 2, ... *)
Definition task_spawn_world : world :=
  World {[ 1%positive := ODict (TaskSpawnParams 3 0.0005) ]}
        (fun n => inject_Z (Z.of_nat n)) 0.

(** IOBoundParams with a mean delay of zero. *)
Definition zero_delay_world : world :=
  World {[ 1%positive := ODict (IOBoundParams 2 3 0 1337) ]} (fun _ => 0%Q) 0.

End Samples.

(* ===================================================================== *)
(** * Facts about the Python fragment                                     *)
(* ===================================================================== *)

Module PyFacts.

Lemma length_insert_sorted x xs : length (insert_sorted x xs) = S (length xs).
Proof.
  induction xs as [|y ys IH]; simpl; [reflexivity|].
  destruct (Qle_bool x y); simpl; [reflexivity|now rewrite IH].
Qed.

Lemma length_sorted xs : length (sorted xs) = length xs.
Proof.
  induction xs as [|x xs IH]; simpl; [reflexivity|].
  now rewrite length_insert_sorted, IH.
Qed.

Lemma insert_sorted_perm x xs : Permutation (x :: xs) (insert_sorted x xs).
Proof.
  induction xs as [|y ys IH]; simpl; [reflexivity|].
  destruct (Qle_bool x y); [reflexivity|].
  etransitivity; [apply perm_swap|]. now constructor.
Qed.

Lemma sorted_perm xs : Permutation xs (sorted xs).
Proof.
  induction xs as [|x xs IH]; simpl; [constructor|].
  etransitivity; [|apply insert_sorted_perm]. now constructor.
Qed.

Lemma insert_sorted_Sorted x xs :
  Sorted Qle xs -> Sorted Qle (insert_sorted x xs).
Proof.
  induction xs as [|y ys IH]; simpl; intros Hs.
  - repeat constructor.
  - destruct (Qle_bool x y) eqn:Hxy.
    + apply Qle_bool_iff in Hxy. constructor; [assumption|now constructor].
    + assert (Hyx : (y <= x)%Q).
      { destruct (Qlt_le_dec y x) as [Hlt|Hle]; [now apply Qlt_le_weak|].
        apply Qle_bool_iff in Hle. congruence. }
      inversion Hs as [|? ? Hs' Hhd]; subst.
      constructor; [now apply IH|].
      destruct ys as [|z zs]; simpl; [now constructor|].
      destruct (Qle_bool x z); constructor; [assumption|].
      now inversion Hhd.
Qed.

(** [sorted] is a sort: its output is ordered and a permutation of its
    input. *)
Lemma sorted_Sorted xs : Sorted Qle (sorted xs).
Proof.
  induction xs as [|x xs IH]; simpl; [constructor|].
  now apply insert_sorted_Sorted.
Qed.

Lemma getitem_in_range (xs : list Q) (i : Z) :
  0 <= i < Z.of_nat (length xs) ->
  getitem xs i = Ok (nth (Z.to_nat i) xs 0%Q).
Proof.
  intros Hi. unfold getitem.
  destruct (Z.leb_spec 0 i); [|lia].
  destruct (Z.ltb_spec i (Z.of_nat (length xs))); [|lia]. simpl.
  destruct (xs !! Z.to_nat i) as [x|] eqn:Hx.
  - f_equal. symmetry. now apply nth_lookup_Some with (d:=0%Q) in Hx.
  - apply lookup_ge_None in Hx. lia.
Qed.

Lemma int_nonneg (x : Q) : (0 <= x)%Q -> int x = Qfloor x.
Proof.
  destruct x as [n d]. unfold int, Qfloor, Qle. simpl. intros H.
  apply Z.quot_div_nonneg; lia.
Qed.

End PyFacts.

(* ===================================================================== *)
(** * Facts about utils.py                                                *)
(* ===================================================================== *)

Module UtilsFacts.
Import PyFacts Utils Samples.

(** The location [alloc] picks is not in use. *)
Lemma fresh_unused (h : heap) : h !! fresh (dom h) = None.
Proof. apply not_elem_of_dom, is_fresh. Qed.

Lemma fresh_other (h : heap) (l : loc) (o : object) :
  h !! l = Some o -> l <> fresh (dom h).
Proof. intros H ->. rewrite fresh_unused in H. discriminate. Qed.

(** The world after [percentile values pct] or [mean values]: one more list
    object, the private copy. *)
Definition with_copy (xs : list Q) (w : world) : world :=
  set_mem (<[fresh (dom (mem w)) := OList xs]> (mem w)) w.

Lemma list_of_run values xs w :
  mem w !! values = Some (OList xs) ->
  list_of values w = (Ok (fresh (dom (mem w))), with_copy xs w).
Proof.
  intros H. unfold list_of, bind, read_list, alloc. now rewrite H.
Qed.

Lemma bind_run {A B} (m : M A) (k : A -> M B) w r w' :
  m w = (r, w') ->
  bind m k w = match r with Ok a => k a w' | Err e => (Err e, w') end.
Proof. intros H. unfold bind. now rewrite H. Qed.

Lemma read_list_run l xs w :
  mem w !! l = Some (OList xs) -> read_list l w = (Ok xs, w).
Proof. intros H. unfold read_list. now rewrite H. Qed.

Lemma len_run l xs w :
  mem w !! l = Some (OList xs) -> len l w = (Ok (Z.of_nat (length xs)), w).
Proof.
  intros H. unfold len. now rewrite (bind_run _ _ _ _ _ (read_list_run _ _ _ H)).
Qed.

Lemma list_getitem_run l xs i w :
  mem w !! l = Some (OList xs) -> list_getitem l i w = (getitem xs i, w).
Proof.
  intros H. unfold list_getitem.
  rewrite (bind_run _ _ _ _ _ (read_list_run _ _ _ H)).
  now destruct (getitem xs i).
Qed.

Lemma with_copy_lookup xs w :
  mem (with_copy xs w) !! fresh (dom (mem w)) = Some (OList xs).
Proof. unfold with_copy. simpl. apply lookup_insert_eq. Qed.

Lemma list_sort_copy_run xs w :
  list_sort (fresh (dom (mem w))) (with_copy xs w)
  = (Ok tt, with_copy (sorted xs) w).
Proof.
  unfold list_sort.
  rewrite (bind_run _ _ _ _ _ (read_list_run _ _ _ (with_copy_lookup xs w))).
  unfold write_list. rewrite with_copy_lookup.
  unfold with_copy, set_mem. simpl. now rewrite insert_insert_eq.
Qed.

Lemma percentile_run values xs pct w :
  mem w !! values = Some (OList xs) ->
  percentile values pct w =
    (percentile_of xs pct,
     with_copy (match xs with [] => [] | _ => sorted xs end) w).
Proof.
  intros H. unfold percentile.
  rewrite (bind_run _ _ _ _ _ (list_of_run _ _ _ H)).
  rewrite (bind_run _ _ _ _ _ (len_run _ _ _ (with_copy_lookup xs w))).
  destruct xs as [|x xs']; [reflexivity|].
  set (xs := x :: xs') in *.
  replace (Z.of_nat (length xs) =? 0) with false
    by (symmetry; apply Z.eqb_neq; subst xs; simpl; lia).
  rewrite (bind_run _ _ _ _ _ (list_sort_copy_run xs w)).
  pose proof (with_copy_lookup (sorted xs) w) as Hs.
  unfold percentile_of. fold xs. cbv zeta.
  destruct (_ =? _).
  - now rewrite (list_getitem_run _ _ _ _ Hs).
  - rewrite (bind_run _ _ _ _ _ (list_getitem_run _ _ _ _ Hs)).
    destruct (getitem (sorted xs) (int _)) as [a|e]; [|reflexivity].
    rewrite (bind_run _ _ _ _ _ (list_getitem_run _ _ _ _ Hs)).
    now destruct (getitem (sorted xs) (Z.min _ _)) as [b|e].
Qed.

Lemma mean_run values xs w :
  mem w !! values = Some (OList xs) ->
  mean values w = (Ok (mean_of xs), with_copy xs w).
Proof.
  intros H. unfold mean.
  unfold bind at 1. rewrite (list_of_run _ _ _ H).
  unfold bind, read_list. unfold with_copy at 1. simpl.
  rewrite lookup_insert_eq. now destruct xs.
Qed.

(** A call leaves every object that existed before it as it was. *)
Lemma with_copy_frame xs w l o :
  mem w !! l = Some o -> mem (with_copy xs w) !! l = Some o.
Proof.
  intros H. unfold with_copy. simpl.
  rewrite lookup_insert_ne; [assumption|].
  intros Heq. symmetry in Heq. revert Heq. now apply fresh_other with o.
Qed.

(** The rank of a percentile between 0 and 100 lies within the sample. *)
Lemma rank_bounds (n : Z) (pct : Q) :
  1 <= n -> (0 <= pct)%Q -> (pct <= 100)%Q ->
  let k := (inject_Z (n - 1) * (pct / 100))%Q in
  (0 <= k)%Q /\ (k <= inject_Z (n - 1))%Q.
Proof.
  intros Hn H0 H100 k. subst k.
  assert (Hn' : (0 <= inject_Z (n - 1))%Q).
  { change 0%Q with (inject_Z 0). rewrite <- Zle_Qle. lia. }
  assert (Hp0 : (0 <= pct / 100)%Q).
  { apply Qle_shift_div_l; [reflexivity|]. now rewrite Qmult_0_l. }
  assert (Hp1 : (pct / 100 <= 1)%Q).
  { apply Qle_shift_div_r; [reflexivity|]. now rewrite Qmult_1_l. }
  split.
  - now apply Qmult_le_0_compat.
  - rewrite <- (Qmult_1_r (inject_Z (n - 1))) at 2.
    rewrite !(Qmult_comm (inject_Z (n - 1))).
    now apply Qmult_le_compat_r.
Qed.

Lemma Qfloor_eq_ceiling (k : Q) :
  Qfloor k = Qceiling k \/ Qceiling k = Qfloor k + 1.
Proof.
  pose proof (Qle_floor_ceiling k) as H1.
  pose proof (Qfloor_le k) as H2.
  pose proof (Qceiling_lt k) as H3.
  assert (H : (inject_Z (Qceiling k - 1) < inject_Z (Qfloor k + 1))%Q).
  { eapply Qlt_trans; [apply H3|apply Qlt_floor]. }
  rewrite <- Zlt_Qlt in H. rewrite <- Zle_Qle in H1. lia.
Qed.

(** Within range, [percentile_of] returns the linear interpolation. *)
Lemma percentile_of_linear (xs : list Q) (pct : Q) :
  xs <> [] -> (0 <= pct)%Q -> (pct <= 100)%Q ->
  exists q, percentile_of xs pct = Ok q /\ (q == linear_reference xs pct)%Q.
Proof.
  intros Hne H0 H100.
  destruct xs as [|x0 xs0]; [congruence|]. clear Hne.
  set (xs := x0 :: xs0).
  unfold percentile_of, linear_reference. fold xs. cbv zeta.
  set (n := Z.of_nat (length xs)).
  assert (Hn : 1 <= n) by (subst n xs; simpl; lia).
  destruct (rank_bounds n pct Hn H0 H100) as [Hk0 Hkn].
  set (k := (inject_Z (n - 1) * (pct / 100))%Q) in *.
  rewrite (int_nonneg k Hk0).
  set (f := Qfloor k).
  assert (Hf0 : 0 <= f).
  { subst f. rewrite <- (Qfloor_Z 0). now apply Qfloor_resp_le. }
  assert (Hfn : f <= n - 1).
  { subst f. rewrite <- (Qfloor_Z (n - 1)). now apply Qfloor_resp_le. }
  assert (Hlen : Z.of_nat (length (sorted xs)) = n)
    by (now rewrite length_sorted).
  destruct (Z.eqb_spec f (Z.min (f + 1) (n - 1))) as [Heq|Hneq].
  - (* the rank is the last index *)
    assert (Hfl : f = n - 1) by lia.
    rewrite getitem_in_range by lia.
    eexists; split; [reflexivity|].
    assert (Hc : Qceiling k = f).
    { apply Z.le_antisymm.
      - rewrite Hfl. rewrite <- (Qceiling_Z (n - 1)). now apply Qceiling_resp_le.
      - rewrite Zle_Qle. apply Qle_floor_ceiling. }
    rewrite Hc. ring.
  - assert (Hc : Z.min (f + 1) (n - 1) = f + 1) by lia.
    rewrite Hc.
    rewrite !getitem_in_range by lia.
    eexists; split; [reflexivity|].
    destruct (Qfloor_eq_ceiling k) as [Hsame|Hnext];
      [fold f in Hsame|fold f in Hnext].
    + (* the rank is an integer *)
      rewrite <- Hsame.
      assert (Hkf : (k == inject_Z f)%Q).
      { apply Qle_antisym; [|apply Qfloor_le].
        rewrite Hsame. apply Qle_ceiling. }
      rewrite Hkf. rewrite inject_Z_plus. ring.
    + rewrite Hnext. rewrite inject_Z_plus. ring.
Qed.

Lemma percentile_of_total (xs : list Q) (pct : Q) :
  (0 <= pct)%Q -> (pct <= 100)%Q -> exists q, percentile_of xs pct = Ok q.
Proof.
  intros H0 H100. destruct xs as [|x xs'] eqn:E; [now exists 0%Q|].
  destruct (percentile_of_linear (x :: xs') pct) as (q & Hq & _);
    [discriminate|assumption|assumption|]. now exists q.
Qed.

(** C5.  percentile(values, pct) returns 0.0 for an empty sample; for a
    non-empty sample and a percentile between 0 and 100 it returns the
    linear interpolation between the order statistics at floor(k) and
    ceil(k), k = (n-1)*pct/100, of the sorted sample.  In particular
    percentile([1,2,3,4], 50) is 2.5, and mean([]) is 0.0. *)
Theorem percentile_linear_interpolation
    (w : world) (values : loc) (xs : list Q) (pct : Q) :
  mem w !! values = Some (OList xs) ->
  xs = [] \/ ((0 <= pct)%Q /\ (pct <= 100)%Q) ->
  (exists q, fst (percentile values pct w) = Ok q /\
             (xs = [] -> q = 0%Q) /\
             (xs <> [] -> (q == linear_reference xs pct)%Q)) /\
  (forall w' l, mem w' !! l = Some (OList [1; 2; 3; 4]%Q) ->
     exists q, fst (percentile l 50 w') = Ok q /\ (q == 2.5)%Q) /\
  (forall w' l p, mem w' !! l = Some (OList []) ->
     fst (percentile l p w') = Ok 0%Q /\ fst (mean l w') = Ok 0%Q).
Proof.
  intros Hv Hdom. split; [|split].
  - rewrite (percentile_run _ _ _ _ Hv). simpl.
    destruct Hdom as [->|[H0 H100]].
    + exists 0%Q. repeat split; congruence.
    + destruct xs as [|x xs'].
      * exists 0%Q. repeat split; congruence.
      * destruct (percentile_of_linear (x :: xs') pct) as (q & Hq & Hlin);
          [discriminate|assumption|assumption|].
        exists q. repeat split; [assumption|discriminate|auto].
  - intros w' l Hl. rewrite (percentile_run _ _ _ _ Hl).
    eexists; split; [reflexivity|]. reflexivity.
  - intros w' l p Hl.
    now rewrite (percentile_run _ _ _ _ Hl), (mean_run _ _ _ Hl).
Qed.

Lemma percentile_linear_interpolation_witness :
  exists q, fst (percentile 1%positive 95 (sample_world [3; 1; 2]%Q)) = Ok q /\
            (q == linear_reference [3; 1; 2]%Q 95)%Q.
Proof.
  destruct (percentile_linear_interpolation
              (sample_world [3; 1; 2]%Q) 1%positive [3; 1; 2]%Q 95)
    as [(q & Hq & _ & Hlin) _].
  - reflexivity.
  - right. split; discriminate.
  - exists q. split; [exact Hq|]. apply Hlin. discriminate.
Defined.

(** C10.  percentile and mean never mutate their input: the caller's
    sequence holds the same elements after the call as before it (the sort
    is done on a private copy), and so does every other object that existed
    before the call. *)
Theorem percentile_mean_preserve_input
    (w : world) (values : loc) (xs : list Q) (pct : Q) :
  mem w !! values = Some (OList xs) ->
  mem (snd (percentile values pct w)) !! values = Some (OList xs) /\
  mem (snd (mean values w)) !! values = Some (OList xs) /\
  (forall l o, mem w !! l = Some o ->
     mem (snd (percentile values pct w)) !! l = Some o /\
     mem (snd (mean values w)) !! l = Some o).
Proof.
  intros Hv.
  rewrite (percentile_run _ _ _ _ Hv), (mean_run _ _ _ Hv). simpl.
  repeat split; intros; now apply with_copy_frame.
Qed.

Lemma percentile_mean_preserve_input_witness :
  mem (snd (percentile 1%positive 50 (sample_world [3; 1; 2]%Q))) !! 1%positive
  = Some (OList [3; 1; 2]%Q).
Proof.
  exact (proj1 (percentile_mean_preserve_input
                  (sample_world [3; 1; 2]%Q) 1%positive [3; 1; 2]%Q 50
                  eq_refl)).
Defined.

End UtilsFacts.

(* ===================================================================== *)
(** * Facts about the scenarios' metrics                                  *)
(* ===================================================================== *)

Module MetricsFacts.
Import PyFacts Utils UtilsFacts Backends Benchmarks Samples.

Lemma getattr_run l d k v w :
  mem w !! l = Some (ODict d) -> dict_get k d = Some v ->
  getattr l k w = (Ok v, w).
Proof.
  intros Hl Hk. unfold getattr, bind, read_dict. now rewrite Hl, Hk.
Qed.

Lemma alloc_run o w :
  alloc o w = (Ok (fresh (dom (mem w))),
               set_mem (<[fresh (dom (mem w)) := o]> (mem w)) w).
Proof. reflexivity. Qed.

Lemma alloc_lookup o w :
  mem (snd (alloc o w)) !! fresh (dom (mem w)) = Some o.
Proof. simpl. apply lookup_insert_eq. Qed.

(** The guarded division of both scenarios: n / elapsed if elapsed else
    float("inf"). *)
Definition throughput (n : Z) (elapsed : Q) : value :=
  if Qeq_bool elapsed 0 then VInf else VFloat (inject_Z n / elapsed).

Lemma guarded_division_run (n : Z) (elapsed : Q) w :
  (if truthy elapsed
   then let* x := of_result (truediv (inject_Z n) elapsed) in ret (VFloat x)
   else ret VInf) w = (Ok (throughput n elapsed), w).
Proof.
  unfold truthy, throughput, truediv.
  destruct (Qeq_bool elapsed 0); reflexivity.
Qed.

Lemma percentile_ok values xs pct w :
  mem w !! values = Some (OList xs) -> (0 <= pct)%Q -> (pct <= 100)%Q ->
  exists q w', percentile values pct w = (Ok q, w') /\
               forall l o, mem w !! l = Some o -> mem w' !! l = Some o.
Proof.
  intros Hv H0 H100.
  destruct (percentile_of_total xs pct H0 H100) as [q Hq].
  rewrite (percentile_run _ _ _ _ Hv), Hq.
  do 2 eexists. split; [reflexivity|]. intros. now apply with_copy_frame.
Qed.

Lemma task_spawn_metrics_run w params latencies tc ps xs elapsed :
  mem w !! params = Some (ODict (TaskSpawnParams tc ps)) ->
  mem w !! latencies = Some (OList xs) ->
  exists l w' d,
    task_spawn_metrics params latencies elapsed w = (Ok l, w') /\
    mem w' !! l = Some (ODict d) /\
    dict_get "tasks_per_sec" d = Some (throughput tc elapsed) /\
    forall l' o, mem w !! l' = Some o -> mem w' !! l' = Some o.
Proof.
  intros Hp Hl. unfold task_spawn_metrics.
  rewrite (bind_run _ _ _ _ _ (getattr_run _ _ "task_count" _ _ Hp eq_refl)).
  rewrite (bind_run _ _ _ _ _ (getattr_run _ _ "payload_sleep" _ _ Hp eq_refl)).
  assert (Hg : (if truthy elapsed
                then let* task_count := as_float (VInt tc) in
                     let* x := of_result (truediv task_count elapsed) in
                     ret (VFloat x)
                else ret VInf) w = (Ok (throughput tc elapsed), w)).
  { unfold truthy, throughput, truediv.
    destruct (Qeq_bool elapsed 0); reflexivity. }
  rewrite (bind_run _ _ _ _ _ Hg).
  destruct (percentile_ok latencies xs 50 w Hl) as (p50 & w1 & H50 & F1);
    [discriminate|discriminate|].
  rewrite (bind_run _ _ _ _ _ H50).
  destruct (percentile_ok latencies xs 95 w1 (F1 _ _ Hl)) as (p95 & w2 & H95 & F2);
    [discriminate|discriminate|].
  rewrite (bind_run _ _ _ _ _ H95).
  rewrite alloc_run.
  do 3 eexists. split; [reflexivity|]. split; [apply lookup_insert_eq|].
  split; [reflexivity|].
  intros l' o Ho. simpl.
  rewrite lookup_insert_ne; [auto|].
  intros Heq. symmetry in Heq. revert Heq. apply fresh_other with o. auto.
Qed.

Lemma io_bound_metrics_run w params op_latencies c o m sd xs elapsed :
  mem w !! params = Some (ODict (IOBoundParams c o m sd)) ->
  mem w !! op_latencies = Some (OList xs) ->
  exists l w' d,
    io_bound_metrics params op_latencies elapsed w = (Ok l, w') /\
    mem w' !! l = Some (ODict d) /\
    dict_get "ops_per_sec" d = Some (throughput (c * o) elapsed) /\
    forall l' ob, mem w !! l' = Some ob -> mem w' !! l' = Some ob.
Proof.
  intros Hp Hl. unfold io_bound_metrics.
  rewrite (bind_run _ _ _ _ _ (getattr_run _ _ "concurrency" _ _ Hp eq_refl)).
  unfold as_int at 1. unfold bind at 1, ret at 1.
  rewrite (bind_run _ _ _ _ _ (getattr_run _ _ "ops_per_worker" _ _ Hp eq_refl)).
  unfold as_int at 1. unfold bind at 1, ret at 1.
  rewrite (bind_run _ _ _ _ _ (getattr_run _ _ "mean_delay_ms" _ _ Hp eq_refl)).
  rewrite (bind_run _ _ _ _ _ (guarded_division_run (c * o) elapsed w)).
  rewrite (bind_run _ _ _ _ _ (mean_run _ _ _ Hl)).
  pose proof (with_copy_frame xs w) as F0.
  destruct (percentile_ok op_latencies xs 95 _ (F0 _ _ Hl)) as (p95 & w1 & H95 & F1);
    [discriminate|discriminate|].
  rewrite (bind_run _ _ _ _ _ H95).
  destruct (percentile_ok op_latencies xs 99 w1 (F1 _ _ (F0 _ _ Hl)))
    as (p99 & w2 & H99 & F2); [discriminate|discriminate|].
  rewrite (bind_run _ _ _ _ _ H99).
  rewrite alloc_run.
  do 3 eexists. split; [reflexivity|]. split; [apply lookup_insert_eq|].
  split; [reflexivity|].
  intros l' ob Ho. simpl.
  rewrite lookup_insert_ne; [auto|].
  intros Heq. symmetry in Heq. revert Heq. apply fresh_other with ob. auto.
Qed.

Lemma tasks_per_sec_run w params tc ps elapsed :
  mem w !! params = Some (ODict (TaskSpawnParams tc ps)) ->
  tasks_per_sec params elapsed w
  = (if Qeq_bool elapsed 0 then Ok VInf
     else if fits_double tc then Ok (VFloat (inject_Z tc / elapsed))
          else Err OverflowError, w).
Proof.
  intros Hp. unfold tasks_per_sec, truthy.
  destruct (Qeq_bool elapsed 0) eqn:E; [reflexivity|].
  change (negb false) with true. cbv iota.
  rewrite (bind_run _ _ _ _ _ (getattr_run _ _ "task_count" _ _ Hp eq_refl)).
  unfold as_int at 1. unfold bind at 1, ret at 1.
  unfold float_of_int, truediv. rewrite E.
  now destruct (fits_double tc).
Qed.

Lemma ops_per_sec_run w params c o m sd elapsed :
  mem w !! params = Some (ODict (IOBoundParams c o m sd)) ->
  ops_per_sec params elapsed w
  = (if Qeq_bool elapsed 0 then Ok VInf
     else if fits_double (c * o) then Ok (VFloat (inject_Z (c * o) / elapsed))
          else Err OverflowError, w).
Proof.
  intros Hp. unfold ops_per_sec, truthy.
  rewrite (bind_run _ _ _ _ _ (getattr_run _ _ "concurrency" _ _ Hp eq_refl)).
  unfold as_int at 1. unfold bind at 1, ret at 1.
  rewrite (bind_run _ _ _ _ _ (getattr_run _ _ "ops_per_worker" _ _ Hp eq_refl)).
  unfold as_int at 1. unfold bind at 1, ret at 1.
  destruct (Qeq_bool elapsed 0) eqn:E; [reflexivity|].
  change (negb false) with true. cbv iota.
  unfold float_of_int, truediv. rewrite E.
  now destruct (fits_double (c * o)).
Qed.




End MetricsFacts.

(* ===================================================================== *)
(** * Facts about backends.py: spawn_many                                 *)
(* ===================================================================== *)

Module SpawnFacts.
Import Backends.

Section Units.
Context {U V : Type}.
Variable code : coroutine (U:=U) (V:=V).
Variable none : V.

#[local] Abbreviation pool := (pool (U:=U) (V:=V)).
#[local] Abbreviation task := (task (U:=U) (V:=V)).

Lemma turn_length i (p : pool) :
  length (tasks (fst (turn code i p))) = length (tasks p).
Proof.
  unfold turn.
  destruct (tasks p !! i) as [[u [|]|o]|]; simpl; try reflexivity.
  - destruct (on_cancel code u (shared p)). simpl. apply length_insert.
  - destruct (resume code u (shared p)) as [[[d u'|v]|e] w]; simpl;
      apply length_insert.
Qed.

(** A turn changes the task it is given and no other. *)
Lemma turn_other i j (p : pool) :
  i <> j -> tasks (fst (turn code i p)) !! j = tasks p !! j.
Proof.
  intros Hij. unfold turn.
  destruct (tasks p !! i) as [[u [|]|o]|]; simpl; try reflexivity.
  - destruct (on_cancel code u (shared p)). simpl.
    now apply list_lookup_insert_ne.
  - destruct (resume code u (shared p)) as [[[d u'|v]|e] w]; simpl;
      now apply list_lookup_insert_ne.
Qed.

(** An ended task stays as it ended. *)
Lemma turn_exited i j (p : pool) o :
  tasks p !! j = Some (Exited o) ->
  tasks (fst (turn code i p)) !! j = Some (Exited o).
Proof.
  intros Hj. destruct (decide (i = j)) as [->|Hij].
  - unfold turn. now rewrite Hj.
  - now rewrite turn_other.
Qed.

Lemma free_run_exited sched (p : pool) j o :
  tasks p !! j = Some (Exited o) ->
  tasks (free_run code sched p) !! j = Some (Exited o).
Proof.
  revert p. induction sched as [|i s IH]; intros p Hj; simpl; [assumption|].
  apply IH. now apply turn_exited.
Qed.

(** The outcome [turn] reports is the one it records in the task. *)
Lemma turn_reports i (p p' : pool) o :
  turn code i p = (p', Some o) -> tasks p' !! i = Some (Exited o).
Proof.
  unfold turn. destruct (tasks p !! i) as [[u [|]|o']|] eqn:E;
    try discriminate.
  - destruct (on_cancel code u (shared p)) as [o' w]. intros [= <- <-].
    simpl. apply list_lookup_insert_eq. now apply lookup_lt_Some in E.
  - destruct (resume code u (shared p)) as [[[d u'|v]|e] w]; intros [= <- <-];
      simpl; apply list_lookup_insert_eq; now apply lookup_lt_Some in E.
Qed.

Lemma turn_silent_live i (p p' : pool) :
  turn code i p = (p', None) ->
  forall j o, tasks p' !! j = Some (Exited o) -> tasks p !! j = Some (Exited o).
Proof.
  unfold turn. destruct (tasks p !! i) as [[u [|]|o']|] eqn:E.
  - destruct (on_cancel code u (shared p)). discriminate.
  - destruct (resume code u (shared p)) as [[[d u'|v]|e] w]; try discriminate.
    intros [= <-] j o. simpl. destruct (decide (i = j)) as [->|Hij].
    + rewrite list_lookup_insert_eq by (now apply lookup_lt_Some in E).
      discriminate.
    + now rewrite list_lookup_insert_ne.
  - now intros [= <-].
  - now intros [= <-].
Qed.

Lemma all_exited_lookup (ts : list task) :
  all_exited ts = true <->
  forall i t, ts !! i = Some t -> exists o, t = Exited o.
Proof.
  unfold all_exited. induction ts as [|t ts IH]; simpl.
  - split; [intros _ i t H; discriminate|reflexivity].
  - rewrite andb_true_iff, IH. split.
    + intros [Ht Hts] [|i] t'; simpl.
      * intros [= <-]. destruct t; [discriminate|eauto].
      * apply Hts.
    + intros H. split.
      * destruct (H 0%nat t eq_refl) as [o ->]. reflexivity.
      * intros i t'. apply (H (S i)).
Qed.

Lemma turn_idle i (p : pool) :
  all_exited (tasks p) = true -> turn code i p = (p, None).
Proof.
  intros Hall. unfold turn.
  destruct (tasks p !! i) as [t|] eqn:E; [|reflexivity].
  destruct (proj1 (all_exited_lookup _) Hall i t E) as [o ->]. reflexivity.
Qed.

Lemma free_run_idle sched (p : pool) :
  all_exited (tasks p) = true -> free_run code sched p = p.
Proof.
  intros Hall. induction sched as [|i s IH]; simpl; [reflexivity|].
  now rewrite turn_idle.
Qed.

Lemma results_of_lookup (ts : list task) vs :
  results_of ts = Some vs ->
  length vs = length ts /\
  forall i, (exists v, vs !! i = Some v /\ ts !! i = Some (Exited (Ok v))) \/
            (vs !! i = None /\ ts !! i = None).
Proof.
  revert vs. induction ts as [|t ts IH]; simpl; intros vs.
  - intros [= <-]. split; [reflexivity|]. intros i. right. now destruct i.
  - destruct t as [|[v|e]]; try discriminate.
    destruct (results_of ts) as [vs'|]; [|discriminate].
    intros [= <-]. destruct (IH vs' eq_refl) as [Hlen Hi]. split.
    + simpl. now rewrite Hlen.
    + intros [|i]; simpl; [left; eauto|apply Hi].
Qed.

Lemma results_of_all_exited (ts : list task) vs :
  results_of ts = Some vs -> all_exited ts = true.
Proof.
  intros H. apply all_exited_lookup. intros i t Ht.
  destruct (proj2 (results_of_lookup _ _ H) i) as [(v & _ & Hv)|[_ Hn]];
    [|congruence].
  rewrite Ht in Hv. injection Hv as ->. eauto.
Qed.

Lemma results_of_no_failure (ts : list task) vs i e :
  results_of ts = Some vs -> ts !! i = Some (Exited (Err e)) -> False.
Proof.
  intros H Hi.
  destruct (proj2 (results_of_lookup _ _ H) i) as [(v & _ & Hv)|[_ Hn]];
    congruence.
Qed.

(** If the units all return under the schedule, [gather] hands back their
    values, having let them run exactly as they would by themselves. *)
Lemma gather_free_run sched (p : pool) vs :
  results_of (tasks (free_run code sched p)) = Some vs ->
  gather code sched p = (Some (Ok vs), free_run code sched p).
Proof.
  revert p. induction sched as [|i s IH]; intros p Hvs; simpl in *.
  - now rewrite Hvs.
  - destruct (results_of (tasks p)) as [rs|] eqn:Hrs.
    + pose proof (results_of_all_exited _ _ Hrs) as Hall.
      rewrite turn_idle in * by assumption. simpl in *.
      rewrite free_run_idle in * by assumption. congruence.
    + destruct (turn code i p) as [p' [[v|e]|]] eqn:Ht; simpl in *;
        try (now apply IH).
      exfalso. eapply results_of_no_failure; [exact Hvs|].
      apply free_run_exited. now apply (turn_reports _ _ _ _ Ht).
Qed.

(** What the runners of a task group have stored so far: the value of
    every unit that has returned, at its index. *)
Definition stored (results : list V) (ts : list task) : Prop :=
  length results = length ts /\
  forall i v, ts !! i = Some (Exited (Ok v)) -> results !! i = Some v.

Lemma stored_complete results (ts : list task) vs :
  stored results ts -> results_of ts = Some vs -> results = vs.
Proof.
  intros [Hlen Hst] Hvs. destruct (results_of_lookup _ _ Hvs) as [Hlen' Hi].
  apply list_eq. intros i.
  destruct (Hi i) as [(v & -> & Hv)|[-> Hn]]; [now apply Hst|].
  apply lookup_ge_None. apply lookup_ge_None in Hn. lia.
Qed.

Lemma join_free_run sched (p : pool) results vs :
  results_of (tasks (free_run code sched p)) = Some vs ->
  stored results (tasks p) ->
  join code (fun _ r => r) spawn_runner_exit None results sched p
  = (Some None, vs, free_run code sched p).
Proof.
  revert p results. induction sched as [|i s IH]; intros p results Hvs Hst;
    simpl in *.
  - rewrite (results_of_all_exited _ _ Hvs).
    now rewrite (stored_complete _ _ _ Hst Hvs).
  - destruct (all_exited (tasks p)) eqn:Hall.
    + rewrite turn_idle in Hvs by assumption. simpl in Hvs.
      rewrite turn_idle by assumption. simpl.
      rewrite free_run_idle in * by assumption.
      now rewrite (stored_complete _ _ _ Hst Hvs).
    + unfold runner_turn.
      replace (if is_live i p then results else results) with results
        by (now destruct (is_live i p)).
      destruct (turn code i p) as [p' [[v|e]|]] eqn:Ht; simpl in *.
      * apply IH; [assumption|].
        pose proof (turn_reports _ _ _ _ Ht) as Hi.
        destruct Hst as [Hlen Hst].
        assert (Hlen' : length (tasks p') = length (tasks p)).
        { change p' with (fst (p', Some (Ok v))). rewrite <- Ht.
          apply turn_length. }
        split; [now rewrite length_insert, Hlen'|].
        intros j v' Hj. destruct (decide (i = j)) as [->|Hij].
        -- rewrite Hi in Hj. injection Hj as <-.
           apply list_lookup_insert_eq. apply lookup_lt_Some in Hi. lia.
        -- rewrite list_lookup_insert_ne by assumption. apply Hst.
           rewrite <- Hj. change p' with (fst (p', Some (Ok v))).
           rewrite <- Ht. symmetry. now apply turn_other.
      * exfalso. eapply results_of_no_failure; [exact Hvs|].
        apply free_run_exited. now apply (turn_reports _ _ _ _ Ht).
      * apply IH; [assumption|].
        destruct Hst as [Hlen Hst].
        split.
        -- rewrite Hlen. change p' with (fst (p', @None (result V))).
           rewrite <- Ht. symmetry. apply turn_length.
        -- intros j v' Hj. apply Hst.
           now apply (turn_silent_live _ _ _ Ht).
Qed.

Lemma length_range (n : Z) : length (range n) = Z.to_nat n.
Proof. apply length_seq. Qed.

Lemma stored_initially (fn : nat -> U) count w :
  stored (replicate (Z.to_nat count) none) (tasks (create_tasks fn count w)).
Proof.
  split.
  - simpl. now rewrite length_replicate, length_map, length_range.
  - intros i v. simpl. rewrite list_lookup_fmap.
    destruct (range count !! i); discriminate.
Qed.

Lemma free_run_length sched (p : pool) :
  length (tasks (free_run code sched p)) = length (tasks p).
Proof.
  revert p. induction sched as [|i s IH]; intros p; simpl; [reflexivity|].
  now rewrite IH, turn_length.
Qed.

(** If the units all return under the schedule, every backend's spawn_many
    returns their values by index and leaves the pool as the units did. *)
Lemma spawn_many_free_run
    (b : backend) (count : Z) (fn : nat -> U) (sched : list nat) (w : world)
    (vs : list V) :
  results_of (tasks (free_run code sched (create_tasks fn count w))) = Some vs ->
  spawn_many code none b count fn sched w
  = (Some (Ok vs), free_run code sched (create_tasks fn count w)).
Proof.
  intros Hvs. set (p0 := create_tasks fn count w) in *.
  destruct b; simpl.
  - unfold AsyncioBackend_spawn_many. now apply gather_free_run.
  - unfold TrioBackend_spawn_many, group_spawn_many. fold p0.
    now rewrite (join_free_run _ _ _ _ Hvs (stored_initially fn count w)).
  - unfold AnyioBackend_spawn_many, group_spawn_many. fold p0.
    now rewrite (join_free_run _ _ _ _ Hvs (stored_initially fn count w)).
Qed.

(** C1.  For every backend and every count n >= 0, whatever the order in
    which the scheduler lets the units run and complete: if the units all
    return, spawn_many(n, fn) returns exactly n results, and the result at
    position i is the value unit i returned. *)
Theorem spawn_many_results_by_index
    (b : backend) (count : Z) (fn : nat -> U) (sched : list nat) (w : world)
    (vs : list V) :
  0 <= count ->
  results_of (tasks (free_run code sched (create_tasks fn count w))) = Some vs ->
  fst (spawn_many code none b count fn sched w) = Some (Ok vs) /\
  Z.of_nat (length vs) = count /\
  forall i, (i < Z.to_nat count)%nat ->
    exists v, vs !! i = Some v /\
      tasks (snd (spawn_many code none b count fn sched w)) !! i
      = Some (Exited (Ok v)).
Proof.
  intros Hcount Hvs.
  rewrite (spawn_many_free_run b count fn sched w vs Hvs).
  set (p0 := create_tasks fn count w) in *. simpl.
  destruct (results_of_lookup _ _ Hvs) as [Hlen Hi].
  assert (Hn : length vs = Z.to_nat count).
  { rewrite Hlen, free_run_length. subst p0. simpl.
    now rewrite length_map, length_range. }
  split; [reflexivity|]. split; [lia|].
  intros i Hlt. destruct (Hi i) as [(v & Hv & Ht)|[Hnone _]]; [eauto|].
  apply lookup_ge_None in Hnone. lia.
Qed.

End Units.

Import Samples.

Lemma spawn_many_results_by_index_witness :
  fst (spawn_many scripted VNone Trio 3 countdown
         [0; 1; 2; 2; 1; 0; 1; 0; 0]%nat empty_world)
  = Some (Ok [VInt 0; VInt 1; VInt 2]).
Proof.
  exact (proj1 (spawn_many_results_by_index scripted VNone Trio 3 countdown
                  [0; 1; 2; 2; 1; 0; 1; 0; 0]%nat empty_world
                  [VInt 0; VInt 1; VInt 2] ltac:(lia) eq_refl)).
Defined.

(** The units of the witness complete in the order 2, 1, 0. *)
Example countdown_completion_order :
  flat_map (fun ev => match ev with Exit i _ => [i] | _ => [] end)
    (trace (snd (spawn_many scripted VNone Trio 3 countdown
                   [0; 1; 2; 2; 1; 0; 1; 0; 0]%nat empty_world)))
  = [2; 1; 0]%nat.
Proof. reflexivity. Qed.

(** C2 (as the code has it).  spawn_many(2, fn) where fn(0) raises at once
    and fn(1) sleeps and returns 1.  Under asyncio the error is surfaced
    while unit 1 is still live: it is left running, never awaited.  Under
    trio and anyio unit 1 is cancelled and awaited before the error is
    surfaced: it ends with CancelledError instead of returning 1.  Neither
    is the policy of waiting for every sibling to finish, and the backends
    do not agree. *)
Theorem spawn_many_failure_policies_differ :
  let run b := spawn_many scripted VNone b 2 one_fails [0; 1; 1]%nat empty_world in
  (fst (run Asyncio) = Some (Err (RuntimeError 7)) /\
   tasks (snd (run Asyncio))
   = [Exited (Err (RuntimeError 7)); Live (1%nat, Ok (VInt 1)) false]) /\
  (fst (run Trio) = Some (Err (RuntimeError 7)) /\
   tasks (snd (run Trio))
   = [Exited (Err (RuntimeError 7)); Exited (Err CancelledError)]) /\
  (fst (run Anyio) = Some (Err (RuntimeError 7)) /\
   tasks (snd (run Anyio))
   = [Exited (Err (RuntimeError 7)); Exited (Err CancelledError)]) /\
  tasks (free_run scripted [0; 1; 1]%nat (create_tasks one_fails 2 empty_world))
  = [Exited (Err (RuntimeError 7)); Exited (Ok (VInt 1))].
Proof. repeat split; reflexivity. Qed.

End SpawnFacts.

(* ===================================================================== *)
(** * Facts about backends.py: cancellation_storm                         *)
(* ===================================================================== *)

Module StormFacts.
Import Backends SpawnFacts.

Section Units.
Context {U V : Type}.
Variable code : coroutine (U:=U) (V:=V).

#[local] Abbreviation pool := (pool (U:=U) (V:=V)).
#[local] Abbreviation task := (task (U:=U) (V:=V)).
#[local] Abbreviation event := (event (V:=V)).

(** ** The trace of a storm *)

(** Events of the units themselves: neither a launch nor a signal. *)
Definition quiet (evs : list event) : Prop :=
  Forall (fun ev => is_Signal ev = false /\ is_Launch ev = false) evs.

(** [p'] comes after [p] and only the units acted in between. *)
Definition grows (p p' : pool) : Prop :=
  exists evs, trace p' = trace p ++ evs /\ quiet evs.

Lemma grows_refl p : grows p p.
Proof. exists []. split; [now rewrite app_nil_r|constructor]. Qed.

Lemma grows_same p p' : trace p' = trace p -> grows p p'.
Proof. intros H. exists []. split; [now rewrite app_nil_r|constructor]. Qed.

Lemma grows_trans p1 p2 p3 : grows p1 p2 -> grows p2 p3 -> grows p1 p3.
Proof.
  intros (e1 & H1 & Q1) (e2 & H2 & Q2). exists (e1 ++ e2). split.
  - now rewrite H2, H1, app_assoc.
  - now apply Forall_app.
Qed.

Lemma turn_grows i (p : pool) : grows p (fst (turn code i p)).
Proof.
  unfold turn.
  destruct (tasks p !! i) as [[u [|]|o]|]; simpl; try apply grows_refl.
  - destruct (on_cancel code u (shared p)) as [o w]. simpl.
    eexists. split; [reflexivity|]. now repeat constructor.
  - destruct (resume code u (shared p)) as [[[d u'|v]|e] w]; simpl;
      (eexists; split; [reflexivity|]; now repeat constructor).
Qed.

Lemma free_run_grows sched (p : pool) : grows p (free_run code sched p).
Proof.
  revert p. induction sched as [|i s IH]; intros p; simpl; [apply grows_refl|].
  eapply grows_trans; [apply turn_grows|apply IH].
Qed.

Lemma gather_return_exceptions_grows sched (p : pool) :
  grows p (snd (gather_return_exceptions code sched p)).
Proof.
  revert p. induction sched as [|i s IH]; intros p; simpl.
  - destruct (outcomes_of (tasks p)); apply grows_refl.
  - destruct (outcomes_of (tasks p)); simpl; [apply grows_refl|].
    eapply grows_trans; [apply turn_grows|apply IH].
Qed.

Lemma abort_grows (p : pool) : grows p (abort p).
Proof. now apply grows_same. Qed.

Lemma in_pool_grows {A} (m : M A) (p : pool) : grows p (snd (in_pool m p)).
Proof.
  unfold in_pool. destruct (m (shared p)). now apply grows_same.
Qed.

Lemma storm_return_grows c e t (p : pool) :
  grows p (snd (storm_return c e t p)).
Proof.
  unfold storm_return.
  pose proof (in_pool_grows perf_counter p) as H1.
  destruct (in_pool perf_counter p) as [[t1|err] p1]; [|exact H1].
  pose proof (in_pool_grows
                (alloc (ODict (storm_dict c e (t1 - t)))) p1) as H2.
  destruct (in_pool (alloc _) p1) as [r p2].
  eapply grows_trans; [exact H1|exact H2].
Qed.

Section Nursery.
Context {R : Type}.
Variable on_turn : nat -> R -> R.
Variable on_exit : nat -> result V -> R -> R.

Lemma runner_turn_grows i r (p : pool) :
  grows p (snd (fst (runner_turn code on_turn on_exit i r p))).
Proof.
  unfold runner_turn. pose proof (turn_grows i p) as H.
  destruct (turn code i p) as [p' [o|]]; exact H.
Qed.

Lemma during_grows sched r (p : pool) :
  grows p (snd (fst (during code on_turn on_exit r sched p))).
Proof.
  revert r p. induction sched as [|i s IH]; intros r p; simpl;
    [apply grows_refl|].
  pose proof (runner_turn_grows i r p) as H.
  destruct (runner_turn code on_turn on_exit i r p) as [[r' p'] [e|]];
    simpl in *.
  - eapply grows_trans; [exact H|apply abort_grows].
  - eapply grows_trans; [exact H|apply IH].
Qed.

Lemma join_grows sched failed r (p : pool) :
  grows p (snd (join code on_turn on_exit failed r sched p)).
Proof.
  revert failed r p. induction sched as [|i s IH]; intros failed r p; simpl.
  - destruct (all_exited (tasks p)); apply grows_refl.
  - destruct (all_exited (tasks p)); [apply grows_refl|].
    pose proof (runner_turn_grows i r p) as H.
    destruct (runner_turn code on_turn on_exit i r p) as [[r' p'] [e|]];
      simpl in *.
    + destruct failed.
      * eapply grows_trans; [exact H|apply IH].
      * eapply grows_trans; [exact H|].
        eapply grows_trans; [apply abort_grows|apply IH].
    + eapply grows_trans; [exact H|apply IH].
Qed.

(** A property of the runners' bookkeeping that their code maintains holds
    throughout. *)
Lemma runner_turn_preserves (Inv : R -> Prop) i r (p : pool) :
  (forall i r, Inv r -> Inv (on_turn i r)) ->
  (forall i o r, Inv r -> Inv (on_exit i o r)) ->
  Inv r -> Inv (fst (fst (runner_turn code on_turn on_exit i r p))).
Proof.
  intros Hturn Hexit Hr. unfold runner_turn.
  assert (H1 : Inv (if is_live i p then on_turn i r else r))
    by (destruct (is_live i p); auto).
  destruct (turn code i p) as [p' [o|]]; simpl; auto.
Qed.

Lemma during_preserves (Inv : R -> Prop) sched r (p : pool) :
  (forall i r, Inv r -> Inv (on_turn i r)) ->
  (forall i o r, Inv r -> Inv (on_exit i o r)) ->
  Inv r -> Inv (fst (fst (during code on_turn on_exit r sched p))).
Proof.
  intros Hturn Hexit. revert r p.
  induction sched as [|i s IH]; intros r p Hr; simpl; [assumption|].
  pose proof (runner_turn_preserves Inv i r p Hturn Hexit Hr) as H.
  destruct (runner_turn code on_turn on_exit i r p) as [[r' p'] [e|]];
    simpl in *; [assumption|now apply IH].
Qed.
End Nursery.

(** The signal loop: each live target is signalled, in order, and nothing
    else happens. *)
Lemma cancel_is_live i j (p : pool) :
  is_live j (cancel i p) = is_live j p.
Proof.
  unfold cancel, is_live.
  destruct (tasks p !! i) as [[u c|o]|] eqn:E; try reflexivity. simpl.
  destruct (decide (i = j)) as [->|Hij].
  - rewrite list_lookup_insert_eq by (now apply lookup_lt_Some in E).
    now rewrite E.
  - now rewrite list_lookup_insert_ne.
Qed.

Lemma cancel_trace i (p : pool) :
  trace (cancel i p) = trace p ++ (if is_live i p then [Signal i] else []).
Proof.
  unfold cancel, is_live.
  destruct (tasks p !! i) as [[u c|o]|]; simpl; now rewrite ?app_nil_r.
Qed.

Lemma cancel_all_trace targets (p : pool) :
  trace (fold_left (fun q i => cancel i q) targets p)
  = trace p ++ map Signal (List.filter (fun i => is_live i p) targets).
Proof.
  revert p. induction targets as [|i ts IH]; intros p; simpl.
  - now rewrite app_nil_r.
  - rewrite IH, cancel_trace.
    rewrite (List.filter_ext _ (fun j => is_live j p))
      by (intros j; apply cancel_is_live).
    destruct (is_live i p); simpl; now rewrite <- ?app_assoc, ?app_nil_r.
Qed.

Lemma signals_app (tr1 tr2 : list event) :
  signals (tr1 ++ tr2) = signals tr1 ++ signals tr2.
Proof. unfold signals. now rewrite flat_map_app. Qed.

Lemma signals_quiet (evs : list event) : quiet evs -> signals evs = [].
Proof.
  induction 1 as [|ev evs [Hs _] _ IH]; [reflexivity|].
  destruct ev; simpl in *; try assumption. discriminate.
Qed.

Lemma quiet_no_launch (evs : list event) :
  quiet evs -> Forall (fun ev => is_Launch ev = false) evs.
Proof.
  intros H. induction H as [|ev evs [_ Hl] _ IH]; constructor; assumption.
Qed.

Lemma signals_launches (ids : list nat) :
  signals (map (Launch (V:=V)) ids) = [].
Proof. induction ids as [|i ids IH]; [reflexivity|exact IH]. Qed.

Lemma created_trace (fn : nat -> U) n w (p : pool) :
  grows (create_tasks fn n w) p -> exists evs,
    trace p = map Launch (range n) ++ evs /\ quiet evs.
Proof. intros (evs & H & Q). now exists evs. Qed.

(** A storm that never reached its signal. *)
Lemma unsignalled_once (fn : nat -> U) n w (p : pool) :
  grows (create_tasks fn n w) p -> signalled_once (trace p).
Proof.
  intros (evs & H & Q). exists (trace p), [], [].
  repeat split; try constructor.
  - now rewrite app_nil_r.
  - rewrite H, signals_app. simpl. now rewrite signals_launches, signals_quiet.
Qed.

(** A storm that sent its signal to [targets] and went on. *)
Lemma signalled_once_after (fn : nat -> U) n w (p1 p2 p3 : pool) targets :
  grows (create_tasks fn n w) p1 ->
  NoDup targets ->
  p2 = fold_left (fun q i => cancel i q) targets p1 ->
  grows p2 p3 ->
  signalled_once (trace p3).
Proof.
  intros (evs1 & H1 & Q1) Hnd -> (evs3 & H3 & Q3).
  exists (trace p1), (List.filter (fun i => is_live i p1) targets), evs3.
  split; [|split; [|split; [|split]]].
  - now rewrite H3, cancel_all_trace, app_assoc.
  - apply NoDup_ListNoDup, List.NoDup_filter. now apply NoDup_ListNoDup.
  - rewrite H1, signals_app. simpl. now rewrite signals_launches, signals_quiet.
  - now apply signals_quiet.
  - now apply quiet_no_launch.
Qed.

(** ** The signal is sent once *)

Lemma storm_runner_exit_scopes i (o : result V) t :
  scopes (storm_runner_exit i o t) = scopes t.
Proof.
  unfold storm_runner_exit. destruct o as [v|e]; [reflexivity|].
  destruct (is_CancelledError e); [reflexivity|].
  now destruct (is_Exception e).
Qed.

Lemma trio_runner_turn_NoDup i t :
  NoDup (scopes t) -> NoDup (scopes (trio_runner_turn i t)).
Proof.
  intros H. unfold trio_runner_turn.
  destruct (bool_decide (i ∈ scopes t)) eqn:E; [assumption|]. simpl.
  apply bool_decide_eq_false in E.
  apply NoDup_app. split; [assumption|]. split.
  - intros j Hj Hj'. apply list_elem_of_singleton in Hj'. now subst.
  - apply NoDup_singleton.
Qed.

Lemma NoDup_range n : NoDup (range n).
Proof. apply NoDup_ListNoDup, List.seq_NoDup. Qed.

Lemma group_storm_signalled_once
    (on_turn : nat -> tally -> tally) (targets : tally -> list nat)
    (sleeping : M unit) n (fn : nat -> U) s w :
  NoDup (targets (Tally 0 0 [])) ->
  (forall i t, NoDup (targets t) -> NoDup (targets (on_turn i t))) ->
  (forall i (o : result V) t, NoDup (targets t) ->
     NoDup (targets (storm_runner_exit i o t))) ->
  signalled_once
    (trace (snd (group_cancellation_storm code on_turn targets sleeping
                   n fn s w))).
Proof.
  intros H0 Hturn Hexit. unfold group_cancellation_storm.
  set (p0 := create_tasks fn n w).
  assert (Hfail : forall e t p, grows p0 p ->
            signalled_once
              (trace (snd (match join code on_turn storm_runner_exit (Some e) t
                                   (after_signal s) p with
                           | (None, _, p') => (@None (result loc), p')
                           | (Some _, _, p') => (Some (Err e), p')
                           end)))).
  { intros e t p Hp.
    pose proof (join_grows on_turn storm_runner_exit (after_signal s)
                  (Some e) t p) as Hj.
    destruct (join code on_turn storm_runner_exit (Some e) t (after_signal s) p)
      as [[[f|] t'] p']; simpl in *;
      (apply (unsignalled_once fn n w); eapply grows_trans; eassumption). }
  pose proof (in_pool_grows sleeping p0) as Hs.
  destruct (in_pool sleeping p0) as [[[]|e] p1]; simpl in Hs.
  2:{ apply Hfail. eapply grows_trans; [exact Hs|apply abort_grows]. }
  pose proof (during_grows on_turn storm_runner_exit (before_signal s)
                (Tally 0 0 []) p1) as Hd.
  pose proof (during_preserves on_turn storm_runner_exit
                (fun t => NoDup (targets t)) (before_signal s)
                (Tally 0 0 []) p1 Hturn Hexit H0) as Hnd.
  destruct (during code on_turn storm_runner_exit (Tally 0 0 [])
              (before_signal s) p1) as [[t1 p2] [e|]]; simpl in Hd, Hnd.
  { apply Hfail. eapply grows_trans; eassumption. }
  pose proof (in_pool_grows perf_counter p2) as Hc.
  destruct (in_pool perf_counter p2) as [[cancel_start|e] p3]; simpl in Hc.
  2:{ apply Hfail. eapply grows_trans; [exact Hs|].
      eapply grows_trans; [exact Hd|].
      eapply grows_trans; [exact Hc|apply abort_grows]. }
  assert (H3 : grows p0 p3).
  { eapply grows_trans; [exact Hs|]. eapply grows_trans; eassumption. }
  set (p4 := fold_left (fun q i => cancel i q) (targets t1) p3).
  pose proof (join_grows on_turn storm_runner_exit (after_signal s)
                None t1 p4) as Hj.
  destruct (join code on_turn storm_runner_exit None t1 (after_signal s) p4)
    as [[[[e|]|] t2] p5]; simpl in Hj; cbv beta iota.
  - now apply (signalled_once_after fn n w p3 p4 p5 (targets t1)).
  - apply (signalled_once_after fn n w p3 p4 _ (targets t1));
      [assumption|assumption|reflexivity|].
    eapply grows_trans; [exact Hj|apply storm_return_grows].
  - now apply (signalled_once_after fn n w p3 p4 p5 (targets t1)).
Qed.

(** In every backend's cancellation_storm the cancellation signal is
    issued at most once, in one uninterrupted block: no unit acts between
    two signals, no unit receives the signal twice, and no unit is launched
    after the signal has been issued. *)
Theorem storm_signal_issued_once
    (b : backend) (task_count : Z) (cancel_after : Q) (task_fn : nat -> U)
    (s : storm_schedule) (w : world) :
  signalled_once
    (trace (snd (cancellation_storm code b task_count cancel_after task_fn s w))).
Proof.
  destruct b; simpl.
  - unfold AsyncioBackend_cancellation_storm.
    set (p0 := create_tasks task_fn task_count w).
    pose proof (free_run_grows (before_signal s) p0) as H1.
    set (p1 := free_run code (before_signal s) p0) in *.
    pose proof (in_pool_grows perf_counter p1) as H2.
    destruct (in_pool perf_counter p1) as [[cancel_start|e] p2]; simpl in H2.
    2:{ apply (unsignalled_once task_fn task_count w).
        eapply grows_trans; eassumption. }
    set (p3 := fold_left (fun q i => cancel i q) (range task_count) p2).
    pose proof (gather_return_exceptions_grows (after_signal s) p3) as H4.
    assert (H02 : grows p0 p2) by (eapply grows_trans; eassumption).
    destruct (gather_return_exceptions code (after_signal s) p3)
      as [[results|] p4]; simpl in H4; cbv beta iota.
    + apply (signalled_once_after task_fn task_count w p2 p3 _
               (range task_count));
        [assumption|apply NoDup_range|reflexivity|].
      eapply grows_trans; [exact H4|apply storm_return_grows].
    + apply (signalled_once_after task_fn task_count w p2 p3 p4
               (range task_count)); auto using NoDup_range.
  - unfold TrioBackend_cancellation_storm.
    apply group_storm_signalled_once.
    + apply NoDup_nil_2.
    + apply trio_runner_turn_NoDup.
    + intros i o t. now rewrite storm_runner_exit_scopes.
  - unfold AnyioBackend_cancellation_storm.
    apply group_storm_signalled_once; intros; apply NoDup_range.
Qed.

(** ** Units that only the signal can end *)

(** The tasks of such a storm: live, or ended by the cancellation. *)
Definition storm_tasks (ts : list task) : Prop :=
  forall i t, ts !! i = Some t ->
    (exists u c, t = Live u c) \/ t = Exited (Err CancelledError).

(** All live and unsignalled: the storm before its signal. *)
Definition all_running (ts : list task) : Prop :=
  forall i t, ts !! i = Some t -> exists u, t = Live u false.

(** Every live task has been signalled and has a turn left in [sched]. *)
Definition covered (sched : list nat) (ts : list task) : Prop :=
  forall i u c, ts !! i = Some (Live u c) -> c = true /\ In i sched.

Definition exited_count (ts : list task) : nat :=
  length (List.filter is_exited ts).

Lemma all_running_storm_tasks ts : all_running ts -> storm_tasks ts.
Proof. intros H i t Ht. destruct (H i t Ht) as [u ->]. left. eauto. Qed.

Lemma exited_count_exit (ts : list task) i u c o :
  ts !! i = Some (Live u c) ->
  exited_count (<[i := Exited o]> ts) = S (exited_count ts).
Proof.
  unfold exited_count. revert i. induction ts as [|t ts IH]; intros [|i] H;
    simpl in *; try discriminate.
  - injection H as ->. reflexivity.
  - destruct (is_exited t); simpl; now rewrite (IH i H).
Qed.

Lemma exited_count_live (ts : list task) i u c u' c' :
  ts !! i = Some (Live u c) ->
  exited_count (<[i := Live u' c']> ts) = exited_count ts.
Proof.
  unfold exited_count. revert i. induction ts as [|t ts IH]; intros [|i] H;
    simpl in *; try discriminate.
  - injection H as ->. reflexivity.
  - destruct (is_exited t); simpl; now rewrite (IH i H).
Qed.

Lemma exited_count_all (ts : list task) :
  all_exited ts = true -> exited_count ts = length ts.
Proof.
  unfold exited_count, all_exited. induction ts as [|t ts IH]; simpl;
    [reflexivity|].
  intros [Ht Hts]%andb_true_iff. rewrite Ht. simpl. now rewrite IH.
Qed.

Lemma exited_count_running (ts : list task) :
  all_running ts -> exited_count ts = 0%nat.
Proof.
  unfold exited_count. induction ts as [|t ts IH]; intros H; [reflexivity|].
  destruct (H 0%nat t eq_refl) as [u ->]. simpl.
  apply IH. intros i t' Ht'. apply (H (S i) t' Ht').
Qed.

(** What a turn does in such a storm. *)
Lemma turn_running i (p : pool) u :
  only_cancellable code -> tasks p !! i = Some (Live u false) ->
  exists d u' w',
    turn code i p
    = (Pool (<[i := Live u' false]> (tasks p)) w' (trace p ++ [Slept i d]), None).
Proof.
  intros [Hres _] Hi. unfold turn. rewrite Hi.
  destruct (Hres u (shared p)) as (d & u' & w' & ->). eauto.
Qed.

Lemma turn_cancelled i (p : pool) u :
  only_cancellable code -> tasks p !! i = Some (Live u true) ->
  exists w',
    turn code i p
    = (exit_task i (Err CancelledError) w' p, Some (Err CancelledError)).
Proof.
  intros [_ Hcan] Hi. unfold turn. rewrite Hi.
  destruct (Hcan u (shared p)) as (w' & ->). eauto.
Qed.

Lemma turn_not_live i (p : pool) :
  is_live i p = false -> turn code i p = (p, None).
Proof.
  unfold is_live, turn. destruct (tasks p !! i) as [[u c|o]|];
    [discriminate|reflexivity|reflexivity].
Qed.

Lemma insert_storm_tasks (ts : list task) i t :
  storm_tasks ts ->
  (exists u c, t = Live u c) \/ t = Exited (Err CancelledError) ->
  storm_tasks (<[i := t]> ts).
Proof.
  intros H Ht j t' Hj. destruct (decide (i = j)) as [->|Hij].
  - destruct (decide (j < length ts)%nat) as [Hlt|Hge].
    + rewrite list_lookup_insert_eq in Hj by assumption. now injection Hj as <-.
    + rewrite list_insert_ge in Hj by lia. eauto.
  - rewrite list_lookup_insert_ne in Hj by assumption. eauto.
Qed.

(** One turn in such a storm: what becomes of the tasks, and which outcome
    is reported. *)
Lemma turn_storm i (p : pool) :
  only_cancellable code -> storm_tasks (tasks p) ->
  storm_tasks (tasks (fst (turn code i p))) /\
  length (tasks (fst (turn code i p))) = length (tasks p) /\
  ((snd (turn code i p) = None /\
    exited_count (tasks (fst (turn code i p))) = exited_count (tasks p)) \/
   (snd (turn code i p) = Some (Err CancelledError) /\
    exited_count (tasks (fst (turn code i p))) = S (exited_count (tasks p)))).
Proof.
  intros Hoc Hst. split; [|split; [apply turn_length|]].
  - destruct (tasks p !! i) as [[u [|]|o]|] eqn:E.
    + destruct (turn_cancelled i p u Hoc E) as (w' & ->). simpl.
      apply insert_storm_tasks; auto.
    + destruct (turn_running i p u Hoc E) as (d & u' & w' & ->). simpl.
      apply insert_storm_tasks; eauto.
    + rewrite turn_not_live; [assumption|]. unfold is_live. now rewrite E.
    + rewrite turn_not_live; [assumption|]. unfold is_live. now rewrite E.
  - destruct (tasks p !! i) as [[u [|]|o]|] eqn:E.
    + destruct (turn_cancelled i p u Hoc E) as (w' & ->). simpl. right.
      split; [reflexivity|]. now apply exited_count_exit with u true.
    + destruct (turn_running i p u Hoc E) as (d & u' & w' & ->). simpl. left.
      split; [reflexivity|]. now apply exited_count_live with u false.
    + rewrite turn_not_live; [auto|]. unfold is_live. now rewrite E.
    + rewrite turn_not_live; [auto|]. unfold is_live. now rewrite E.
Qed.

(** Before the signal nothing ends. *)
Lemma turn_all_running i (p : pool) :
  only_cancellable code -> all_running (tasks p) ->
  all_running (tasks (fst (turn code i p))) /\ snd (turn code i p) = None.
Proof.
  intros Hoc Hrun.
  destruct (tasks p !! i) as [t|] eqn:E.
  - destruct (Hrun i t E) as [u ->].
    destruct (turn_running i p u Hoc E) as (d & u' & w' & ->). simpl.
    split; [|reflexivity]. intros j t' Hj.
    destruct (decide (i = j)) as [->|Hij].
    + rewrite list_lookup_insert_eq in Hj by (now apply lookup_lt_Some in E).
      injection Hj as <-. eauto.
    + rewrite list_lookup_insert_ne in Hj by assumption. eauto.
  - rewrite turn_not_live; [auto|]. unfold is_live. now rewrite E.
Qed.

Lemma free_run_all_running sched (p : pool) :
  only_cancellable code -> all_running (tasks p) ->
  all_running (tasks (free_run code sched p)).
Proof.
  intros Hoc. revert p. induction sched as [|i s IH]; intros p Hrun; simpl;
    [assumption|].
  apply IH. now apply turn_all_running.
Qed.

Lemma created_all_running (fn : nat -> U) n w :
  all_running (tasks (create_tasks (V:=V) fn n w)).
Proof.
  intros i t. simpl. rewrite list_lookup_fmap.
  destruct (range n !! i); simpl; [|discriminate]. intros [= <-]. eauto.
Qed.

Lemma created_length (fn : nat -> U) n w :
  length (tasks (create_tasks (V:=V) fn n w)) = Z.to_nat n.
Proof. simpl. now rewrite length_map, length_range. Qed.

(** The signal loop on the tasks. *)
Lemma cancel_tasks i j (p : pool) :
  tasks (cancel i p) !! j
  = match tasks p !! j with
    | Some (Live u c) => Some (Live u (c || bool_decide (i = j)))
    | other => other
    end.
Proof.
  unfold cancel. destruct (tasks p !! i) as [[u c|o]|] eqn:E; simpl.
  - destruct (decide (i = j)) as [->|Hij].
    + rewrite list_lookup_insert_eq by (now apply lookup_lt_Some in E).
      rewrite E, bool_decide_eq_true_2 by reflexivity. now rewrite orb_true_r.
    + rewrite list_lookup_insert_ne by assumption.
      destruct (tasks p !! j) as [[u' c'|o']|]; try reflexivity.
      rewrite bool_decide_eq_false_2 by assumption. now rewrite orb_false_r.
  - destruct (tasks p !! j) as [[u' c'|o']|] eqn:E'; try reflexivity.
    rewrite bool_decide_eq_false_2 by congruence. now rewrite orb_false_r.
  - destruct (tasks p !! j) as [[u' c'|o']|] eqn:E'; try reflexivity.
    rewrite bool_decide_eq_false_2 by congruence. now rewrite orb_false_r.
Qed.

Lemma cancel_all_tasks targets j (p : pool) :
  tasks (fold_left (fun q i => cancel i q) targets p) !! j
  = match tasks p !! j with
    | Some (Live u c) => Some (Live u (c || bool_decide (j ∈ targets)))
    | other => other
    end.
Proof.
  revert p. induction targets as [|i ts IH]; intros p; simpl.
  - destruct (tasks p !! j) as [[u c|o]|]; try reflexivity.
    do 2 f_equal. destruct c; [reflexivity|]. cbn.
    first [reflexivity|symmetry; apply bool_decide_eq_false_2, not_elem_of_nil].
  - rewrite IH, cancel_tasks.
    destruct (tasks p !! j) as [[u c|o]|]; try reflexivity.
    f_equal. f_equal. rewrite <- orb_assoc. f_equal.
    destruct (decide (i = j)) as [->|Hij].
    + rewrite (bool_decide_eq_true_2 (j = j)) by reflexivity.
      rewrite (bool_decide_eq_true_2 (j ∈ j :: ts)) by apply list_elem_of_here.
      reflexivity.
    + rewrite (bool_decide_eq_false_2 (i = j)) by assumption. simpl.
      apply bool_decide_ext. rewrite elem_of_cons. intuition congruence.
Qed.

Lemma cancel_all_length targets (p : pool) :
  length (tasks (fold_left (fun q i => cancel i q) targets p)) = length (tasks p).
Proof.
  revert p. induction targets as [|i ts IH]; intros p; simpl; [reflexivity|].
  rewrite IH. unfold cancel.
  destruct (tasks p !! i) as [[u c|o]|]; simpl; [apply length_insert|..];
    reflexivity.
Qed.

Lemma cancel_all_shared targets (p : pool) :
  shared (fold_left (fun q i => cancel i q) targets p) = shared p.
Proof.
  revert p. induction targets as [|i ts IH]; intros p; simpl; [reflexivity|].
  rewrite IH. unfold cancel. now destruct (tasks p !! i) as [[u c|o]|].
Qed.

(** *** Waiting for the units to settle *)

Lemma outcomes_of_storm (ts : list task) os :
  storm_tasks ts -> outcomes_of ts = Some os ->
  os = replicate (length ts) (Err CancelledError).
Proof.
  revert os. induction ts as [|t ts IH]; intros os Hst; simpl.
  - now intros [= <-].
  - destruct t as [u c|o]; [discriminate|].
    destruct (outcomes_of ts) as [os'|] eqn:E; [|discriminate].
    intros [= <-].
    destruct (Hst 0%nat _ eq_refl) as [(u & c & Hl)|He]; [discriminate|].
    injection He as ->. f_equal. apply IH; [|reflexivity].
    intros i t Ht. apply (Hst (S i) t Ht).
Qed.

Lemma outcomes_of_waiting (ts : list task) :
  outcomes_of ts = None -> exists i u c, ts !! i = Some (Live u c).
Proof.
  induction ts as [|t ts IH]; simpl; [discriminate|].
  destruct t as [u c|o]; [intros _; exists 0%nat; eauto|].
  destruct (outcomes_of ts); [discriminate|]. intros _.
  destruct (IH eq_refl) as (i & u & c & H). exists (S i). eauto.
Qed.

Lemma all_exited_waiting (ts : list task) :
  all_exited ts = false -> exists i u c, ts !! i = Some (Live u c).
Proof.
  unfold all_exited. induction ts as [|t ts IH]; simpl; [discriminate|].
  destruct t as [u c|o]; [intros _; exists 0%nat; eauto|]. simpl.
  intros H. destruct (IH H) as (i & u & c & Hi). exists (S i). eauto.
Qed.

Lemma covered_step i sched (p : pool) :
  only_cancellable code -> covered (i :: sched) (tasks p) ->
  covered sched (tasks (fst (turn code i p))).
Proof.
  intros Hoc Hcov j u c Hj.
  destruct (decide (i = j)) as [->|Hij].
  - exfalso. destruct (tasks p !! j) as [[u0 c0|o]|] eqn:E.
    + destruct (Hcov j u0 c0 E) as [-> _].
      destruct (turn_cancelled j p u0 Hoc E) as (w' & Ht).
      rewrite Ht in Hj. simpl in Hj.
      rewrite list_lookup_insert_eq in Hj by (now apply lookup_lt_Some in E).
      discriminate.
    + rewrite (turn_exited code j j p o E) in Hj. discriminate.
    + rewrite turn_not_live in Hj by (unfold is_live; now rewrite E).
      simpl in Hj. congruence.
  - rewrite turn_other in Hj by assumption.
    destruct (Hcov j u c Hj) as [-> [Heq|Hin]]; [congruence|auto].
Qed.

Lemma gather_return_exceptions_settled sched (p p' : pool) os :
  only_cancellable code -> storm_tasks (tasks p) ->
  gather_return_exceptions code sched p = (Some os, p') ->
  os = replicate (length (tasks p)) (Err CancelledError).
Proof.
  intros Hoc. revert p. induction sched as [|i s IH]; intros p Hst; simpl.
  - destruct (outcomes_of (tasks p)) eqn:E; [|discriminate].
    intros [= <- <-]. now apply outcomes_of_storm.
  - destruct (outcomes_of (tasks p)) eqn:E.
    + intros [= <- <-]. now apply outcomes_of_storm.
    + intros H. destruct (turn_storm i p Hoc Hst) as (Hst' & Hlen & _).
      rewrite <- Hlen. now apply IH.
Qed.

Lemma gather_return_exceptions_settles sched (p : pool) :
  only_cancellable code -> covered sched (tasks p) ->
  exists os p', gather_return_exceptions code sched p = (Some os, p').
Proof.
  intros Hoc. revert p. induction sched as [|i s IH]; intros p Hcov; simpl.
  - destruct (outcomes_of (tasks p)) eqn:E; [eauto|].
    destruct (outcomes_of_waiting _ E) as (i & u & c & Hi).
    now destruct (Hcov i u c Hi) as [_ []].
  - destruct (outcomes_of (tasks p)) eqn:E; [eauto|].
    apply IH. now apply covered_step.
Qed.

Lemma count_cancelled_replicate n :
  count_true (isinstance_CancelledError (V:=V))
    (replicate n (Err CancelledError)) = Z.of_nat n /\
  count_true (isinstance_other_error (V:=V))
    (replicate n (Err CancelledError)) = 0.
Proof.
  unfold count_true. induction n as [|n [IH1 IH2]]; simpl; [split; reflexivity|].
  split; [lia|assumption].
Qed.

Lemma storm_return_ok c e t (p : pool) :
  exists l p' settle,
    storm_return c e t p = (Some (Ok l), p') /\
    mem (shared p') !! l = Some (ODict (storm_dict c e settle)).
Proof.
  unfold storm_return, in_pool, perf_counter, alloc. simpl.
  do 3 eexists. split; [reflexivity|]. simpl. apply lookup_insert_eq.
Qed.

(** *** The runners of the task-group storms *)

Section Runner.
Variable on_turn : nat -> tally -> tally.
Hypothesis on_turn_counters : forall i t,
  cancelled (on_turn i t) = cancelled t /\
  other_errors (on_turn i t) = other_errors t.

Lemma runner_turn_storm i t (p : pool) :
  only_cancellable code -> storm_tasks (tasks p) ->
  exists t',
    runner_turn code on_turn storm_runner_exit i t p
    = (t', fst (turn code i p), None) /\
    other_errors t' = other_errors t /\
    cancelled t' - Z.of_nat (exited_count (tasks (fst (turn code i p))))
    = cancelled t - Z.of_nat (exited_count (tasks p)).
Proof.
  intros Hoc Hst. unfold runner_turn.
  set (t1 := if is_live i p then on_turn i t else t).
  assert (H1 : cancelled t1 = cancelled t /\ other_errors t1 = other_errors t).
  { subst t1. destruct (is_live i p); [apply on_turn_counters|auto]. }
  destruct H1 as [Hc He].
  destruct (turn_storm i p Hoc Hst) as (_ & _ & [[Hev Hn]|[Hev Hn]]);
    destruct (turn code i p) as [p' ev]; simpl in *; subst ev.
  - exists t1. repeat split; [assumption|]. rewrite Hn. lia.
  - eexists. split; [reflexivity|]. simpl. split; [assumption|].
    rewrite Hn. lia.
Qed.

Lemma during_storm sched t (p : pool) :
  only_cancellable code -> all_running (tasks p) ->
  exists t' p',
    during code on_turn storm_runner_exit t sched p = (t', p', None) /\
    all_running (tasks p') /\ length (tasks p') = length (tasks p) /\
    cancelled t' = cancelled t /\ other_errors t' = other_errors t.
Proof.
  intros Hoc. revert t p. induction sched as [|i s IH]; intros t p Hrun; simpl.
  - eauto 10.
  - destruct (runner_turn_storm i t p Hoc (all_running_storm_tasks _ Hrun))
      as (t1 & -> & He & Hc).
    destruct (turn_all_running i p Hoc Hrun) as [Hrun' _].
    destruct (IH t1 _ Hrun') as (t' & p' & -> & Hr & Hlen & Hc' & He').
    exists t', p'. split; [reflexivity|]. split; [assumption|].
    rewrite (exited_count_running _ Hrun), (exited_count_running _ Hrun') in Hc.
    rewrite Hlen, turn_length. repeat split; lia.
Qed.

Lemma join_storm sched t (p : pool) r t' p' :
  only_cancellable code -> storm_tasks (tasks p) ->
  join code on_turn storm_runner_exit None t sched p = (r, t', p') ->
  (r = None \/ (r = Some None /\ all_exited (tasks p') = true)) /\
  length (tasks p') = length (tasks p) /\
  other_errors t' = other_errors t /\
  cancelled t' - Z.of_nat (exited_count (tasks p'))
  = cancelled t - Z.of_nat (exited_count (tasks p)).
Proof.
  intros Hoc. revert t p. induction sched as [|i s IH]; intros t p Hst; simpl.
  - destruct (all_exited (tasks p)) eqn:E; intros [= <- <- <-]; auto 10.
  - destruct (all_exited (tasks p)) eqn:E; [intros [= <- <- <-]; auto 10|].
    destruct (runner_turn_storm i t p Hoc Hst) as (t1 & -> & He & Hc).
    intros Hj. destruct (turn_storm i p Hoc Hst) as (Hst' & Hlen & _).
    destruct (IH _ _ Hst' Hj) as (Hr & Hlen' & He' & Hc').
    repeat split; [assumption|lia|lia|lia].
Qed.

Lemma join_settles sched t (p : pool) :
  only_cancellable code -> storm_tasks (tasks p) ->
  covered sched (tasks p) ->
  exists t' p',
    join code on_turn storm_runner_exit None t sched p = (Some None, t', p').
Proof.
  intros Hoc. revert t p. induction sched as [|i s IH]; intros t p Hst Hcov;
    simpl.
  - destruct (all_exited (tasks p)) eqn:E; [eauto|].
    destruct (all_exited_waiting _ E) as (i & u & c & Hi).
    now destruct (Hcov i u c Hi) as [_ []].
  - destruct (all_exited (tasks p)) eqn:E; [eauto|].
    destruct (runner_turn_storm i t p Hoc Hst) as (t1 & -> & _).
    destruct (turn_storm i p Hoc Hst) as (Hst' & _).
    apply IH; [assumption|]. now apply covered_step.
Qed.
End Runner.

(** *** The counters *)

Lemma in_pool_tasks {A} (m : M A) (p : pool) :
  tasks (snd (in_pool m p)) = tasks p.
Proof. unfold in_pool. now destruct (m (shared p)). Qed.

Lemma in_pool_perf_counter (p : pool) :
  exists t p', in_pool perf_counter p = (Ok t, p') /\ tasks p' = tasks p.
Proof. unfold in_pool, perf_counter. simpl. eauto. Qed.

(** The tasks once the signal has been sent to [targets]. *)
Lemma signalled_storm_tasks targets (p : pool) :
  all_running (tasks p) ->
  storm_tasks (tasks (fold_left (fun q i => cancel i q) targets p)) /\
  exited_count (tasks (fold_left (fun q i => cancel i q) targets p)) = 0%nat.
Proof.
  intros Hrun.
  assert (Hlive : forall i t,
            tasks (fold_left (fun q i => cancel i q) targets p) !! i = Some t ->
            exists u c, t = Live u c).
  { intros i t. rewrite cancel_all_tasks.
    destruct (tasks p !! i) as [t0|] eqn:E; [|discriminate].
    destruct (Hrun i t0 E) as [u ->]. intros [= <-]. eauto. }
  split; [intros i t Ht; left; eauto|].
  revert Hlive. generalize (tasks (fold_left (fun q i => cancel i q) targets p)).
  unfold exited_count. induction l as [|t ts IH]; intros Hlive; [reflexivity|].
  destruct (Hlive 0%nat t eq_refl) as (u & c & ->). simpl.
  apply IH. intros i t' Ht'. apply (Hlive (S i) t' Ht').
Qed.

Lemma signalled_covered targets sched (p : pool) :
  all_running (tasks p) ->
  (forall i, (i < length (tasks p))%nat -> i ∈ targets /\ In i sched) ->
  covered sched (tasks (fold_left (fun q i => cancel i q) targets p)).
Proof.
  intros Hrun Hall i u c. rewrite cancel_all_tasks.
  destruct (tasks p !! i) as [t0|] eqn:E; [|discriminate].
  destruct (Hrun i t0 E) as [u0 ->]. intros [= <- <-].
  destruct (Hall i) as [Hin Hsched]; [now apply lookup_lt_Some in E|].
  split; [|assumption]. simpl. now apply bool_decide_eq_true_2.
Qed.

Lemma asyncio_storm_counts (n : Z) (ca : Q) (fn : nat -> U) s w :
  only_cancellable code ->
  (forall l p,
     AsyncioBackend_cancellation_storm code n ca fn s w = (Some (Ok l), p) ->
     exists settle,
       mem (shared p) !! l = Some (ODict (storm_dict (Z.of_nat (Z.to_nat n)) 0 settle))) /\
  ((forall i, (i < Z.to_nat n)%nat -> In i (after_signal s)) ->
   exists l p,
     AsyncioBackend_cancellation_storm code n ca fn s w = (Some (Ok l), p)).
Proof.
  intros Hoc. unfold AsyncioBackend_cancellation_storm.
  set (p0 := create_tasks fn n w).
  pose proof (free_run_all_running (before_signal s) p0 Hoc
                (created_all_running fn n w)) as Hrun.
  pose proof (free_run_length code (before_signal s) p0) as Hlen.
  assert (Hlen0 : length (tasks p0) = Z.to_nat n) by apply created_length.
  rewrite Hlen0 in Hlen.
  set (p1 := free_run code (before_signal s) p0) in *.
  destruct (in_pool_perf_counter p1) as (t & p2 & -> & Htasks).
  rewrite <- Htasks in Hrun, Hlen.
  set (p3 := fold_left (fun q i => cancel i q) (range n) p2).
  destruct (signalled_storm_tasks (range n) p2 Hrun) as [Hst _]. fold p3 in Hst.
  split.
  - intros l p.
    destruct (gather_return_exceptions code (after_signal s) p3)
      as [[results|] p4] eqn:Hg; [|discriminate].
    rewrite (gather_return_exceptions_settled _ _ _ _ Hoc Hst Hg).
    unfold p3. rewrite cancel_all_length, Hlen.
    destruct (count_cancelled_replicate (Z.to_nat n)) as [-> ->].
    destruct (storm_return_ok (Z.of_nat (Z.to_nat n)) 0 t p4)
      as (l' & p' & settle & -> & Hl).
    intros [= <- <-]. eauto.
  - intros Hfair.
    destruct (gather_return_exceptions_settles (after_signal s) p3 Hoc)
      as (os & p4 & ->).
    { apply signalled_covered; [assumption|]. rewrite Hlen. intros i Hi.
      split; [|auto]. apply list_elem_of_In, in_seq. lia. }
    destruct (storm_return_ok
                (count_true isinstance_CancelledError os)
                (count_true isinstance_other_error os) t p4)
      as (l & p' & settle & -> & _).
    eauto.
Qed.

Lemma group_storm_counts
    (on_turn : nat -> tally -> tally) (targets : tally -> list nat)
    (sleeping : M unit) (n : Z) (fn : nat -> U) s w :
  (forall i t, cancelled (on_turn i t) = cancelled t /\
               other_errors (on_turn i t) = other_errors t) ->
  only_cancellable code ->
  (forall l p,
     group_cancellation_storm code on_turn targets sleeping n fn s w
     = (Some (Ok l), p) ->
     exists settle,
       mem (shared p) !! l = Some (ODict (storm_dict (Z.of_nat (Z.to_nat n)) 0 settle))) /\
  ((forall w0, exists w1, sleeping w0 = (Ok tt, w1)) ->
   (forall (p1 : pool) t1 p2 e,
      all_running (tasks p1) -> length (tasks p1) = Z.to_nat n ->
      during code on_turn storm_runner_exit (Tally 0 0 []) (before_signal s) p1
      = (t1, p2, e) ->
      forall i, (i < Z.to_nat n)%nat -> i ∈ targets t1) ->
   (forall i, (i < Z.to_nat n)%nat -> In i (after_signal s)) ->
   exists l p,
     group_cancellation_storm code on_turn targets sleeping n fn s w
     = (Some (Ok l), p)).
Proof.
  intros Hkept Hoc. unfold group_cancellation_storm.
  set (p0 := create_tasks fn n w).
  assert (Hfail : forall e t p l p',
            match join code on_turn storm_runner_exit (Some e) t
                       (after_signal s) p with
            | (None, _, p'') => (@None (result loc), p'')
            | (Some _, _, p'') => (Some (Err e), p'')
            end <> (Some (Ok l), p')).
  { intros e t p l p'.
    destruct (join code on_turn storm_runner_exit (Some e) t (after_signal s) p)
      as [[[f|] t'] p'']; discriminate. }
  pose proof (in_pool_tasks sleeping p0) as Ht1.
  assert (Hlen0 : length (tasks p0) = Z.to_nat n) by apply created_length.
  assert (Hmain : forall (p1 : pool),
            tasks p1 = tasks p0 ->
            (forall l p,
               match during code on_turn storm_runner_exit (Tally 0 0 [])
                            (before_signal s) p1 with
               | (t1, p2, Some e) =>
                   match join code on_turn storm_runner_exit (Some e) t1
                              (after_signal s) p2 with
                   | (None, _, p') => (None, p')
                   | (Some _, _, p') => (Some (Err e), p')
                   end
               | (t1, p2, None) =>
                   match in_pool perf_counter p2 with
                   | (Err e, p3) =>
                       match join code on_turn storm_runner_exit (Some e) t1
                                  (after_signal s) (abort p3) with
                       | (None, _, p') => (None, p')
                       | (Some _, _, p') => (Some (Err e), p')
                       end
                   | (Ok cancel_start, p3) =>
                       let p4 := fold_left (fun q i => cancel i q) (targets t1) p3 in
                       match join code on_turn storm_runner_exit None t1
                                  (after_signal s) p4 with
                       | (None, _, p5) => (None, p5)
                       | (Some (Some e), _, p5) => (Some (Err e), p5)
                       | (Some None, t2, p5) =>
                           storm_return (cancelled t2) (other_errors t2)
                                        cancel_start p5
                       end
                   end
               end = (Some (Ok l), p) ->
               exists settle,
                 mem (shared p) !! l
                 = Some (ODict (storm_dict (Z.of_nat (Z.to_nat n)) 0 settle))) /\
            ((forall t1 p2 e,
                during code on_turn storm_runner_exit (Tally 0 0 [])
                       (before_signal s) p1 = (t1, p2, e) ->
                forall i, (i < Z.to_nat n)%nat -> i ∈ targets t1) ->
             (forall i, (i < Z.to_nat n)%nat -> In i (after_signal s)) ->
             exists l p,
               match during code on_turn storm_runner_exit (Tally 0 0 [])
                            (before_signal s) p1 with
               | (t1, p2, Some e) =>
                   match join code on_turn storm_runner_exit (Some e) t1
                              (after_signal s) p2 with
                   | (None, _, p') => (None, p')
                   | (Some _, _, p') => (Some (Err e), p')
                   end
               | (t1, p2, None) =>
                   match in_pool perf_counter p2 with
                   | (Err e, p3) =>
                       match join code on_turn storm_runner_exit (Some e) t1
                                  (after_signal s) (abort p3) with
                       | (None, _, p') => (None, p')
                       | (Some _, _, p') => (Some (Err e), p')
                       end
                   | (Ok cancel_start, p3) =>
                       let p4 := fold_left (fun q i => cancel i q) (targets t1) p3 in
                       match join code on_turn storm_runner_exit None t1
                                  (after_signal s) p4 with
                       | (None, _, p5) => (None, p5)
                       | (Some (Some e), _, p5) => (Some (Err e), p5)
                       | (Some None, t2, p5) =>
                           storm_return (cancelled t2) (other_errors t2)
                                        cancel_start p5
                       end
                   end
               end = (Some (Ok l), p))).
  { intros p1 Hp1.
    assert (Hrun1 : all_running (tasks p1))
      by (rewrite Hp1; apply created_all_running).
    destruct (during_storm on_turn Hkept (before_signal s) (Tally 0 0 []) p1
                Hoc Hrun1) as (t1 & p2 & Hd & Hrun2 & Hlen2 & Hc2 & He2).
    rewrite Hd.
    destruct (in_pool_perf_counter p2) as (t & p3 & -> & Htasks).
    rewrite <- Htasks in Hrun2, Hlen2. cbv zeta.
    set (p4 := fold_left (fun q i => cancel i q) (targets t1) p3).
    destruct (signalled_storm_tasks (targets t1) p3 Hrun2) as [Hst Hzero].
    fold p4 in Hst, Hzero.
    assert (Hn : length (tasks p4) = Z.to_nat n).
    { unfold p4. now rewrite cancel_all_length, Hlen2, Hp1. }
    split.
    - intros l p.
      destruct (join code on_turn storm_runner_exit None t1 (after_signal s) p4)
        as [[r t2] p5] eqn:Hj.
      destruct (join_storm on_turn Hkept _ _ _ _ _ _ Hoc Hst Hj)
        as ([->|[-> Hall]] & Hlen5 & He5 & Hc5); [discriminate|].
      rewrite (exited_count_all _ Hall), Hlen5, Hn, Hzero in Hc5.
      simpl in Hc2, He2.
      replace (cancelled t2) with (Z.of_nat (Z.to_nat n)) by lia.
      replace (other_errors t2) with 0 by lia.
      destruct (storm_return_ok (Z.of_nat (Z.to_nat n)) 0 t p5)
        as (l' & p' & settle & -> & Hl).
      intros [= <- <-]. eauto.
    - intros Htargets Hfair.
      destruct (join_settles on_turn Hkept (after_signal s) t1 p4 Hoc Hst)
        as (t2 & p5 & ->).
      { apply signalled_covered; [assumption|].
        rewrite Hlen2, Hp1, Hlen0. intros i Hi.
        split; [|auto]. now apply (Htargets t1 p2 None eq_refl). }
      destruct (storm_return_ok (cancelled t2) (other_errors t2) t p5)
        as (l & p' & settle & -> & _).
      eauto. }
  split.
  - intros l p.
    destruct (in_pool sleeping p0) as [[[]|e] p1]; simpl in Ht1.
    + apply (proj1 (Hmain p1 Ht1)).
    + intros H. now apply Hfail in H.
  - intros Hsleep Htargets Hfair.
    destruct (Hsleep (shared p0)) as [w1 Hw1]. clear Ht1.
    unfold in_pool. rewrite Hw1.
    apply (proj2 (Hmain (Pool (tasks p0) w1 (trace p0)) eq_refl));
      [|assumption].
    intros t1 p2 e Hd. eapply Htargets; [| |exact Hd].
    + apply (created_all_running fn n w).
    + exact Hlen0.
Qed.

(** trio registers the scope of every unit that ran before the signal. *)
Lemma trio_runner_turn_scopes i j t :
  j ∈ scopes (trio_runner_turn i t) <-> j = i \/ j ∈ scopes t.
Proof.
  unfold trio_runner_turn. destruct (bool_decide (i ∈ scopes t)) eqn:E.
  - apply bool_decide_eq_true in E. split; [auto|]. now intros [->|].
  - simpl. rewrite elem_of_app, list_elem_of_singleton. tauto.
Qed.

Lemma during_trio_scopes sched t (p : pool) t' p' e :
  only_cancellable code -> all_running (tasks p) ->
  during code trio_runner_turn storm_runner_exit t sched p = (t', p', e) ->
  forall i, i ∈ scopes t \/ (In i sched /\ (i < length (tasks p))%nat) ->
            i ∈ scopes t'.
Proof.
  intros Hoc. revert t p. induction sched as [|j s IH]; intros t p Hrun; simpl.
  - intros [= <- <- <-] i [H|[[] _]]. exact H.
  - unfold runner_turn.
    destruct (turn_all_running j p Hoc Hrun) as [Hrun' Hnone].
    pose proof (turn_length code j p) as Hlen.
    destruct (turn code j p) as [p1 ev]. simpl in Hrun', Hnone, Hlen. subst ev.
    intros Hd i Hi. apply (IH _ _ Hrun' Hd i).
    destruct Hi as [Hi|[[->|Hin] Hlt]].
    + left. destruct (is_live j p); [|assumption].
      apply trio_runner_turn_scopes. now right.
    + left. unfold is_live.
      destruct (lookup_lt_is_Some_2 (tasks p) i Hlt) as [t0 Ht0].
      rewrite Ht0. destruct (Hrun i t0 Ht0) as [u ->].
      apply trio_runner_turn_scopes. now left.
    + right. split; [assumption|]. now rewrite Hlen.
Qed.

(** The counters of a storm of units that only the signal can end. *)
Lemma cancellation_storm_counts
    (b : backend) (task_count : Z) (cancel_after : Q) (task_fn : nat -> U)
    (s : storm_schedule) (w : world) :
  0 <= task_count ->
  only_cancellable code ->
  (forall l p,
     cancellation_storm code b task_count cancel_after task_fn s w
     = (Some (Ok l), p) ->
     exists c e settle,
       mem (shared p) !! l = Some (ODict (storm_dict c e settle)) /\
       c + e <= task_count /\ c = task_count /\ e = 0) /\
  ((forall i, (i < Z.to_nat task_count)%nat -> In i (after_signal s)) ->
   (b = Trio ->
    (0 <= cancel_after)%Q /\
    forall i, (i < Z.to_nat task_count)%nat -> In i (before_signal s)) ->
   exists l p,
     cancellation_storm code b task_count cancel_after task_fn s w
     = (Some (Ok l), p)).
Proof.
  intros Hn Hoc.
  assert (Hcounts : forall (p : pool) l settle,
            mem (shared p) !! l
            = Some (ODict (storm_dict (Z.of_nat (Z.to_nat task_count)) 0 settle)) ->
            exists c e settle',
              mem (shared p) !! l = Some (ODict (storm_dict c e settle')) /\
              c + e <= task_count /\ c = task_count /\ e = 0).
  { intros p l settle H. exists task_count, 0, settle.
    rewrite Z2Nat.id in H by assumption. repeat split; [assumption|lia]. }
  destruct b; simpl.
  - destruct (asyncio_storm_counts task_count cancel_after task_fn s w Hoc)
      as [Hpart Htot].
    split.
    + intros l p H. destruct (Hpart l p H) as [settle Hl]. eauto.
    + intros Hfair _. auto.
  - unfold TrioBackend_cancellation_storm.
    destruct (group_storm_counts trio_runner_turn scopes
                (sleep Trio cancel_after) task_count task_fn s w)
      as [Hpart Htot]; [now intros i t; unfold trio_runner_turn;
                         destruct (bool_decide _)|assumption|].
    split.
    + intros l p H. destruct (Hpart l p H) as [settle Hl]. eauto.
    + intros Hfair Htrio. destruct (Htrio eq_refl) as [Hca Hbefore].
      apply Htot; [| |assumption].
      * intros w0. exists w0. unfold sleep.
        apply Qle_bool_iff in Hca. now rewrite Hca.
      * intros p1 t1 p2 e Hrun Hlen Hd i Hi.
        apply (during_trio_scopes _ _ _ _ _ _ Hoc Hrun Hd).
        right. split; [auto|lia].
  - unfold AnyioBackend_cancellation_storm.
    destruct (group_storm_counts anyio_runner_turn (fun _ => range task_count)
                (sleep Anyio cancel_after) task_count task_fn s w)
      as [Hpart Htot]; [now intros i t|assumption|].
    split.
    + intros l p H. destruct (Hpart l p H) as [settle Hl]. eauto.
    + intros Hfair _. apply Htot; [| |assumption].
      * intros w0. now exists w0.
      * intros p1 t1 p2 e _ _ _ i Hi. apply list_elem_of_In, in_seq. lia.
Qed.

(** C4.  In a storm of task_count units that can only exit through the
    cancellation signal, under any backend, the counters returned satisfy
    cancelled + exceptions <= task_count, with cancelled = task_count and
    exceptions = 0.  The storm does return them when the scheduler gives
    every unit a turn after the signal (and, under trio, whose signal only
    reaches the units that have started, a turn before it too). *)
Theorem storm_counts_every_unit_cancelled
    (b : backend) (task_count : Z) (cancel_after : Q) (task_fn : nat -> U)
    (s : storm_schedule) (w : world) :
  0 <= task_count ->
  only_cancellable code ->
  (forall l p,
     cancellation_storm code b task_count cancel_after task_fn s w
     = (Some (Ok l), p) ->
     exists c e settle,
       mem (shared p) !! l = Some (ODict (storm_dict c e settle)) /\
       c + e <= task_count /\ c = task_count /\ e = 0) /\
  ((forall i, (i < Z.to_nat task_count)%nat -> In i (after_signal s)) ->
   (b = Trio ->
    (0 <= cancel_after)%Q /\
    forall i, (i < Z.to_nat task_count)%nat -> In i (before_signal s)) ->
   exists l p,
     cancellation_storm code b task_count cancel_after task_fn s w
     = (Some (Ok l), p)).
Proof. apply cancellation_storm_counts. Qed.


End Units.

Import Benchmarks Samples.

(** The unit of the Cancellation-Storm scenario is of that kind, under
    every backend. *)
Lemma long_task_only_cancellable (b : backend) :
  only_cancellable (_long_task b).
Proof.
  split.
  - intros [] w. exists 1%Q, tt, w. now destruct b.
  - intros [] w. now exists w.
Qed.

Lemma storm_counts_every_unit_cancelled_witness :
  exists l p,
    cancellation_storm (_long_task Trio) Trio 3 0.05 (fun _ => tt)
      (StormSchedule [0; 1; 2; 1]%nat [2; 1; 0]%nat) empty_world
    = (Some (Ok l), p).
Proof.
  apply (proj2 (storm_counts_every_unit_cancelled (_long_task Trio) Trio 3 0.05
                  (fun _ => tt) (StormSchedule [0; 1; 2; 1]%nat [2; 1; 0]%nat)
                  empty_world ltac:(lia) (long_task_only_cancellable Trio))).
  - intros i Hi. simpl in *. lia.
  - intros _. split; [discriminate|]. intros i Hi. simpl in *. lia.
Defined.

End StormFacts.

(* ===================================================================== *)
(** * Facts about backends.py: whom the signal reaches                    *)
(* ===================================================================== *)

Module SignalFacts.
Import Backends SpawnFacts StormFacts.

Section Units.
Context {U V : Type}.
Variable code : coroutine (U:=U) (V:=V).

#[local] Abbreviation pool := (pool (U:=U) (V:=V)).
#[local] Abbreviation task := (task (U:=U) (V:=V)).
#[local] Abbreviation event := (event (V:=V)).

(** The trace tells which units are live. *)
Definition tracked (p : pool) : Prop :=
  forall i, is_live i p = outstanding (trace p) i.

Lemma outstanding_quiet (tr : list event) ev i :
  is_Launch ev = false ->
  outstanding (tr ++ [ev]) i
  = outstanding tr i
    && negb (match ev with Exit j _ => Nat.eqb j i | _ => false end).
Proof.
  intros Hl. unfold outstanding. rewrite !existsb_app. simpl.
  rewrite !orb_false_r.
  destruct ev as [j|j d|j o|j]; try discriminate; simpl;
    rewrite ?orb_false_r, ?andb_true_r; try reflexivity.
  rewrite negb_orb. now rewrite andb_assoc.
Qed.

Lemma is_live_insert (ts : list task) w tr tr' i j t :
  (i < length ts)%nat ->
  is_live j (Pool (<[i := t]> ts) w tr)
  = if decide (j = i) then negb (is_exited t) else is_live j (Pool ts w tr').
Proof.
  intros Hi. unfold is_live. simpl.
  destruct (decide (j = i)) as [->|Hne].
  - rewrite list_lookup_insert_eq by assumption. now destruct t.
  - now rewrite list_lookup_insert_ne by congruence.
Qed.

Lemma exit_task_tracked i o w (p : pool) u c :
  tasks p !! i = Some (Live u c) -> tracked p -> tracked (exit_task i o w p).
Proof.
  intros E Hp j. unfold exit_task.
  rewrite (is_live_insert _ _ _ (trace p) i j) by (now apply lookup_lt_Some in E).
  simpl trace. rewrite outstanding_quiet by reflexivity.
  destruct (decide (j = i)) as [->|Hne]; simpl.
  - rewrite Nat.eqb_refl. now rewrite andb_false_r.
  - replace (Nat.eqb i j) with false
      by (symmetry; apply Nat.eqb_neq; congruence).
    rewrite andb_true_r. rewrite <- Hp. reflexivity.
Qed.

Lemma turn_tracked i (p : pool) : tracked p -> tracked (fst (turn code i p)).
Proof.
  intros Hp. unfold turn.
  destruct (tasks p !! i) as [[u [|]|o]|] eqn:E; simpl; try assumption.
  - destruct (on_cancel code u (shared p)) as [o w]. simpl.
    now apply (exit_task_tracked i o w p u true).
  - destruct (resume code u (shared p)) as [[[d u'|v]|e] w]; simpl.
    + intros j.
      rewrite (is_live_insert _ _ _ (trace p) i j)
        by (now apply lookup_lt_Some in E).
      simpl trace. rewrite outstanding_quiet by reflexivity. simpl.
      rewrite andb_true_r, <- Hp.
      destruct (decide (j = i)) as [->|Hne]; [|reflexivity].
      unfold is_live. now rewrite E.
    + now apply (exit_task_tracked i (Ok v) w p u false).
    + now apply (exit_task_tracked i (Err e) w p u false).
Qed.

Lemma free_run_tracked sched (p : pool) :
  tracked p -> tracked (free_run code sched p).
Proof.
  revert p. induction sched as [|i s IH]; intros p Hp; simpl; [assumption|].
  now apply IH, turn_tracked.
Qed.

Lemma abort_tracked (p : pool) : tracked p -> tracked (abort p).
Proof.
  intros Hp j. specialize (Hp j). unfold is_live in *. unfold abort. simpl.
  rewrite <- Hp, list_lookup_fmap. now destruct (tasks p !! j) as [[u c|o]|].
Qed.

Lemma in_pool_tracked {A} (m : M A) (p : pool) :
  tracked p -> tracked (snd (in_pool m p)).
Proof.
  intros Hp j. specialize (Hp j). unfold is_live in *. unfold in_pool.
  now destruct (m (shared p)).
Qed.

Lemma created_tracked (fn : nat -> U) n w : tracked (create_tasks fn n w).
Proof.
  intros j. unfold is_live, outstanding, create_tasks, range. simpl.
  rewrite list_lookup_fmap.
  assert (Hx : existsb (fun ev : event =>
                          match ev with Exit k _ => Nat.eqb k j | _ => false end)
                 (map Launch (seq 0 (Z.to_nat n))) = false).
  { induction (seq 0 (Z.to_nat n)) as [|k ks IH]; [reflexivity|exact IH]. }
  rewrite Hx, andb_true_r.
  destruct (decide (j < Z.to_nat n)%nat) as [Hlt|Hge].
  - rewrite lookup_seq_lt by assumption. simpl. symmetry.
    apply existsb_exists. exists (Launch j). split; [|apply Nat.eqb_refl].
    apply in_map, in_seq. lia.
  - rewrite lookup_seq_ge by lia. simpl. symmetry.
    apply not_true_is_false. intros H.
    apply existsb_exists in H as (ev & Hin & Hev).
    apply in_map_iff in Hin as (k & <- & Hk). apply in_seq in Hk.
    apply Nat.eqb_eq in Hev. lia.
Qed.

(** A unit outstanding in a storm is one of those the storm launched. *)
Lemma outstanding_launched (fn : nat -> U) n w (p : pool) i :
  grows (create_tasks fn n w) p ->
  outstanding (trace p) i = true -> In i (range n).
Proof.
  intros (evs & H & Q) Ho. unfold outstanding in Ho.
  apply andb_prop in Ho as [Hl _]. rewrite H in Hl. simpl in Hl.
  rewrite existsb_app in Hl. apply orb_prop in Hl as [Hl|Hl].
  - apply existsb_exists in Hl as (ev & Hin & Hev).
    apply in_map_iff in Hin as (k & <- & Hk).
    apply Nat.eqb_eq in Hev. now subst.
  - apply existsb_exists in Hl as (ev & Hin & Hev).
    pose proof (proj1 (List.Forall_forall _ _) Q ev Hin) as [_ Hnl].
    destruct ev; try discriminate.
Qed.

(** A storm that sent its signal to [targets], every live unit among
    them, and went on. *)
Lemma signalled_all_after (fn : nat -> U) n w (p1 p2 p3 : pool) targets :
  grows (create_tasks fn n w) p1 ->
  tracked p1 ->
  NoDup targets ->
  (forall i, is_live i p1 = true -> In i targets) ->
  p2 = fold_left (fun q i => cancel i q) targets p1 ->
  grows p2 p3 ->
  signalled_all (trace p3).
Proof.
  intros (evs1 & H1 & Q1) Ht Hnd Hall -> (evs3 & H3 & Q3).
  exists (trace p1), (List.filter (fun i => is_live i p1) targets), evs3.
  split; [|split; [|split; [|split; [|split]]]].
  - now rewrite H3, cancel_all_trace, app_assoc.
  - apply NoDup_ListNoDup, List.NoDup_filter. now apply NoDup_ListNoDup.
  - rewrite H1, signals_app. simpl. now rewrite signals_launches, signals_quiet.
  - now apply signals_quiet.
  - now apply quiet_no_launch.
  - intros i. rewrite List.filter_In, <- Ht. split; [tauto|auto].
Qed.

(** asyncio: task.cancel() on every task. *)
Lemma asyncio_storm_signalled_all n ca (fn : nat -> U) s w :
  signalled_all
    (trace (snd (AsyncioBackend_cancellation_storm code n ca fn s w))).
Proof.
  unfold AsyncioBackend_cancellation_storm.
  set (p0 := create_tasks fn n w).
  pose proof (free_run_grows code (before_signal s) p0) as H1.
  pose proof (free_run_tracked (before_signal s) p0 (created_tracked fn n w))
    as T1.
  set (p1 := free_run code (before_signal s) p0) in *.
  pose proof (in_pool_grows perf_counter p1) as H2.
  pose proof (in_pool_tracked perf_counter p1 T1) as T2.
  destruct (in_pool_perf_counter p1) as (t & p2 & E2 & _).
  rewrite E2 in H2, T2 |- *. simpl in H2, T2.
  set (p3 := fold_left (fun q i => cancel i q) (range n) p2).
  pose proof (gather_return_exceptions_grows code (after_signal s) p3) as H4.
  assert (H02 : grows p0 p2) by (eapply grows_trans; eassumption).
  assert (Hall : forall i, is_live i p2 = true -> In i (range n)).
  { intros i Hi. rewrite T2 in Hi.
    now apply (outstanding_launched fn n w p2). }
  destruct (gather_return_exceptions code (after_signal s) p3)
    as [[results|] p4]; simpl in H4; cbv beta iota.
  - apply (signalled_all_after fn n w p2 p3 _ (range n));
      [assumption|assumption|apply NoDup_range|assumption|reflexivity|].
    eapply grows_trans; [exact H4|apply storm_return_grows].
  - apply (signalled_all_after fn n w p2 p3 p4 (range n));
      auto using NoDup_range.
Qed.

Section Nursery.
Context {R : Type}.
Variable on_turn : nat -> R -> R.
Variable on_exit : nat -> result V -> R -> R.

Lemma runner_turn_tracked i r (p : pool) :
  tracked p -> tracked (snd (fst (runner_turn code on_turn on_exit i r p))).
Proof.
  intros Hp. unfold runner_turn. pose proof (turn_tracked i p Hp) as H.
  destruct (turn code i p) as [p' [o|]]; exact H.
Qed.

(** An exception leaving a child is in the trace, as the child's exit. *)
Lemma runner_turn_failed i r (p : pool) r' p' e :
  runner_turn code on_turn on_exit i r p = (r', p', Some e) ->
  In (Exit i (Err e)) (trace p') /\ is_Exception e = true.
Proof.
  unfold runner_turn, turn.
  destruct (tasks p !! i) as [[u [|]|o]|]; try discriminate.
  - destruct (on_cancel code u (shared p)) as [[v|e0] w0]; [discriminate|].
    destruct (is_Exception e0) eqn:Ee; [|discriminate].
    intros [= _ <- <-]. split; [|assumption].
    simpl. apply in_or_app. right. now left.
  - destruct (resume code u (shared p)) as [[[d u'|v]|e0] w0];
      try discriminate.
    destruct (is_Exception e0) eqn:Ee; [|discriminate].
    intros [= _ <- <-]. split; [|assumption].
    simpl. apply in_or_app. right. now left.
Qed.

Lemma during_tracked sched r (p : pool) :
  tracked p -> tracked (snd (fst (during code on_turn on_exit r sched p))).
Proof.
  revert r p. induction sched as [|i s IH]; intros r p Hp; simpl;
    [assumption|].
  pose proof (runner_turn_tracked i r p Hp) as H.
  destruct (runner_turn code on_turn on_exit i r p) as [[r' p'] [e|]];
    simpl in *; [now apply abort_tracked|now apply IH].
Qed.

Lemma during_failed sched r (p : pool) r' p' e :
  during code on_turn on_exit r sched p = (r', p', Some e) ->
  (exists i, In (Exit i (Err e)) (trace p')) /\ is_Exception e = true.
Proof.
  revert r p. induction sched as [|i s IH]; intros r p; simpl;
    [discriminate|].
  destruct (runner_turn code on_turn on_exit i r p) as [[r1 p1] [e1|]] eqn:E.
  - intros [= _ <- <-].
    destruct (runner_turn_failed _ _ _ _ _ _ E) as [Hin He].
    split; [now exists i|assumption].
  - apply IH.
Qed.

Lemma join_tracked sched failed r (p : pool) :
  tracked p -> tracked (snd (join code on_turn on_exit failed r sched p)).
Proof.
  revert failed r p. induction sched as [|i s IH]; intros failed r p Hp; simpl.
  - now destruct (all_exited (tasks p)).
  - destruct (all_exited (tasks p)); [assumption|].
    pose proof (runner_turn_tracked i r p Hp) as H.
    destruct (runner_turn code on_turn on_exit i r p) as [[r' p'] [e|]];
      simpl in *.
    + destruct failed; apply IH; [assumption|now apply abort_tracked].
    + now apply IH.
Qed.
End Nursery.

(** A task group whose scope holds every child, as anyio's: the signal
    reaches every outstanding unit, unless a child failed while the body
    slept; the group is then torn down and no signal is sent. *)
Lemma group_storm_signalled_all
    (on_turn : nat -> tally -> tally) (sleeping : M unit) n (fn : nat -> U) s w :
  (forall w0, exists w1, sleeping w0 = (Ok tt, w1)) ->
  let tr := trace (snd (group_cancellation_storm code on_turn
                          (fun _ => range n) sleeping n fn s w)) in
  signalled_all tr \/
  (signals tr = [] /\
   exists i e, In (Exit i (Err e)) tr /\ is_Exception e = true).
Proof.
  intros Hsleep. cbv zeta. unfold group_cancellation_storm.
  set (p0 := create_tasks fn n w).
  assert (Hquiet : forall p : pool, grows p0 p -> signals (trace p) = []).
  { intros p (evs & H & Q). rewrite H, signals_app. unfold p0. simpl.
    now rewrite signals_launches, signals_quiet. }
  destruct (Hsleep (shared p0)) as [w1 Hs].
  pose proof (in_pool_grows sleeping p0) as G1.
  pose proof (in_pool_tracked sleeping p0 (created_tracked fn n w)) as T1.
  assert (E1 : in_pool sleeping p0 = (Ok tt, Pool (tasks p0) w1 (trace p0)))
    by (unfold in_pool; now rewrite Hs).
  rewrite E1 in G1, T1 |- *. cbn [snd] in G1, T1. cbv beta iota.
  set (p1 := Pool (tasks p0) w1 (trace p0)) in *.
  pose proof (during_grows code on_turn storm_runner_exit (before_signal s)
                (Tally 0 0 []) p1) as G2.
  pose proof (during_tracked on_turn storm_runner_exit (before_signal s)
                (Tally 0 0 []) p1 T1) as T2.
  destruct (during code on_turn storm_runner_exit (Tally 0 0 [])
              (before_signal s) p1) as [[t1 p2] [e|]] eqn:Ed; simpl in G2, T2.
  { right.
    destruct (during_failed _ _ _ _ _ _ _ _ Ed) as [[i Hin] He].
    pose proof (join_grows code on_turn storm_runner_exit (after_signal s)
                  (Some e) t1 p2) as G3.
    assert (G : grows p0 (snd (join code on_turn storm_runner_exit (Some e) t1
                                 (after_signal s) p2))).
    { eapply grows_trans; [exact G1|].
      eapply grows_trans; [exact G2|exact G3]. }
    destruct G3 as (evs & H3 & _).
    destruct (join code on_turn storm_runner_exit (Some e) t1 (after_signal s) p2)
      as [[[f|] t'] p']; cbn [fst snd] in *.
    - split; [now apply Hquiet|]. exists i, e. split; [|assumption].
      rewrite H3. apply in_or_app. now left.
    - split; [now apply Hquiet|]. exists i, e. split; [|assumption].
      rewrite H3. apply in_or_app. now left. }
  left.
  pose proof (in_pool_grows perf_counter p2) as G3.
  pose proof (in_pool_tracked perf_counter p2 T2) as T3.
  destruct (in_pool_perf_counter p2) as (t & p3 & E3 & _).
  rewrite E3 in G3, T3 |- *. simpl in G3, T3.
  assert (G03 : grows p0 p3).
  { eapply grows_trans; [exact G1|]. eapply grows_trans; eassumption. }
  assert (Hall : forall i, is_live i p3 = true -> In i (range n)).
  { intros i Hi. rewrite T3 in Hi.
    now apply (outstanding_launched fn n w p3). }
  set (p4 := fold_left (fun q i => cancel i q) (range n) p3).
  pose proof (join_grows code on_turn storm_runner_exit (after_signal s)
                None t1 p4) as G5.
  destruct (join code on_turn storm_runner_exit None t1 (after_signal s) p4)
    as [[[[e|]|] t2] p5]; simpl in G5; cbv beta iota.
  - apply (signalled_all_after fn n w p3 p4 p5 (range n));
      auto using NoDup_range.
  - apply (signalled_all_after fn n w p3 p4 _ (range n));
      [assumption|assumption|apply NoDup_range|assumption|reflexivity|].
    eapply grows_trans; [exact G5|apply storm_return_grows].
  - apply (signalled_all_after fn n w p3 p4 p5 (range n));
      auto using NoDup_range.
Qed.

End Units.

Import Benchmarks Samples.

#[local] Abbreviation waiting := (replicate 3 (Live (V:=value) tt false)).

(** Three units of _long_task that were never signalled: whatever turns
    they get, they sleep again and the nursery goes on waiting. *)
Lemma unsignalled_join_waits after failed t (p : Backends.pool) :
  tasks p = waiting ->
  fst (fst (join (_long_task Trio) trio_runner_turn storm_runner_exit
              failed t after p)) = None /\
  tasks (snd (join (_long_task Trio) trio_runner_turn storm_runner_exit
                failed t after p)) = waiting.
Proof.
  revert t p.
  induction after as [|i sched IH]; intros t [ts w tr] Hp; simpl in Hp;
    subst ts; [now split|].
  cbn [join]. change (all_exited (tasks (Pool waiting w tr))) with false.
  cbv iota. unfold runner_turn, turn.
  destruct i as [|[|[|i]]]; simpl; now apply IH.
Qed.

(** C3.  The signal of a storm is issued at most once under every backend,
    in one block and with no unit launched after it.  Under asyncio it
    reaches every outstanding unit, and under anyio too unless a unit
    failed first.  Under trio it does not: the signal goes to the scopes
    the runners have registered, so a unit that has not started when the
    body resumes receives none.  With three units of _long_task and
    cancel_after = 0, when the body resumes before any child has run, no
    signal is sent at all, the three units stay outstanding, and the storm
    never returns, whatever turns the units get afterwards. *)
Theorem storm_signal_misses_unstarted_units :
  (forall (U V : Type) (code : coroutine (U:=U) (V:=V)) b n ca fn s w,
     signalled_once (trace (snd (cancellation_storm code b n ca fn s w)))) /\
  (forall (U V : Type) (code : coroutine (U:=U) (V:=V)) n ca fn s w,
     signalled_all (trace (snd (cancellation_storm code Asyncio n ca fn s w)))) /\
  (forall (U V : Type) (code : coroutine (U:=U) (V:=V)) n ca fn s w,
     let tr := trace (snd (cancellation_storm code Anyio n ca fn s w)) in
     signalled_all tr \/
     (signals tr = [] /\
      exists i e, In (Exit i (Err e)) tr /\ is_Exception e = true)) /\
  (forall after,
     let run := cancellation_storm (_long_task Trio) Trio 3 0 (fun _ => tt)
                  (StormSchedule [] after) empty_world in
     fst run = None /\
     signals (trace (snd run)) = [] /\
     forallb (outstanding (trace (snd run))) [0; 1; 2]%nat = true).
Proof.
  split; [|split; [|split]].
  - intros U V code b n ca fn s w. apply storm_signal_issued_once.
  - intros U V code n ca fn s w. apply asyncio_storm_signalled_all.
  - intros U V code n ca fn s w.
    apply (group_storm_signalled_all code anyio_runner_turn).
    intros w0. now exists w0.
  - intros after. cbv zeta.
    unfold cancellation_storm, TrioBackend_cancellation_storm,
      group_cancellation_storm.
    cbn [before_signal after_signal].
    set (p3 := Pool waiting
                 (World ∅ (fun n => inject_Z (Z.of_nat n)) 1)
                 (map (Launch (V:=value)) [0; 1; 2]%nat)).
    change (in_pool (sleep Trio 0) (create_tasks (fun _ => tt) 3 empty_world))
      with (Ok tt, create_tasks (V:=value) (fun _ : nat => tt) 3 empty_world).
    cbv beta iota. cbn [during].
    change (in_pool perf_counter
              (create_tasks (V:=value) (fun _ : nat => tt) 3 empty_world))
      with (Ok (0 # 1), p3).
    cbv beta iota. cbn [scopes fold_left].
    pose proof (unsignalled_join_waits after None (Tally 0 0 []) p3 eq_refl)
      as [Hnone Htasks].
    pose proof (join_grows (_long_task Trio) trio_runner_turn storm_runner_exit
                  after None (Tally 0 0 []) p3) as (evs & Htr & Hq).
    assert (Ht : tracked p3)
      by (apply (created_tracked (V:=value) (fun _ => tt) 3
                   (World ∅ (fun n => inject_Z (Z.of_nat n)) 1))).
    pose proof (join_tracked (_long_task Trio) trio_runner_turn storm_runner_exit
                  after None (Tally 0 0 []) p3 Ht) as Hjt.
    destruct (join (_long_task Trio) trio_runner_turn storm_runner_exit None
                (Tally 0 0 []) after p3) as [[[f|] t2] p5];
      simpl in Hnone, Htasks, Htr, Hjt; [discriminate|].
    simpl. split; [reflexivity|]. split.
    + rewrite Htr. change (signals evs = []). now apply signals_quiet.
    + rewrite <- !Hjt. unfold is_live. rewrite Htasks. reflexivity.
Qed.

End SignalFacts.

(* ===================================================================== *)
(** * Facts about io_bound.py                                             *)
(* ===================================================================== *)

Module IOFacts.
Import PyFacts Utils UtilsFacts MetricsFacts Backends SpawnFacts Benchmarks.

Section Workers.
Variable expovariate_value : Z -> nat -> Q -> Q.
Variable b : backend.
Variables params rng op_latencies : loc.
Variables concurrency ops_per_worker : Z.
Variable mean_delay_ms : Q.
Variable seed : Z.

Hypothesis mean_positive : (0 < mean_delay_ms)%Q.
Hypothesis delays_nonnegative :
  forall sd k lambd, (0 < lambd)%Q -> (0 <= expovariate_value sd k lambd)%Q.
Hypothesis params_rng : params <> rng.
Hypothesis params_latencies : params <> op_latencies.
Hypothesis rng_latencies : rng <> op_latencies.

#[local] Abbreviation the_params :=
  (IOBoundParams concurrency ops_per_worker mean_delay_ms seed).
#[local] Abbreviation the_worker :=
  (worker expovariate_value b params rng op_latencies).
#[local] Abbreviation pool := (pool (U:=worker_state) (V:=value)).
#[local] Abbreviation task := (task (U:=worker_state) (V:=value)).

(** The k-th delay of a run: it depends on the params alone. *)
Definition draw (k : nat) : Q :=
  (expovariate_value seed k (1 / mean_delay_ms) / 1000)%Q.

(** The objects the workers share, after [k] draws. *)
Definition io_world (w : world) (k : nat) : Prop :=
  mem w !! params = Some (ODict the_params) /\
  mem w !! rng = Some (ORandom seed k) /\
  exists xs, mem w !! op_latencies = Some (OList xs).

Lemma draw_nonneg k : (0 <= draw k)%Q.
Proof.
  unfold draw. apply Qle_shift_div_l; [reflexivity|]. rewrite Qmult_0_l.
  apply delays_nonnegative. apply Qlt_shift_div_l; [assumption|].
  now rewrite Qmult_0_l.
Qed.

Lemma sleep_nonneg d w : (0 <= d)%Q -> sleep b d w = (Ok tt, w).
Proof.
  intros Hd. unfold sleep. destruct b; try reflexivity.
  apply Qle_bool_iff in Hd. now rewrite Hd.
Qed.

Lemma worker_loop_next r w k :
  io_world w k ->
  exists start w',
    worker_loop expovariate_value b params rng (S r) w
    = (Ok (Suspend (draw k) (WorkerSleeping start r)), w') /\
    io_world w' (S k).
Proof.
  intros (Hp & Hr & xs & Hl). unfold worker_loop.
  rewrite (bind_run _ _ _ _ _ (getattr_run _ _ "mean_delay_ms" _ _ Hp eq_refl)).
  unfold as_float at 1. unfold bind at 1, ret at 1.
  assert (Hdiv : truediv 1 mean_delay_ms = Ok (1 / mean_delay_ms)%Q).
  { unfold truediv. destruct (Qeq_bool mean_delay_ms 0) eqn:E; [|reflexivity].
    apply Qeq_bool_eq in E. rewrite E in mean_positive.
    now apply Qlt_irrefl in mean_positive. }
  rewrite Hdiv. unfold of_result at 1. unfold bind at 1, ret at 1.
  unfold bind at 1, expovariate at 1. rewrite Hr.
  unfold bind at 1, perf_counter at 1.
  rewrite (bind_run _ _ _ _ _ (sleep_nonneg _ _ (draw_nonneg k))).
  unfold ret. do 2 eexists. split; [reflexivity|].
  repeat split; simpl.
  - now rewrite lookup_insert_ne by congruence.
  - apply lookup_insert_eq.
  - exists xs. now rewrite lookup_insert_ne by congruence.
Qed.

(** What a worker has drawn so far and how many turns it still needs. *)
Definition ops : nat := Z.to_nat ops_per_worker.

Definition drawn (t : task) : nat :=
  match t with
  | Live WorkerStart _ => 0
  | Live (WorkerSleeping _ remaining) _ => ops - remaining
  | Exited _ => ops
  end.

Definition turns_left (t : task) : nat :=
  match t with
  | Live WorkerStart _ => S ops
  | Live (WorkerSleeping _ remaining) _ => S remaining
  | Exited _ => 0
  end.

(** A task of the run: never cancelled, and returning None when it ends. *)
Definition worker_task (t : task) : Prop :=
  match t with
  | Live WorkerStart c => c = false
  | Live (WorkerSleeping _ remaining) c => c = false /\ (remaining < ops)%nat
  | Exited o => o = Ok VNone
  end.

Lemma resume_start w k :
  io_world w k ->
  exists t w' k',
    (let '(r, w1) := resume the_worker WorkerStart w in
     match r with
     | Ok (Suspend d u) => Some (Live u false, [d], w1)
     | Ok (Return v) => Some (Exited (Ok v), [], w1)
     | Err _ => None
     end) = Some (t, List.map draw (seq k (k' - k)), w') /\
    io_world w' k' /\ worker_task t /\
    turns_left t = ops /\ (k' = k + drawn t)%nat /\ (k <= k')%nat.
Proof.
  intros Hw. pose proof Hw as (Hp & Hr & xs & Hl). simpl.
  rewrite (bind_run _ _ _ _ _ (getattr_run _ _ "ops_per_worker" _ _ Hp eq_refl)).
  unfold as_int at 1. unfold bind at 1, ret at 1.
  rewrite length_range. fold ops.
  destruct ops as [|r] eqn:Hops.
  - simpl. exists (Exited (Ok VNone)), w, k. rewrite Nat.sub_diag. simpl.
    rewrite Hops. split; [reflexivity|]. split; [eassumption|]. repeat split; lia.
  - destruct (worker_loop_next r w k Hw) as (start & w' & -> & Hw').
    exists (Live (WorkerSleeping start r) false), w', (S k).
    replace (S k - k)%nat with 1%nat by lia. simpl. rewrite Hops.
    split; [reflexivity|]. split; [eassumption|]. repeat split; lia.
Qed.

Lemma resume_sleeping start remaining w k :
  io_world w k -> (remaining < ops)%nat ->
  exists t w' k',
    (let '(r, w1) := resume the_worker (WorkerSleeping start remaining) w in
     match r with
     | Ok (Suspend d u) => Some (Live u false, [d], w1)
     | Ok (Return v) => Some (Exited (Ok v), [], w1)
     | Err _ => None
     end) = Some (t, List.map draw (seq k (k' - k)), w') /\
    io_world w' k' /\ worker_task t /\
    turns_left t = remaining /\
    (k' + (ops - remaining) = k + drawn t)%nat /\ (k <= k')%nat.
Proof.
  intros (Hp & Hr & xs & Hl) Hlt. simpl.
  unfold bind at 1, perf_counter at 1.
  set (w1 := World (mem w) (clock w) (S (reads w))).
  assert (Happ : list_append op_latencies (clock w (reads w) - start)%Q w1
                 = (Ok tt, set_mem (<[op_latencies :=
                      OList (xs ++ [(clock w (reads w) - start)%Q])]> (mem w)) w1)).
  { unfold list_append.
    rewrite (bind_run _ _ _ _ _ (read_list_run _ _ w1 Hl)).
    unfold write_list. simpl. now rewrite Hl. }
  rewrite (bind_run _ _ _ _ _ Happ).
  set (w2 := set_mem _ w1).
  assert (Hw2 : io_world w2 k).
  { repeat split; simpl.
    - now rewrite lookup_insert_ne by congruence.
    - now rewrite lookup_insert_ne by congruence.
    - eexists. apply lookup_insert_eq. }
  destruct remaining as [|r].
  - simpl. exists (Exited (Ok VNone)), w2, k. rewrite Nat.sub_diag. simpl.
    split; [reflexivity|]. split; [eassumption|]. repeat split; lia.
  - destruct (worker_loop_next r w2 k Hw2) as (start' & w' & -> & Hw').
    exists (Live (WorkerSleeping start' r) false), w', (S k).
    replace (S k - k)%nat with 1%nat by lia. simpl.
    split; [reflexivity|]. split; [eassumption|]. repeat split; lia.
Qed.

Lemma resume_worker u w k :
  io_world w k -> worker_task (Live u false) ->
  exists t w' k',
    (let '(r, w1) := resume the_worker u w in
     match r with
     | Ok (Suspend d u) => Some (Live u false, [d], w1)
     | Ok (Return v) => Some (Exited (Ok v), [], w1)
     | Err _ => None
     end) = Some (t, List.map draw (seq k (k' - k)), w') /\
    io_world w' k' /\ worker_task t /\
    S (turns_left t) = turns_left (Live u false) /\
    (k' + drawn (Live u false) = k + drawn t)%nat /\ (k <= k')%nat.
Proof.
  intros Hw Hu. destruct u as [|start remaining].
  - destruct (resume_start w k Hw) as (t & w' & k' & H & Hw' & Ht & Hl & Hk & Hle).
    exists t, w', k'. split; [exact H|]. split; [exact Hw'|].
    split; [exact Ht|]. simpl. repeat split; lia.
  - destruct Hu as [_ Hlt].
    destruct (resume_sleeping start remaining w k Hw Hlt)
      as (t & w' & k' & H & Hw' & Ht & Hl & Hk & Hle).
    exists t, w', k'. split; [exact H|]. split; [exact Hw'|].
    split; [exact Ht|]. simpl. repeat split; lia.
Qed.

Fixpoint total_drawn (ts : list task) : nat :=
  match ts with
  | [] => 0
  | t :: ts' => drawn t + total_drawn ts'
  end.

Definition turns_left_at (ts : list task) (i : nat) : nat :=
  match ts !! i with Some t => turns_left t | None => 0 end.

(** The run so far: [k] delays drawn, as the trace and the generator agree. *)
Definition io_inv (p : pool) : Prop :=
  exists k, io_world (shared p) k /\ Forall worker_task (tasks p) /\
            k = total_drawn (tasks p) /\
            delays (trace p) = List.map draw (seq 0 k).

Lemma total_drawn_insert (ts : list task) i t0 t :
  ts !! i = Some t0 ->
  (total_drawn (<[i := t]> ts) + drawn t0 = total_drawn ts + drawn t)%nat.
Proof.
  revert i. induction ts as [|t1 ts IH]; intros [|i] H; try discriminate.
  - injection H as ->. simpl. lia.
  - specialize (IH i H). simpl. lia.
Qed.

Lemma delays_app (tr1 tr2 : list (event (V:=value))) :
  delays (tr1 ++ tr2) = delays tr1 ++ delays tr2.
Proof. unfold delays. now rewrite flat_map_app. Qed.

Lemma draws_extend k k' :
  (k <= k')%nat ->
  List.map draw (seq 0 k) ++ List.map draw (seq k (k' - k))
  = List.map draw (seq 0 k').
Proof.
  intros H. rewrite <- List.map_app, <- seq_app. f_equal. f_equal. lia.
Qed.

Lemma turns_left_at_insert (ts : list task) i j t :
  (i < length ts)%nat ->
  turns_left_at (<[i := t]> ts) j
  = if decide (i = j) then turns_left t else turns_left_at ts j.
Proof.
  intros Hi. unfold turns_left_at. destruct (decide (i = j)) as [->|Hij].
  - now rewrite list_lookup_insert_eq.
  - now rewrite list_lookup_insert_ne.
Qed.

(** One turn of the run. *)
Lemma turn_io i (p : pool) :
  io_inv p ->
  io_inv (fst (turn the_worker i p)) /\
  forall j, turns_left_at (tasks (fst (turn the_worker i p))) j
            = if decide (i = j) then pred (turns_left_at (tasks p) j)
              else turns_left_at (tasks p) j.
Proof.
  intros (k & Hw & Hts & Hk & Hd).
  assert (Hidle : turn the_worker i p = (p, None) ->
                  turns_left_at (tasks p) i = 0%nat ->
                  io_inv (fst (turn the_worker i p)) /\
                  forall j, turns_left_at (tasks (fst (turn the_worker i p))) j
                            = if decide (i = j) then pred (turns_left_at (tasks p) j)
                              else turns_left_at (tasks p) j).
  { intros -> H0. split; [now exists k|].
    intros j. simpl. destruct (decide (i = j)) as [<-|]; [now rewrite H0|reflexivity]. }
  destruct (tasks p !! i) as [[u c|o]|] eqn:E.
  - pose proof (proj1 (Forall_lookup _ _) Hts i _ E) as Hu.
    assert (c = false) as -> by (destruct u; simpl in Hu; tauto).
    destruct (resume_worker u (shared p) k Hw Hu)
      as (t & w' & k' & Hres & Hw' & Ht & Hleft & Hk' & Hle).
    pose proof (lookup_lt_Some _ _ _ E) as Hlt.
    pose proof (total_drawn_insert _ _ _ t E) as Hsum.
    assert (Hturn : exists evs,
              fst (turn the_worker i p)
              = Pool (<[i := t]> (tasks p)) w' (trace p ++ evs) /\
              delays evs = List.map draw (seq k (k' - k))).
    { unfold turn. rewrite E.
      destruct (resume the_worker u (shared p)) as [[[d u'|v]|e] w1];
        simpl in Hres.
      - injection Hres as <- Hds <-. exists [Slept i d].
        split; [reflexivity|]. exact Hds.
      - injection Hres as <- Hds <-. exists [Exit i (Ok v)].
        split; [reflexivity|]. exact Hds.
      - discriminate. }
    destruct Hturn as (evs & -> & Hevs). simpl. split.
    + exists k'. simpl. split; [assumption|]. split.
      * apply Forall_insert; assumption.
      * split; [lia|]. rewrite delays_app, Hd, Hevs. apply draws_extend. lia.
    + intros j. rewrite turns_left_at_insert by assumption.
      destruct (decide (i = j)) as [<-|]; [|reflexivity].
      unfold turns_left_at. rewrite E. lia.
  - apply Hidle; [unfold turn; now rewrite E|].
    unfold turns_left_at. now rewrite E.
  - apply Hidle; [unfold turn; now rewrite E|].
    unfold turns_left_at. now rewrite E.
Qed.

Lemma free_run_io sched (p : pool) :
  io_inv p ->
  io_inv (free_run the_worker sched p) /\
  forall j, turns_left_at (tasks (free_run the_worker sched p)) j
            = (turns_left_at (tasks p) j - count_occ Nat.eq_dec sched j)%nat.
Proof.
  revert p. induction sched as [|i s IH]; intros p Hinv; simpl.
  - split; [assumption|]. intros j. lia.
  - destruct (turn_io i p Hinv) as [Hinv' Hleft].
    destruct (IH _ Hinv') as [Hfin Hleft']. split; [assumption|].
    intros j. rewrite Hleft', Hleft.
    destruct (decide (i = j)) as [->|Hij].
    + destruct (Nat.eq_dec j j); [lia|congruence].
    + destruct (Nat.eq_dec i j); [congruence|reflexivity].
Qed.

Lemma finished_tasks (ts : list task) :
  Forall worker_task ts -> (forall j, turns_left_at ts j = 0%nat) ->
  results_of ts = Some (replicate (length ts) VNone) /\
  total_drawn ts = (length ts * ops)%nat.
Proof.
  induction ts as [|t ts IH]; intros Hwt Hleft; [now split|].
  inversion Hwt as [|? ? Ht Hts]; subst.
  pose proof (Hleft 0%nat) as H0. unfold turns_left_at in H0. simpl in H0.
  destruct t as [[|start r] c|o]; try discriminate.
  simpl in Ht. subst o.
  destruct IH as [Hres Hsum]; [assumption|intros j; apply (Hleft (S j))|].
  simpl. rewrite Hres, Hsum. split; [reflexivity|lia].
Qed.

Lemma io_world_perf_counter w k :
  io_world w k -> io_world (snd (perf_counter w)) k.
Proof. intros (Hp & Hr & xs & Hl). repeat split; simpl; eauto. Qed.

(** The workers of a run, under a schedule that lets them finish: all
    return, and the delays they drew are the first
    concurrency * ops_per_worker draws of the generator, in order. *)
Lemma io_bound_spawn_spec sched w :
  io_world w 0 ->
  lets_workers_finish concurrency ops_per_worker sched ->
  exists vs (p : pool) k,
    io_bound_spawn expovariate_value b params rng op_latencies sched w
    = (Some (Ok vs), p) /\
    io_world (shared p) k /\
    delays (trace p)
    = List.map draw (seq 0 (Z.to_nat concurrency * Z.to_nat ops_per_worker)).
Proof.
  intros Hw Hfair. pose proof Hw as (Hp & _).
  unfold io_bound_spawn.
  rewrite (bind_run _ _ _ _ _ (getattr_run _ _ "concurrency" _ _ Hp eq_refl)).
  unfold as_int.
  set (p0 := create_tasks (V:=value) (fun _ => WorkerStart) concurrency w).
  assert (Hinv0 : io_inv p0).
  { exists 0%nat. split; [exact Hw|]. split; [|split].
    - apply Forall_forall. intros t Ht. simpl in Ht.
      apply list_elem_of_fmap in Ht as (i & -> & _). reflexivity.
    - simpl. induction (range concurrency); simpl; auto.
    - simpl. induction (range concurrency); simpl; auto. }
  destruct (free_run_io sched p0 Hinv0) as [(k & Hwk & Hts & Hk & Hd) Hleft].
  assert (Hlen : length (tasks (free_run the_worker sched p0))
                 = Z.to_nat concurrency).
  { rewrite free_run_length. subst p0. simpl.
    now rewrite length_map, length_range. }
  assert (Hzero : forall j,
            turns_left_at (tasks (free_run the_worker sched p0)) j = 0%nat).
  { intros j. rewrite Hleft. unfold turns_left_at at 1. subst p0. simpl.
    rewrite list_lookup_fmap. unfold range.
    destruct (decide (j < Z.to_nat concurrency)%nat) as [Hlt|Hge].
    - rewrite lookup_seq_lt by assumption. simpl.
      specialize (Hfair j Hlt). unfold ops. lia.
    - rewrite lookup_seq_ge by lia. reflexivity. }
  destruct (finished_tasks _ Hts Hzero) as [Hres Hsum].
  exists (replicate (length (tasks (free_run the_worker sched p0))) VNone),
         (free_run the_worker sched p0), k.
  split; [|split].
  - now apply (spawn_many_free_run the_worker VNone).
  - assumption.
  - rewrite Hd, Hk, Hsum, Hlen. reflexivity.
Qed.

End Workers.

Import Samples.

Lemma io_bound_setup_run params c o m seed w :
  mem w !! params = Some (ODict (IOBoundParams c o m seed)) ->
  exists rng op_latencies w1,
    io_bound_setup (Some params) w = (Ok (params, rng, op_latencies), w1) /\
    io_world params rng op_latencies c o m seed w1 0 /\
    params <> rng /\ params <> op_latencies /\ rng <> op_latencies.
Proof.
  intros Hp. unfold io_bound_setup, or_default.
  unfold bind at 1, ret at 1.
  rewrite (bind_run _ _ _ _ _ (getattr_run _ _ "seed" _ _ Hp eq_refl)).
  unfold as_int at 1. unfold bind at 1, ret at 1.
  unfold Random. rewrite (bind_run _ _ _ _ _ (alloc_run _ w)).
  set (rng := fresh (dom (mem w))).
  set (w1 := set_mem (<[rng := ORandom seed 0]> (mem w)) w).
  rewrite (bind_run _ _ _ _ _ (alloc_run _ w1)).
  set (lat := fresh (dom (mem w1))).
  assert (Hpr : params <> rng) by (now apply fresh_other with (ODict (IOBoundParams c o m seed))).
  assert (Hr1 : mem w1 !! rng = Some (ORandom seed 0)) by apply lookup_insert_eq.
  assert (Hp1 : mem w1 !! params = Some (ODict (IOBoundParams c o m seed)))
    by (subst w1; simpl; now rewrite lookup_insert_ne by congruence).
  assert (Hrl : rng <> lat) by (now apply fresh_other with (ORandom seed 0)).
  assert (Hpl : params <> lat)
    by (now apply fresh_other with (ODict (IOBoundParams c o m seed))).
  exists rng, lat, (set_mem (<[lat := OList []]> (mem w1)) w1).
  split; [reflexivity|]. split; [|auto].
  repeat split; simpl.
  - now rewrite lookup_insert_ne by congruence.
  - now rewrite lookup_insert_ne by congruence.
  - exists []. apply lookup_insert_eq.
Qed.

(** One run of the scenario with valid params, under any backend and any
    schedule that lets the workers finish. *)
Lemma run_io_bound_spec expovariate_value b params c o m seed sched w :
  (0 < m)%Q ->
  (forall sd k lambd, (0 < lambd)%Q -> (0 <= expovariate_value sd k lambd)%Q) ->
  mem w !! params = Some (ODict (IOBoundParams c o m seed)) ->
  lets_workers_finish c o sched ->
  io_bound_delays expovariate_value b (Some params) sched w
  = List.map (draw expovariate_value m seed) (seq 0 (Z.to_nat c * Z.to_nat o)) /\
  exists l w',
    run_io_bound expovariate_value b (Some params) sched w = (Some (Ok l), w').
Proof.
  intros Hm Hev Hp Hfair.
  destruct (io_bound_setup_run params c o m seed w Hp)
    as (rng & lat & w1 & Hsetup & Hw1 & Hpr & Hpl & Hrl).
  pose proof (io_world_perf_counter _ _ _ _ _ _ _ _ _ Hw1) as Hw2.
  destruct (io_bound_spawn_spec expovariate_value b params rng lat c o m seed
              Hm Hev Hpr Hpl Hrl sched _ Hw2 Hfair)
    as (vs & p & k & Hspawn & Hwp & Hd).
  split.
  - unfold io_bound_delays. rewrite Hsetup.
    destruct (perf_counter w1) as [r w2] eqn:Hpc. simpl in Hspawn.
    now rewrite Hspawn.
  - unfold run_io_bound, abind, lift. rewrite Hsetup.
    unfold awaited. simpl in Hspawn |- *. rewrite Hspawn. simpl.
    destruct Hwp as (Hpp & _ & xs & Hlp).
    set (w3 := World (mem (shared p)) (clock (shared p)) (S (reads (shared p)))).
    destruct (io_bound_metrics_run w3 params lat c o m seed xs
                (clock (shared p) (reads (shared p)) - clock w1 (reads w1))%Q
                Hpp Hlp) as (l & w' & d & -> & _).
    eauto.
Qed.


Lemma sample_expovariate_nonneg sd k lambd :
  (0 < lambd)%Q -> (0 <= sample_expovariate sd k lambd)%Q.
Proof.
  intros H. unfold sample_expovariate.
  apply Qle_shift_div_l; [assumption|]. rewrite Qmult_0_l.
  change 0%Q with (inject_Z 0). rewrite <- Zle_Qle. lia.
Qed.


(** The delays of the witness, as both executions draw them. *)
Example io_bound_delays_sample :
  io_bound_delays sample_expovariate Trio (Some 5%positive)
    [1; 1; 1; 0; 0; 0; 1]%nat io_world_2
  = List.map (draw sample_expovariate 5 1337) [0; 1; 2; 3]%nat.
Proof. reflexivity. Qed.

End IOFacts.

(* ===================================================================== *)
(** * Who may change an object                                            *)
(* ===================================================================== *)

Module FrameFacts.
Import PyFacts Utils UtilsFacts MetricsFacts Backends SpawnFacts StormFacts
       Benchmarks.

(** Every object of [w] is still there, unchanged, in [w']. *)
Definition preserves (w w' : world) : Prop :=
  forall l o, mem w !! l = Some o -> mem w' !! l = Some o.

Lemma preserves_refl w : preserves w w.
Proof. now intros l o. Qed.

Lemma preserves_trans w1 w2 w3 :
  preserves w1 w2 -> preserves w2 w3 -> preserves w1 w3.
Proof. intros H12 H23 l o H. auto. Qed.

Lemma preserves_fresh w0 w l :
  preserves w0 w -> l = fresh (dom (mem w)) -> mem w0 !! l = None.
Proof.
  intros Hp ->. destruct (mem w0 !! fresh (dom (mem w))) as [o|] eqn:E;
    [|reflexivity].
  apply Hp in E. now rewrite fresh_unused in E.
Qed.

(** Sequential code that creates objects and changes none. *)
Definition mono {A} (m : M A) : Prop :=
  forall w r w', m w = (r, w') -> preserves w w'.

(** Code that leaves the objects of [w0] alone: it may change the objects
    created since. *)
Definition framed {A} (w0 : world) (m : M A) : Prop :=
  forall w r w', preserves w0 w -> m w = (r, w') -> preserves w0 w'.

Lemma mono_framed {A} w0 (m : M A) : mono m -> framed w0 m.
Proof.
  intros Hm w r w' Hp H. eapply preserves_trans; [exact Hp|]. eapply Hm, H.
Qed.

Lemma mono_ret {A} (a : A) : mono (ret a).
Proof. intros w r w' [= <- <-]. apply preserves_refl. Qed.

Lemma mono_raise {A} e : mono (raise (A:=A) e).
Proof. intros w r w' [= <- <-]. apply preserves_refl. Qed.

Lemma mono_bind {A B} (m : M A) (k : A -> M B) :
  mono m -> (forall a, mono (k a)) -> mono (bind m k).
Proof.
  intros Hm Hk w r w'. unfold bind.
  destruct (m w) as [[a|e] w1] eqn:E.
  - intros H. eapply preserves_trans; [eapply Hm, E|eapply Hk, H].
  - intros [= <- <-]. eapply Hm, E.
Qed.

Lemma mono_of_result {A} (r : result A) : mono (of_result r).
Proof. destruct r; [apply mono_ret|apply mono_raise]. Qed.

Lemma mono_perf_counter : mono perf_counter.
Proof. intros w r w' [= <- <-]. now intros l o. Qed.

Lemma mono_alloc o : mono (alloc o).
Proof.
  intros w r w' [= <- <-] l o' H. simpl.
  rewrite lookup_insert_ne; [assumption|].
  intros Heq. symmetry in Heq. revert Heq. now apply fresh_other with o'.
Qed.

Lemma mono_read_list l : mono (read_list l).
Proof.
  intros w r w'. unfold read_list.
  destruct (mem w !! l) as [[xs|d|sd k]|]; intros [= <- <-];
    apply preserves_refl.
Qed.

Lemma mono_read_dict l : mono (read_dict l).
Proof.
  intros w r w'. unfold read_dict.
  destruct (mem w !! l) as [[xs|d|sd k]|]; intros [= <- <-];
    apply preserves_refl.
Qed.

Lemma mono_getattr l k : mono (getattr l k).
Proof.
  apply mono_bind; [apply mono_read_dict|]. intros d.
  destruct (dict_get k d); [apply mono_ret|apply mono_raise].
Qed.

Lemma mono_as_int v : mono (as_int v).
Proof. destruct v; first [apply mono_ret|apply mono_raise]. Qed.

Lemma mono_as_float v : mono (as_float v).
Proof. destruct v; first [apply mono_ret|apply mono_raise]. Qed.

Lemma mono_sleep b d : mono (sleep b d).
Proof.
  destruct b; simpl; try apply mono_ret.
  destruct (Qle_bool 0 d); [apply mono_ret|apply mono_raise].
Qed.

Lemma mono_percentile values pct : mono (percentile values pct).
Proof.
  intros w r w' H.
  destruct (mem w !! values) as [[xs|d|sd k]|] eqn:E.
  - rewrite (percentile_run _ _ _ _ E) in H. injection H as <- <-.
    intros l o. apply with_copy_frame.
  - unfold percentile, bind, list_of, bind, read_list in H. rewrite E in H.
    injection H as <- <-. apply preserves_refl.
  - unfold percentile, bind, list_of, bind, read_list in H. rewrite E in H.
    injection H as <- <-. apply preserves_refl.
  - unfold percentile, bind, list_of, bind, read_list in H. rewrite E in H.
    injection H as <- <-. apply preserves_refl.
Qed.

Lemma mono_mean values : mono (mean values).
Proof.
  intros w r w' H.
  destruct (mem w !! values) as [[xs|d|sd k]|] eqn:E.
  - rewrite (mean_run _ _ _ E) in H. injection H as <- <-.
    intros l o. apply with_copy_frame.
  - unfold mean, bind, list_of, bind, read_list in H. rewrite E in H.
    injection H as <- <-. apply preserves_refl.
  - unfold mean, bind, list_of, bind, read_list in H. rewrite E in H.
    injection H as <- <-. apply preserves_refl.
  - unfold mean, bind, list_of, bind, read_list in H. rewrite E in H.
    injection H as <- <-. apply preserves_refl.
Qed.

(** Writing to an object that [w0] does not have. *)
Lemma framed_write w0 l o (w : world) :
  mem w0 !! l = None -> preserves w0 w ->
  preserves w0 (set_mem (<[l := o]> (mem w)) w).
Proof.
  intros Hl Hp l' o' H. simpl.
  rewrite lookup_insert_ne; [now apply Hp|]. congruence.
Qed.

Lemma framed_bind {A B} w0 (m : M A) (k : A -> M B) :
  framed w0 m -> (forall a, framed w0 (k a)) -> framed w0 (bind m k).
Proof.
  intros Hm Hk w r w' Hp. unfold bind.
  destruct (m w) as [[a|e] w1] eqn:E.
  - intros H. eapply Hk; [|exact H]. eapply Hm; eassumption.
  - intros [= <- <-]. eapply Hm; eassumption.
Qed.

Lemma framed_write_list w0 l xs :
  mem w0 !! l = None -> framed w0 (write_list l xs).
Proof.
  intros Hl w r w' Hp. unfold write_list.
  destruct (mem w !! l) as [[ys|d|sd k]|]; intros [= <- <-]; try assumption.
  now apply framed_write.
Qed.

Lemma framed_write_dict w0 l d :
  mem w0 !! l = None -> framed w0 (write_dict l d).
Proof.
  intros Hl w r w' Hp. unfold write_dict.
  destruct (mem w !! l) as [[ys|d'|sd k]|]; intros [= <- <-]; try assumption.
  now apply framed_write.
Qed.

Lemma framed_list_append w0 l x :
  mem w0 !! l = None -> framed w0 (list_append l x).
Proof.
  intros Hl. apply framed_bind; [apply mono_framed, mono_read_list|].
  intros xs. now apply framed_write_list.
Qed.

Lemma framed_update w0 l other :
  mem w0 !! l = None -> framed w0 (update l other).
Proof.
  intros Hl. apply framed_bind; [apply mono_framed, mono_read_dict|].
  intros d. now apply framed_write_dict.
Qed.

Lemma framed_setitem w0 l k v :
  mem w0 !! l = None -> framed w0 (setitem l k v).
Proof.
  intros Hl. apply framed_bind; [apply mono_framed, mono_read_dict|].
  intros d. now apply framed_write_dict.
Qed.

(** ** Units that leave the objects of [w0] alone *)

Section Units.
Context {U V : Type}.
Variable code : coroutine (U:=U) (V:=V).
Variable w0 : world.

Hypothesis resume_framed : forall u, framed w0 (resume code u).
Hypothesis on_cancel_framed : forall u, framed w0 (on_cancel code u).

#[local] Abbreviation pool := (pool (U:=U) (V:=V)).

(** The pool's world still has the objects of [w0]. *)
Definition kept (p : pool) : Prop := preserves w0 (shared p).

Lemma turn_kept i (p : pool) : kept p -> kept (fst (turn code i p)).
Proof.
  unfold kept, turn. intros Hp.
  destruct (tasks p !! i) as [[u [|]|o]|]; simpl; try assumption.
  - destruct (on_cancel code u (shared p)) as [o w] eqn:E. simpl.
    eapply on_cancel_framed; eassumption.
  - destruct (resume code u (shared p)) as [[[d u'|v]|e] w] eqn:E; simpl;
      eapply resume_framed; eassumption.
Qed.

Lemma free_run_kept sched (p : pool) : kept p -> kept (free_run code sched p).
Proof.
  revert p. induction sched as [|i s IH]; intros p Hp; simpl; [assumption|].
  apply IH. now apply turn_kept.
Qed.

Lemma gather_kept sched (p : pool) :
  kept p -> kept (snd (gather code sched p)).
Proof.
  revert p. induction sched as [|i s IH]; intros p Hp; simpl.
  - now destruct (results_of (tasks p)).
  - destruct (results_of (tasks p)); [assumption|].
    pose proof (turn_kept i p Hp) as H.
    destruct (turn code i p) as [p' [[v|e]|]]; simpl in *; auto.
Qed.

Lemma gather_return_exceptions_kept sched (p : pool) :
  kept p -> kept (snd (gather_return_exceptions code sched p)).
Proof.
  revert p. induction sched as [|i s IH]; intros p Hp; simpl.
  - now destruct (outcomes_of (tasks p)).
  - destruct (outcomes_of (tasks p)); [assumption|].
    apply IH. now apply turn_kept.
Qed.

Lemma abort_kept (p : pool) : kept p -> kept (abort p).
Proof. intros H. exact H. Qed.

Lemma cancel_all_kept targets (p : pool) :
  kept p -> kept (fold_left (fun q i => cancel i q) targets p).
Proof. unfold kept. now rewrite cancel_all_shared. Qed.

Lemma in_pool_kept {A} (m : M A) (p : pool) :
  framed w0 m -> kept p -> kept (snd (in_pool m p)).
Proof.
  intros Hm Hp. unfold kept, in_pool.
  destruct (m (shared p)) as [r w] eqn:E. simpl. eapply Hm; eassumption.
Qed.

(** What a storm hands back: the pool still has the objects of [w0], and
    the dict returned, if any, is a new object. *)
Definition storm_post (x : option (result loc) * pool) : Prop :=
  kept (snd x) /\ forall l, fst x = Some (Ok l) -> mem w0 !! l = None.

Lemma storm_return_post c e t (p : pool) :
  kept p -> storm_post (storm_return c e t p).
Proof.
  intros Hp. unfold storm_return, in_pool, perf_counter, alloc. simpl.
  split; simpl.
  - intros l o H. unfold kept. simpl.
    rewrite lookup_insert_ne; [now apply Hp|].
    intros Heq. symmetry in Heq. revert Heq.
    apply fresh_other with o. now apply Hp.
  - intros l [= <-]. now apply preserves_fresh with (shared p).
Qed.

Lemma no_dict_post (r : option (result loc)) (p : pool) :
  kept p -> (forall l, r <> Some (Ok l)) -> storm_post (r, p).
Proof. intros Hp Hr. split; [exact Hp|]. intros l H. now apply Hr in H. Qed.

Section Nursery.
Context {R : Type}.
Variable on_turn : nat -> R -> R.
Variable on_exit : nat -> result V -> R -> R.

Lemma runner_turn_kept i r (p : pool) :
  kept p -> kept (snd (fst (runner_turn code on_turn on_exit i r p))).
Proof.
  intros Hp. unfold runner_turn. pose proof (turn_kept i p Hp) as H.
  destruct (turn code i p) as [p' [o|]]; exact H.
Qed.

Lemma during_kept sched r (p : pool) :
  kept p -> kept (snd (fst (during code on_turn on_exit r sched p))).
Proof.
  revert r p. induction sched as [|i s IH]; intros r p Hp; simpl;
    [assumption|].
  pose proof (runner_turn_kept i r p Hp) as H.
  destruct (runner_turn code on_turn on_exit i r p) as [[r' p'] [e|]];
    simpl in *; [assumption|now apply IH].
Qed.

Lemma join_kept sched failed r (p : pool) :
  kept p -> kept (snd (join code on_turn on_exit failed r sched p)).
Proof.
  revert failed r p. induction sched as [|i s IH]; intros failed r p Hp; simpl.
  - now destruct (all_exited (tasks p)).
  - destruct (all_exited (tasks p)); [assumption|].
    pose proof (runner_turn_kept i r p Hp) as H.
    destruct (runner_turn code on_turn on_exit i r p) as [[r' p'] [e|]];
      simpl in *.
    + destruct failed; apply IH; assumption.
    + now apply IH.
Qed.
End Nursery.

Lemma spawn_many_kept none b count (fn : nat -> U) sched w :
  preserves w0 w ->
  kept (snd (spawn_many code none b count fn sched w)).
Proof.
  intros Hw.
  assert (H0 : kept (create_tasks (V:=V) fn count w)) by exact Hw.
  destruct b; simpl.
  - now apply gather_kept.
  - unfold TrioBackend_spawn_many, group_spawn_many.
    pose proof (join_kept (fun _ r => r) spawn_runner_exit sched None
                  (replicate (Z.to_nat count) none) _ H0) as H.
    now destruct (join _ _ _ _ _ _ _) as [[[[e|]|] r] p].
  - unfold AnyioBackend_spawn_many, group_spawn_many.
    pose proof (join_kept (fun _ r => r) spawn_runner_exit sched None
                  (replicate (Z.to_nat count) none) _ H0) as H.
    now destruct (join _ _ _ _ _ _ _) as [[[[e|]|] r] p].
Qed.

Lemma group_storm_post on_turn targets (sleeping : M unit) n
    (fn : nat -> U) s w :
  framed w0 sleeping -> preserves w0 w ->
  storm_post (group_cancellation_storm code on_turn targets sleeping n fn s w).
Proof.
  intros Hsl Hw. unfold group_cancellation_storm.
  set (p0 := create_tasks fn n w).
  assert (H0 : kept p0) by exact Hw.
  assert (Hfail : forall e t p, kept p ->
            storm_post (match join code on_turn storm_runner_exit (Some e) t
                                   (after_signal s) p with
                        | (None, _, p') => (@None (result loc), p')
                        | (Some _, _, p') => (Some (Err e), p')
                        end)).
  { intros e t p Hp.
    pose proof (join_kept on_turn storm_runner_exit (after_signal s)
                  (Some e) t p Hp) as Hj.
    destruct (join code on_turn storm_runner_exit (Some e) t
                (after_signal s) p) as [[[f|] t'] p'];
      apply no_dict_post; try assumption; discriminate. }
  pose proof (in_pool_kept sleeping p0 Hsl H0) as H1.
  destruct (in_pool sleeping p0) as [[[]|e] p1]; simpl in H1;
    [|now apply Hfail].
  pose proof (during_kept on_turn storm_runner_exit (before_signal s)
                (Tally 0 0 []) p1 H1) as H2.
  destruct (during code on_turn storm_runner_exit (Tally 0 0 [])
              (before_signal s) p1) as [[t1 p2] [e|]]; simpl in H2;
    [now apply Hfail|].
  pose proof (in_pool_kept perf_counter p2
                (mono_framed _ _ mono_perf_counter) H2) as H3.
  destruct (in_pool perf_counter p2) as [[cancel_start|e] p3]; simpl in H3;
    [|now apply Hfail].
  pose proof (join_kept on_turn storm_runner_exit (after_signal s) None t1 _
                (cancel_all_kept (targets t1) p3 H3)) as H5.
  destruct (join code on_turn storm_runner_exit None t1 (after_signal s) _)
    as [[[[e|]|] t2] p5]; simpl in H5; cbv beta iota.
  - apply no_dict_post; [assumption|discriminate].
  - now apply storm_return_post.
  - apply no_dict_post; [assumption|discriminate].
Qed.

Lemma cancellation_storm_post b n ca (fn : nat -> U) s w :
  preserves w0 w ->
  storm_post (cancellation_storm code b n ca fn s w).
Proof.
  intros Hw. destruct b; simpl.
  - unfold AsyncioBackend_cancellation_storm.
    set (p0 := create_tasks fn n w).
    assert (H0 : kept p0) by exact Hw.
    pose proof (free_run_kept (before_signal s) p0 H0) as H1.
    pose proof (in_pool_kept perf_counter _
                  (mono_framed _ _ mono_perf_counter) H1) as H2.
    destruct (in_pool perf_counter _) as [[cancel_start|e] p2]; simpl in H2;
      [|apply no_dict_post; [assumption|discriminate]].
    pose proof (gather_return_exceptions_kept (after_signal s) _
                  (cancel_all_kept (range n) p2 H2)) as H4.
    destruct (gather_return_exceptions code (after_signal s) _)
      as [[results|] p4]; simpl in H4; cbv beta iota.
    + now apply storm_return_post.
    + apply no_dict_post; [assumption|discriminate].
  - apply group_storm_post; [apply mono_framed, mono_sleep|assumption].
  - apply group_storm_post; [apply mono_framed, mono_sleep|assumption].
Qed.

End Units.

(** ** The scenarios *)

(** Awaiting code that leaves the objects of [w0] alone. *)
Definition aframed {A} (w0 : world) (m : Async A) : Prop :=
  forall w r w', preserves w0 w -> m w = (r, w') -> preserves w0 w'.

Lemma aframed_lift {A} w0 (m : M A) : framed w0 m -> aframed w0 (lift m).
Proof.
  intros Hm w r w' Hp. unfold lift. destruct (m w) as [r0 w1] eqn:E.
  intros [= <- <-]. eapply Hm; eassumption.
Qed.

Lemma aframed_bind_post {A B} w0 (m : Async A) (k : A -> Async B)
    (Q : A -> Prop) :
  aframed w0 m ->
  (forall w a w', preserves w0 w -> m w = (Some (Ok a), w') -> Q a) ->
  (forall a, Q a -> aframed w0 (k a)) ->
  aframed w0 (abind m k).
Proof.
  intros Hm HQ Hk w r w' Hp. unfold abind.
  destruct (m w) as [[[a|e]|] w1] eqn:E.
  - intros H. eapply (Hk a); [eapply HQ; eassumption| |exact H].
    eapply Hm; eassumption.
  - intros [= <- <-]. eapply Hm; eassumption.
  - intros [= <- <-]. eapply Hm; eassumption.
Qed.

Lemma aframed_bind {A B} w0 (m : Async A) (k : A -> Async B) :
  aframed w0 m -> (forall a, aframed w0 (k a)) -> aframed w0 (abind m k).
Proof.
  intros Hm Hk. apply aframed_bind_post with (Q := fun _ => True); auto.
Qed.

(** A new object is not one of [w0]. *)
Lemma aframed_alloc_post w0 o w l w' :
  preserves w0 w -> lift (alloc o) w = (Some (Ok l), w') ->
  mem w0 !! l = None.
Proof.
  intros Hp [= <- <-]. now apply preserves_fresh with w.
Qed.

Lemma mono_or_default params default : mono (or_default params default).
Proof. destruct params; [apply mono_ret|apply mono_alloc]. Qed.

Ltac mono_step :=
  first [ apply mono_ret | apply mono_raise | apply mono_perf_counter
        | apply mono_alloc | apply mono_getattr | apply mono_as_int
        | apply mono_as_float | apply mono_of_result | apply mono_sleep
        | apply mono_percentile | apply mono_mean | apply mono_read_dict
        | apply mono_read_list | apply mono_or_default ].

Ltac mono_solve :=
  repeat first [ mono_step | apply mono_bind; [|intros ?] ].

Lemma mono_task_spawn_metrics params latencies elapsed :
  mono (task_spawn_metrics params latencies elapsed).
Proof.
  unfold task_spawn_metrics. mono_solve.
  destruct (truthy elapsed); mono_solve.
Qed.

Lemma mono_io_bound_metrics params op_latencies elapsed :
  mono (io_bound_metrics params op_latencies elapsed).
Proof.
  unfold io_bound_metrics. mono_solve.
  destruct (truthy elapsed); mono_solve.
Qed.

Lemma run_one_framed w0 b params latencies :
  mem w0 !! latencies = None ->
  (forall u, framed w0 (resume (run_one b params latencies) u)) /\
  (forall u, framed w0 (on_cancel (run_one b params latencies) u)).
Proof.
  intros Hl. split; intros u; simpl.
  - destruct u as [|start].
    + apply mono_framed. mono_solve.
    + apply framed_bind; [apply mono_framed, mono_perf_counter|]. intros t.
      apply framed_bind; [now apply framed_list_append|]. intros _.
      apply mono_framed, mono_ret.
  - apply mono_framed, mono_raise.
Qed.

Lemma long_task_framed w0 b :
  (forall u, framed w0 (resume (_long_task b) u)) /\
  (forall u, framed w0 (on_cancel (_long_task b) u)).
Proof.
  split; intros u; simpl; apply mono_framed; mono_solve.
Qed.

Lemma framed_expovariate expovariate_value w0 rng lambd :
  mem w0 !! rng = None -> framed w0 (expovariate expovariate_value rng lambd).
Proof.
  intros Hr w r w' Hp. unfold expovariate.
  destruct (mem w !! rng) as [[xs|d|sd k]|]; intros [= <- <-]; try assumption.
  now apply framed_write.
Qed.

Lemma worker_loop_framed expovariate_value w0 b params rng remaining :
  mem w0 !! rng = None ->
  framed w0 (worker_loop expovariate_value b params rng remaining).
Proof.
  intros Hr. destruct remaining as [|r]; simpl; [apply mono_framed, mono_ret|].
  apply framed_bind; [apply mono_framed, mono_getattr|]. intros v.
  apply framed_bind; [apply mono_framed, mono_as_float|]. intros m.
  apply framed_bind; [apply mono_framed, mono_of_result|]. intros lambd.
  apply framed_bind; [now apply framed_expovariate|]. intros x.
  apply mono_framed. mono_solve.
Qed.

Lemma worker_framed expovariate_value w0 b params rng op_latencies :
  mem w0 !! rng = None -> mem w0 !! op_latencies = None ->
  (forall u, framed w0
     (resume (worker expovariate_value b params rng op_latencies) u)) /\
  (forall u, framed w0
     (on_cancel (worker expovariate_value b params rng op_latencies) u)).
Proof.
  intros Hr Hl. split; intros u; simpl.
  - destruct u as [|start remaining].
    + apply framed_bind; [apply mono_framed, mono_getattr|]. intros v.
      apply framed_bind; [apply mono_framed, mono_as_int|]. intros n.
      now apply worker_loop_framed.
    + apply framed_bind; [apply mono_framed, mono_perf_counter|]. intros t.
      apply framed_bind; [now apply framed_list_append|]. intros _.
      now apply worker_loop_framed.
  - apply mono_framed, mono_raise.
Qed.

(** Whatever its outcome, a scenario leaves every object that existed when
    it was called as it was: the params among them. *)
Lemma run_task_spawn_framed b params sched w :
  aframed w (run_task_spawn b params sched).
Proof.
  unfold run_task_spawn.
  apply aframed_bind; [apply aframed_lift, mono_framed, mono_or_default|].
  intros params'.
  apply aframed_bind_post with (Q := fun l => mem w !! l = None);
    [apply aframed_lift, mono_framed, mono_alloc
    |intros; eapply aframed_alloc_post; eassumption|].
  intros latencies Hl.
  apply aframed_bind; [apply aframed_lift, mono_framed, mono_perf_counter|].
  intros started.
  apply aframed_bind; [apply aframed_lift, mono_framed; mono_solve|].
  intros task_count.
  apply aframed_bind.
  - intros w1 r1 w1' Hp [= <- <-].
    destruct (run_one_framed w b params' latencies Hl) as [Hres Hcan].
    now apply (spawn_many_kept (run_one b params' latencies) w Hres Hcan).
  - intros _.
    apply aframed_bind; [apply aframed_lift, mono_framed, mono_perf_counter|].
    intros t. apply aframed_lift, mono_framed, mono_task_spawn_metrics.
Qed.

Lemma run_cancellation_framed b params s w :
  aframed w (run_cancellation b params s).
Proof.
  unfold run_cancellation.
  apply aframed_bind; [apply aframed_lift, mono_framed, mono_or_default|].
  intros params'.
  apply aframed_bind; [apply aframed_lift, mono_framed, mono_perf_counter|].
  intros launched_at.
  apply aframed_bind; [apply aframed_lift, mono_framed, mono_getattr|].
  intros tasks.
  apply aframed_bind; [apply aframed_lift, mono_framed, mono_as_int|].
  intros task_count.
  apply aframed_bind; [apply aframed_lift, mono_framed, mono_getattr|].
  intros cancel_after_s.
  apply aframed_bind; [apply aframed_lift, mono_framed, mono_as_float|].
  intros cancel_after.
  destruct (long_task_framed w b) as [Hres Hcan].
  apply aframed_bind_post with (Q := fun l => mem w !! l = None).
  - intros w1 r1 w1' Hp [= <- <-].
    now apply (cancellation_storm_post (_long_task b) w Hres Hcan).
  - intros w1 l w1' Hp. unfold awaited. intros [= Hfst Hsnd].
    now apply (cancellation_storm_post (_long_task b) w Hres Hcan
                 b task_count cancel_after (fun _ => tt) s w1 Hp).
  - intros result Hl.
    apply aframed_bind; [apply aframed_lift, mono_framed, mono_perf_counter|].
    intros finished_at.
    apply aframed_bind; [now apply aframed_lift, framed_update|].
    intros _. apply aframed_lift, mono_framed, mono_ret.
Qed.

Lemma io_bound_setup_post params w r w1 :
  io_bound_setup params w = (r, w1) ->
  preserves w w1 /\
  forall params' rng op_latencies, r = Ok (params', rng, op_latencies) ->
    mem w !! rng = None /\ mem w !! op_latencies = None.
Proof.
  unfold io_bound_setup. intros H.
  assert (Hmono : mono (io_bound_setup params))
    by (unfold io_bound_setup, Random; mono_solve).
  split; [eapply Hmono, H|].
  intros params' rng lat ->. revert H. unfold bind at 1.
  pose proof (mono_or_default params (IOBoundParams 200 200 5 1337) w) as Hd.
  destruct (or_default params _ w) as [[p|e] wa]; [|discriminate].
  specialize (Hd _ _ eq_refl).
  unfold bind at 1.
  pose proof (mono_getattr p "seed" wa) as Hg.
  destruct (getattr p "seed" wa) as [[v|e] wb]; [|discriminate].
  specialize (Hg _ _ eq_refl).
  unfold bind at 1.
  pose proof (mono_as_int v wb) as Hi.
  destruct (as_int v wb) as [[sd|e] wc]; [|discriminate].
  specialize (Hi _ _ eq_refl).
  assert (Hc : preserves w wc)
    by (eapply preserves_trans; [exact Hd|];
        eapply preserves_trans; eassumption).
  unfold Random, bind, alloc, ret. intros [= <- <- <- <-]. split.
  - now apply preserves_fresh with wc.
  - apply preserves_fresh with
      (set_mem (<[fresh (dom (mem wc)) := ORandom sd 0]> (mem wc)) wc);
      [|reflexivity].
    eapply preserves_trans; [exact Hc|]. eapply (mono_alloc _ wc). reflexivity.
Qed.

Lemma run_io_bound_framed expovariate_value b params sched w :
  aframed w (run_io_bound expovariate_value b params sched).
Proof.
  unfold run_io_bound.
  apply aframed_bind_post
    with (Q := fun x => mem w !! snd (fst x) = None /\ mem w !! snd x = None).
  - apply aframed_lift, mono_framed. unfold io_bound_setup, Random. mono_solve.
  - intros w1 [[params' rng] lat] w1' Hp H. unfold lift in H.
    destruct (io_bound_setup params w1) as [r0 w2] eqn:E.
    injection H as -> <-.
    destruct (io_bound_setup_post _ _ _ _ E) as [_ Hfresh].
    destruct (Hfresh _ _ _ eq_refl) as [Hr Hl]. simpl. split.
    + destruct (mem w !! rng) eqn:E1; [|reflexivity].
      apply Hp in E1. congruence.
    + destruct (mem w !! lat) eqn:E1; [|reflexivity].
      apply Hp in E1. congruence.
  - intros [[params' rng] lat] [Hr Hl]. simpl in Hr, Hl.
    apply aframed_bind; [apply aframed_lift, mono_framed, mono_perf_counter|].
    intros started.
    apply aframed_bind.
    + intros w1 r1 w1' Hp [= <- <-]. unfold io_bound_spawn.
      pose proof (mono_bind (getattr params' "concurrency") as_int
                    (mono_getattr _ _) mono_as_int w1) as Hg.
      destruct (bind (getattr params' "concurrency") as_int w1)
        as [[c|e] w2]; specialize (Hg _ _ eq_refl).
      * destruct (worker_framed expovariate_value w b params' rng lat Hr Hl)
          as [Hres Hcan].
        apply (spawn_many_kept _ w Hres Hcan).
        eapply preserves_trans; eassumption.
      * simpl. eapply preserves_trans; eassumption.
    + intros _.
      apply aframed_bind; [apply aframed_lift, mono_framed, mono_perf_counter|].
      intros t. apply aframed_lift, mono_framed, mono_io_bound_metrics.
Qed.

End FrameFacts.

(* ===================================================================== *)
(** * Facts about runner.py                                               *)
(* ===================================================================== *)

Module RunnerFacts.
Import PyFacts Utils UtilsFacts MetricsFacts Backends Benchmarks FrameFacts
       Runner.

Lemma setitem_run l d k v w :
  mem w !! l = Some (ODict d) ->
  setitem l k v w
  = (Ok tt, set_mem (<[l := ODict (dict_set k v d)]> (mem w)) w).
Proof.
  intros H. unfold setitem, bind, read_dict, write_dict.
  rewrite H. simpl. now rewrite H.
Qed.

Lemma read_dict_run l d w :
  mem w !! l = Some (ODict d) -> read_dict l w = (Ok d, w).
Proof. intros H. unfold read_dict. now rewrite H. Qed.

Lemma build_params_run args w :
  exists params w1,
    build_params args w = (Ok params, w1) /\ preserves w w1 /\
    forall sc, mem w1 !! params sc = Some (ODict (params_fields args sc)).
Proof.
  unfold build_params.
  rewrite (bind_run _ _ _ _ _ (alloc_run _ w)).
  set (ts := fresh (dom (mem w))).
  set (w1 := set_mem _ w).
  rewrite (bind_run _ _ _ _ _ (alloc_run _ w1)).
  set (io := fresh (dom (mem w1))).
  set (w2 := set_mem _ w1).
  rewrite (bind_run _ _ _ _ _ (alloc_run _ w2)).
  set (ca := fresh (dom (mem w2))).
  set (w3 := set_mem _ w2).
  assert (H1 : mem w1 !! ts = Some (ODict (params_fields args task_spawn)))
    by apply lookup_insert_eq.
  assert (H2 : mem w2 !! io = Some (ODict (params_fields args io_bound)))
    by apply lookup_insert_eq.
  assert (H12 : preserves w1 w2) by (eapply (mono_alloc _ w1); reflexivity).
  assert (H23 : preserves w2 w3) by (eapply (mono_alloc _ w2); reflexivity).
  do 2 eexists. split; [reflexivity|]. split.
  - eapply preserves_trans; [eapply (mono_alloc _ w); reflexivity|].
    eapply preserves_trans; eassumption.
  - intros [| |].
    + apply H23, H12, H1.
    + apply H23, H2.
    + apply lookup_insert_eq.
Qed.

Section Table.
Variable SCENARIOS : scenario -> BenchmarkFn.
Variable args : Namespace.

(** Every benchmark of the run returns its metrics, and changes none of
    the objects that existed when it was called. *)
Definition benchmarks_return : Prop :=
  forall lib sc p w0,
    In lib (libraries args) -> In sc (benchmarks args) ->
    mem w0 !! p = Some (ODict (params_fields args sc)) ->
    exists m w1, SCENARIOS sc lib p w0 = (Some (Ok m), w1) /\ preserves w0 w1.

Hypothesis table_ok : benchmarks_return.

(** The params objects are as build_params made them. *)
Definition params_intact (params : scenario -> loc) (w : world) : Prop :=
  forall sc, mem w !! params sc = Some (ODict (params_fields args sc)).

Lemma params_intact_preserved params w w' :
  preserves w w' -> params_intact params w -> params_intact params w'.
Proof. intros Hp H sc. apply Hp, H. Qed.

Lemma is_entry_preserved w w' e c :
  preserves w w' -> is_entry args w e c -> is_entry args w' e c.
Proof.
  intros Hp (snap & m & dur & He & Hs). exists snap, m, dur. split; auto.
Qed.

(** The entry as run_benchmark returns it. *)
Definition fresh_entry (lib : backend) (sc : scenario) (snapshot metrics : loc)
  : dict :=
  [("library", VStr (Backends.name lib)); ("scenario", VStr (scenario_name sc));
   ("params", VRef snapshot); ("metrics", VRef metrics)].

Lemma run_benchmark_run params lib sc w0 :
  In lib (libraries args) -> In sc (benchmarks args) ->
  params_intact params w0 ->
  exists e snapshot metrics w1,
    run_benchmark lib (scenario_name sc) (SCENARIOS sc) (params sc) w0
    = (Some (Ok e), w1) /\
    preserves w0 w1 /\ mem w0 !! e = None /\ e <> snapshot /\
    mem w1 !! e = Some (ODict (fresh_entry lib sc snapshot metrics)) /\
    mem w1 !! snapshot = Some (ODict (params_fields args sc)).
Proof.
  intros Hlib Hsc Hp. unfold run_benchmark, abind.
  destruct (table_ok lib sc (params sc) w0 Hlib Hsc (Hp sc))
    as (m & w1 & -> & H01).
  unfold lift, asdict.
  rewrite (bind_run _ _ _ _ _ (read_dict_run _ _ _ (H01 _ _ (Hp sc)))).
  rewrite alloc_run.
  set (snap := fresh (dom (mem w1))).
  set (w2 := set_mem _ w1).
  rewrite alloc_run.
  set (e := fresh (dom (mem w2))).
  assert (H12 : preserves w1 w2) by (eapply (mono_alloc _ w1); reflexivity).
  assert (Hs2 : mem w2 !! snap = Some (ODict (params_fields args sc)))
    by apply lookup_insert_eq.
  assert (H2e : preserves w2 (set_mem (<[e := ODict (fresh_entry lib sc snap m)]>
                                        (mem w2)) w2))
    by (eapply (mono_alloc _ w2); reflexivity).
  exists e, snap, m. eexists. split; [reflexivity|].
  split; [|split; [|split; [|split]]].
  - eapply preserves_trans; [exact H01|]. eapply preserves_trans; eassumption.
  - apply preserves_fresh with w2; [|reflexivity].
    eapply preserves_trans; eassumption.
  - intros Heq. pose proof (fresh_unused (mem w2)) as Hf. fold e in Hf.
    rewrite Heq in Hf. congruence.
  - apply lookup_insert_eq.
  - now apply H2e.
Qed.

(** One pass through the body of the innermost loop: run_benchmark returns
    a new entry, and main adds rep and duration_s to that very object. *)
Lemma repetition_run params lib sc rep entries w0 :
  In lib (libraries args) -> In sc (benchmarks args) ->
  params_intact params w0 ->
  exists e snapshot metrics duration wb w1,
    run_benchmark lib (scenario_name sc) (SCENARIOS sc) (params sc)
      (snd (perf_counter w0)) = (Some (Ok e), wb) /\
    mem wb !! e = Some (ODict (fresh_entry lib sc snapshot metrics)) /\
    repetition SCENARIOS params lib sc rep entries w0
    = (Some (Ok (entries ++ [e])), w1) /\
    preserves w0 w1 /\ mem w0 !! e = None /\
    mem w1 !! e
    = Some (ODict (fresh_entry lib sc snapshot metrics
                   ++ [("rep", VInt (Z.of_nat rep + 1));
                       ("duration_s", VFloat duration)])) /\
    mem w1 !! snapshot = Some (ODict (params_fields args sc)).
Proof.
  intros Hlib Hsc Hp.
  set (wa := snd (perf_counter w0)).
  assert (H0a : preserves w0 wa) by (now intros l o).
  destruct (run_benchmark_run params lib sc wa Hlib Hsc
              (params_intact_preserved _ _ _ H0a Hp))
    as (e & snap & m & wb & Hrun & Hab & Hfresh & Hne & He & Hs).
  set (d1 := fresh_entry lib sc snap m ++ [("rep", VInt (Z.of_nat rep + 1))]).
  set (wc := set_mem (<[e := ODict d1]> (mem wb)) wb).
  set (wd := snd (perf_counter wc)).
  set (dur := (clock wc (reads wc) - clock w0 (reads w0))%Q).
  set (d2 := fresh_entry lib sc snap m
             ++ [("rep", VInt (Z.of_nat rep + 1)); ("duration_s", VFloat dur)]).
  set (w1 := set_mem (<[e := ODict d2]> (mem wd)) wd).
  exists e, snap, m, dur, wb, w1.
  assert (Hec : mem wc !! e = Some (ODict d1)) by apply lookup_insert_eq.
  split; [exact Hrun|]. split; [exact He|]. split; [|split; [|split; [|split]]].
  - unfold repetition, abind, lift.
    change (perf_counter w0) with (Ok (clock w0 (reads w0)), wa).
    cbv beta iota. rewrite Hrun.
    rewrite (setitem_run _ _ "rep" (VInt (Z.of_nat rep + 1)) _ He).
    change (dict_set "rep" (VInt (Z.of_nat rep + 1)) (fresh_entry lib sc snap m))
      with d1. fold wc.
    change (perf_counter wc) with (Ok (clock wc (reads wc)), wd).
    cbv beta iota.
    assert (Hed : mem wd !! e = Some (ODict d1)) by exact Hec.
    fold dur.
    rewrite (setitem_run _ _ "duration_s" (VFloat dur) _ Hed).
    reflexivity.
  - intros l o Hl. subst w1 wd wc. simpl.
    assert (l <> e) by (intros ->; apply H0a in Hl; congruence).
    rewrite !lookup_insert_ne by congruence. now apply Hab, H0a.
  - exact Hfresh.
  - apply lookup_insert_eq.
  - subst w1 wd wc. simpl. rewrite !lookup_insert_ne by congruence. exact Hs.
Qed.

Lemma repetition_entry params lib sc rep entries w0 :
  In lib (libraries args) -> In sc (benchmarks args) ->
  params_intact params w0 ->
  exists e w1,
    repetition SCENARIOS params lib sc rep entries w0
    = (Some (Ok (entries ++ [e])), w1) /\
    preserves w0 w1 /\ is_entry args w1 e (lib, sc, rep).
Proof.
  intros Hlib Hsc Hp.
  destruct (repetition_run params lib sc rep entries w0 Hlib Hsc Hp)
    as (e & snap & m & dur & wb & w1 & _ & _ & Hrep & H01 & _ & He & Hs).
  exists e, w1. split; [exact Hrep|]. split; [exact H01|].
  now exists snap, m, dur.
Qed.

(** A loop whose every pass appends the entries of its keys. *)
Lemma for_each_entries {A} (xs : list A)
    (body : A -> list loc -> Async (list loc))
    (keys : A -> list (backend * scenario * nat))
    (params : scenario -> loc) :
  (forall x entries w0, In x xs -> params_intact params w0 ->
     exists es w1,
       body x entries w0 = (Some (Ok (entries ++ es)), w1) /\
       preserves w0 w1 /\ Forall2 (is_entry args w1) es (keys x)) ->
  forall entries w0, params_intact params w0 ->
    exists es w1,
      for_each xs body entries w0 = (Some (Ok (entries ++ es)), w1) /\
      preserves w0 w1 /\ Forall2 (is_entry args w1) es (flat_map keys xs).
Proof.
  induction xs as [|x xs IH]; intros Hbody entries w0 Hp; simpl.
  - exists [], w0. rewrite app_nil_r.
    split; [reflexivity|]. split; [apply preserves_refl|constructor].
  - destruct (Hbody x entries w0 (or_introl eq_refl) Hp)
      as (es1 & w1 & H1 & H01 & He1).
    destruct (IH (fun y es w Hy => Hbody y es w (or_intror Hy))
                 (entries ++ es1) w1 (params_intact_preserved _ _ _ H01 Hp))
      as (es2 & w2 & H2 & H12 & He2).
    exists (es1 ++ es2), w2. unfold abind. rewrite H1, H2, app_assoc.
    split; [reflexivity|]. split; [eapply preserves_trans; eassumption|].
    apply Forall2_app; [|assumption].
    eapply Forall2_impl; [exact He1|]. intros e c.
    now apply is_entry_preserved.
Qed.

(** main returns one entry per (library, scenario, repetition), in the
    order of its loops, and leaves the params as build_params made them. *)
Lemma main_run w :
  exists entries params w',
    main SCENARIOS args w = (Some (Ok entries), w') /\
    Forall2 (is_entry args w') entries (combinations args) /\
    params_intact params w'.
Proof.
  destruct (build_params_run args w) as (params & w1 & Hb & _ & Hp).
  destruct (for_each_entries (libraries args)
              (fun lib => for_each (benchmarks args) (fun sc =>
                 for_each (range (repetitions args)) (fun rep =>
                   repetition SCENARIOS params lib sc rep)))
              (fun lib => flat_map (fun sc =>
                 map (fun rep => (lib, sc, rep)) (range (repetitions args)))
                 (benchmarks args))
              params) with (entries := @nil loc) (w0 := w1)
    as (es & w' & Hrun & H1' & Hes); [|exact Hp|].
  - intros lib entries w0 Hlib Hp0.
    apply (for_each_entries (benchmarks args)
             (fun sc => for_each (range (repetitions args)) (fun rep =>
                repetition SCENARIOS params lib sc rep))
             (fun sc => map (fun rep => (lib, sc, rep))
                            (range (repetitions args)))
             params); [|exact Hp0].
    intros sc entries' w0' Hsc Hp0'.
    destruct (for_each_entries (range (repetitions args))
                (fun rep => repetition SCENARIOS params lib sc rep)
                (fun rep => [(lib, sc, rep)]) params)
      with (entries := entries') (w0 := w0')
      as (es & w1' & Hrun & Hpres & Hes); [|exact Hp0'|].
    + intros rep entries'' w0'' _ Hp0''.
      destruct (repetition_entry params lib sc rep entries'' w0'' Hlib Hsc Hp0'')
        as (e & w1'' & Hr & Hpr & He).
      exists [e], w1''. split; [exact Hr|]. split; [exact Hpr|].
      now repeat constructor.
    + exists es, w1'. split; [exact Hrun|]. split; [exact Hpres|].
      clear -Hes. revert Hes.
      replace (flat_map (fun rep => [(lib, sc, rep)]) (range (repetitions args)))
        with (map (fun rep => (lib, sc, rep)) (range (repetitions args)));
        [auto|].
      induction (range (repetitions args)); simpl; congruence.
  - exists es, params, w'. split; [|split].
    + unfold main, abind, lift. rewrite Hb. exact Hrun.
    + exact Hes.
    + now apply (params_intact_preserved params w1 w').
Qed.

Lemma length_combinations :
  0 <= repetitions args ->
  Z.of_nat (length (combinations args))
  = Z.of_nat (length (libraries args)) * Z.of_nat (length (benchmarks args))
    * repetitions args.
Proof.
  intros HR. unfold combinations.
  assert (Hinner : forall (lib : backend) (sc : scenario),
            length (map (fun rep : nat => (lib, sc, rep))
                        (range (repetitions args)))
            = Z.to_nat (repetitions args))
    by (intros; rewrite length_map; apply length_seq).
  assert (Hmid : forall lib : backend,
            length (flat_map (fun sc => map (fun rep : nat => (lib, sc, rep))
                                            (range (repetitions args)))
                             (benchmarks args))
            = (length (benchmarks args) * Z.to_nat (repetitions args))%nat).
  { intros lib. induction (benchmarks args) as [|sc scs IH]; simpl;
      [reflexivity|].
    rewrite length_app, IH, Hinner. lia. }
  induction (libraries args) as [|lib libs IH]; simpl; [lia|].
  rewrite length_app, Hmid. nia.
Qed.

End Table.

Import StormFacts Samples.

(** ** run_cancellation *)

Lemma update_run l d other w :
  mem w !! l = Some (ODict d) ->
  update l other w
  = (Ok tt, set_mem (<[l := ODict (dict_update other d)]> (mem w)) w).
Proof.
  intros H. unfold update, bind, read_dict, write_dict.
  rewrite H. simpl. now rewrite H.
Qed.

(** run_cancellation returns the very dict the storm returned, with three
    more keys. *)
Lemma run_cancellation_run b p tc ca s w :
  0 <= tc ->
  mem w !! p = Some (ODict (CancellationParams tc ca)) ->
  let storm := cancellation_storm (_long_task b) b tc ca (fun _ => tt) s
                 (snd (perf_counter w)) in
  (forall l w',
     run_cancellation b (Some p) s w = (Some (Ok l), w') ->
     fst storm = Some (Ok l) /\
     exists settle dur,
       mem (shared (snd storm)) !! l = Some (ODict (storm_dict tc 0 settle)) /\
       mem w' !! l
       = Some (ODict (storm_dict tc 0 settle ++ cancellation_extras tc ca dur))) /\
  (forall l, fst storm = Some (Ok l) ->
     exists w', run_cancellation b (Some p) s w = (Some (Ok l), w')).
Proof.
  intros Htc Hp storm.
  set (wa := snd (perf_counter w)) in *.
  assert (Hpa : mem wa !! p = Some (ODict (CancellationParams tc ca))) by exact Hp.
  assert (Hrun : run_cancellation b (Some p) s w
                 = match storm with
                   | (Some (Ok l), pl) =>
                       let wb := snd (perf_counter (shared pl)) in
                       let dur := (clock (shared pl) (reads (shared pl))
                                   - clock w (reads w))%Q in
                       match update l (cancellation_extras tc ca dur) wb with
                       | (Ok _, wc) => (Some (Ok l), wc)
                       | (Err e, wc) => (Some (Err e), wc)
                       end
                   | (Some (Err e), pl) => (Some (Err e), shared pl)
                   | (None, pl) => (None, shared pl)
                   end).
  { unfold run_cancellation, abind, lift, or_default, ret.
    change (perf_counter w) with (Ok (clock w (reads w)), wa). cbv beta iota.
    rewrite (getattr_run _ _ "task_count" _ _ Hpa eq_refl).
    unfold as_int, ret.
    rewrite (getattr_run _ _ "cancel_after_s" _ _ Hpa eq_refl).
    unfold as_float, ret, awaited. fold storm.
    destruct storm as [[[l|e]|] pl]; simpl; try reflexivity.
    unfold cancellation_extras.
    now destruct (update l _ _) as [[[]|e] wc]. }
  pose proof (proj1 (cancellation_storm_counts (_long_task b) b tc ca
                       (fun _ => tt) s wa Htc (long_task_only_cancellable b)))
    as Hcounts. fold storm in Hcounts.
  destruct storm as [[[l0|e]|] pl] eqn:Hstorm; simpl in *.
  - destruct (Hcounts l0 pl eq_refl) as (c & e & settle & Hl & _ & -> & ->).
    set (wb := World (mem (shared pl)) (clock (shared pl))
                     (S (reads (shared pl)))) in *.
    set (dur := (clock (shared pl) (reads (shared pl)) - clock w (reads w))%Q)
      in *.
    assert (Hlb : mem wb !! l0 = Some (ODict (storm_dict tc 0 settle)))
      by exact Hl.
    rewrite (update_run _ _ (cancellation_extras tc ca dur) _ Hlb) in Hrun.
    split.
    + intros l w'. rewrite Hrun. intros [= <- <-].
      split; [reflexivity|]. exists settle, dur. split; [exact Hl|].
      simpl. apply lookup_insert_eq.
    + intros l [= <-]. eauto.
  - split; [|discriminate]. intros l w'. rewrite Hrun. discriminate.
  - split; [|discriminate]. intros l w'. rewrite Hrun. discriminate.
Qed.

(** Under a schedule that gives every unit a turn after the signal (and,
    under trio, one before it), run_cancellation returns. *)
Lemma run_cancellation_returns b p tc ca s w :
  0 <= tc ->
  mem w !! p = Some (ODict (CancellationParams tc ca)) ->
  (forall i, (i < Z.to_nat tc)%nat -> In i (after_signal s)) ->
  (b = Trio ->
   (0 <= ca)%Q /\ forall i, (i < Z.to_nat tc)%nat -> In i (before_signal s)) ->
  exists l w', run_cancellation b (Some p) s w = (Some (Ok l), w').
Proof.
  intros Htc Hp Hafter Hbefore.
  destruct (proj2 (cancellation_storm_counts (_long_task b) b tc ca
                     (fun _ => tt) s (snd (perf_counter w)) Htc
                     (long_task_only_cancellable b)) Hafter Hbefore)
    as (l & pl & Hstorm).
  destruct (proj2 (run_cancellation_run b p tc ca s w Htc Hp) l) as [w' Hrun].
  - now rewrite Hstorm.
  - eauto.
Qed.

(** ** The table of scenarios *)

(** No benchmark changes an object that existed when it was called. *)
Lemma SCENARIOS_preserves expovariate_value sched storm sc lib p w r w' :
  SCENARIOS expovariate_value sched storm sc lib p w = (r, w') ->
  preserves w w'.
Proof.
  destruct sc; simpl; intros H.
  - eapply run_task_spawn_framed; [apply preserves_refl|exact H].
  - eapply run_io_bound_framed; [apply preserves_refl|exact H].
  - eapply run_cancellation_framed; [apply preserves_refl|exact H].
Qed.

Lemma SCENARIOS_return expovariate_value sched storm args :
  benchmarks_terminate (SCENARIOS expovariate_value sched storm) args ->
  benchmarks_return (SCENARIOS expovariate_value sched storm) args.
Proof.
  intros Hret lib sc p w0 Hlib Hsc Hp.
  destruct (Hret lib sc p w0 Hlib Hsc Hp) as (m & w1 & H).
  exists m, w1. split; [exact H|]. eapply SCENARIOS_preserves, H.
Qed.

Lemma is_entry_fields args w e c :
  is_entry args w e c ->
  entry_field w "rep" e = Some (VInt (Z.of_nat (snd c) + 1)) /\
  entry_params w e = Some (params_fields args (snd (fst c))).
Proof.
  intros (snap & m & dur & He & Hs). unfold entry_params, entry_field.
  rewrite He. simpl. now rewrite Hs.
Qed.

Lemma sample_benchmarks_terminate expovariate_value sched :
  benchmarks_terminate (SCENARIOS expovariate_value sched sample_storm)
    sample_args.
Proof.
  intros lib sc p w0 [<-|[]] [<-|[]] Hp. simpl in *.
  apply (run_cancellation_returns Asyncio p 2 0.05 sample_storm w0);
    [lia|exact Hp| |discriminate].
  intros i Hi. simpl in *. lia.
Qed.

(** C6. When every benchmark of the selection returns, main returns exactly
    L*S*R entries for L libraries, S scenarios and R >= 0 repetitions, one
    per (library, scenario, repetition) triple in the order of the loops;
    for one library, one scenario and three repetitions they are three
    entries with rep 1, 2, 3 whose params snapshots have the same
    contents. *)
Theorem main_one_entry_per_combination
    (expovariate_value : Z -> nat -> Q -> Q) (sched : list nat)
    (storm : storm_schedule) (args : Namespace) (w : world) :
  0 <= repetitions args ->
  benchmarks_terminate (SCENARIOS expovariate_value sched storm) args ->
  exists entries w',
    main (SCENARIOS expovariate_value sched storm) args w
    = (Some (Ok entries), w') /\
    Z.of_nat (length entries)
    = Z.of_nat (length (libraries args)) * Z.of_nat (length (benchmarks args))
      * repetitions args /\
    Forall2 (is_entry args w') entries (combinations args) /\
    (forall lib sc,
       libraries args = [lib] -> benchmarks args = [sc] ->
       repetitions args = 3 ->
       length entries = 3%nat /\
       map (entry_field w' "rep") entries
       = [Some (VInt 1); Some (VInt 2); Some (VInt 3)] /\
       map (entry_params w') entries
       = [Some (params_fields args sc); Some (params_fields args sc);
          Some (params_fields args sc)]).
Proof.
  intros HR Hret.
  destruct (main_run _ args (SCENARIOS_return _ _ _ _ Hret) w)
    as (entries & params & w' & Hmain & Hes & _).
  exists entries, w'. split; [exact Hmain|]. split; [|split; [exact Hes|]].
  - rewrite (Forall2_length _ _ _ Hes). now apply length_combinations.
  - intros lib sc Hlib Hsc H3. unfold combinations in Hes.
    rewrite Hlib, Hsc, H3 in Hes. simpl in Hes.
    inversion Hes as [|e1 c1 es1 cs1 H1 Hes1]; subst.
    inversion Hes1 as [|e2 c2 es2 cs2 H2 Hes2]; subst.
    inversion Hes2 as [|e3 c3 es3 cs3 H3' Hes3]; subst.
    inversion Hes3; subst.
    apply is_entry_fields in H1, H2, H3'. simpl in *.
    destruct H1 as [-> ->], H2 as [-> ->], H3' as [-> ->]. auto.
Qed.

Lemma main_one_entry_per_combination_witness :
  exists entries w',
    main (SCENARIOS sample_expovariate [] sample_storm) sample_args empty_world
    = (Some (Ok entries), w') /\
    length entries = 3%nat /\
    map (entry_field w' "rep") entries
    = [Some (VInt 1); Some (VInt 2); Some (VInt 3)].
Proof.
  destruct (main_one_entry_per_combination sample_expovariate [] sample_storm
              sample_args empty_world ltac:(simpl; lia)
              (sample_benchmarks_terminate sample_expovariate []))
    as (entries & w' & Hmain & _ & _ & H3).
  destruct (H3 Asyncio cancellation eq_refl eq_refl eq_refl)
    as (Hlen & Hrep & _).
  exists entries, w'. auto.
Defined.

(** ** Who writes to a result object *)




End RunnerFacts.

From Stdlib Require Import Lqa.

(* ===================================================================== *)
(** * More about utils.py: order statistics                               *)
(* ===================================================================== *)

Module PercentileFacts.
Import PyFacts Utils UtilsFacts Samples.

(** The rank percentile computes: k = (len(vals) - 1) * (pct / 100). *)
Definition rank (n : Z) (pct : Q) : Q := (inject_Z (n - 1) * (pct / 100))%Q.

Lemma Sorted_nth_le (s : list Q) (i j : nat) :
  Sorted Qle s -> (i <= j)%nat -> (j < length s)%nat ->
  (nth i s 0 <= nth j s 0)%Q.
Proof.
  intros Hs. apply Sorted_StronglySorted in Hs; [|exact Qle_trans].
  revert i j. induction Hs as [|x l Hl IH Hx]; intros i j Hij Hj; simpl in *;
    [lia|].
  destruct i, j; try lia.
  - apply Qle_refl.
  - rewrite List.Forall_forall in Hx. apply Hx. apply nth_In. lia.
  - apply IH; lia.
Qed.

(** Within range the result is a weighted mean of two neighbouring order
    statistics. *)
Lemma percentile_of_interp (xs : list Q) (pct : Q) :
  xs <> [] -> (0 <= pct)%Q -> (pct <= 100)%Q ->
  let s := sorted xs in
  let n := Z.of_nat (length xs) in
  let k := rank n pct in
  let f := Qfloor k in
  let c := Z.min (f + 1) (n - 1) in
  0 <= f /\ f <= c /\ c <= n - 1 /\
  (0 <= k - inject_Z f)%Q /\ (k - inject_Z f <= 1)%Q /\
  exists q, percentile_of xs pct = Ok q /\
    (q == nth (Z.to_nat f) s 0 * (1 - (k - inject_Z f))
          + nth (Z.to_nat c) s 0 * (k - inject_Z f))%Q.
Proof.
  intros Hne H0 H100.
  destruct xs as [|x0 xs0]; [congruence|]. clear Hne.
  set (xs := x0 :: xs0). intros s n k f c.
  assert (Hn : 1 <= n) by (subst n xs; simpl; lia).
  destruct (rank_bounds n pct Hn H0 H100) as [Hk0 Hkn]. fold (rank n pct) in *.
  fold k in Hk0, Hkn.
  assert (Hf0 : 0 <= f).
  { subst f. rewrite <- (Qfloor_Z 0). now apply Qfloor_resp_le. }
  assert (Hfn : f <= n - 1).
  { subst f. rewrite <- (Qfloor_Z (n - 1)). now apply Qfloor_resp_le. }
  assert (Hlen : Z.of_nat (length s) = n)
    by (subst s; now rewrite length_sorted).
  pose proof (Qfloor_le k) as Hfk. fold f in Hfk.
  pose proof (Qlt_floor k) as Hkf. fold f in Hkf.
  rewrite inject_Z_plus in Hkf. change (inject_Z 1) with 1%Q in Hkf.
  split; [exact Hf0|]. split; [lia|]. split; [lia|].
  split; [lra|]. split; [lra|].
  unfold percentile_of. fold xs. cbv zeta. fold n. fold (rank n pct). fold k.
  rewrite (int_nonneg k Hk0). fold f. fold c. fold s.
  destruct (Z.eqb_spec f c) as [Heq|Hneq].
  - rewrite getitem_in_range by lia.
    eexists; split; [reflexivity|]. rewrite <- Heq. ring.
  - assert (Hc : c = f + 1) by lia.
    rewrite !getitem_in_range by lia.
    eexists; split; [reflexivity|]. rewrite Hc at 1.
    rewrite inject_Z_plus. ring.
Qed.

Lemma In_sorted (xs : list Q) (x : Q) : In x (sorted xs) <-> In x xs.
Proof.
  split; apply Permutation_in;
    [apply Permutation_sym|]; apply sorted_perm.
Qed.

Lemma nth_sorted_In (xs : list Q) (i : Z) :
  0 <= i <= Z.of_nat (length xs) - 1 ->
  In (nth (Z.to_nat i) (sorted xs) 0%Q) xs.
Proof.
  intros Hi. apply In_sorted, nth_In. rewrite length_sorted. lia.
Qed.

(** The first order statistic is below, and the last above, every element
    of the sample. *)
Lemma sorted_extremes (xs : list Q) (x : Q) :
  In x xs ->
  (nth 0 (sorted xs) 0 <= x)%Q /\
  (x <= nth (length xs - 1) (sorted xs) 0)%Q.
Proof.
  intros Hx. apply In_sorted in Hx.
  destruct (In_nth _ _ 0%Q Hx) as (j & Hj & <-).
  rewrite length_sorted in Hj.
  split; apply Sorted_nth_le; try apply sorted_Sorted;
    rewrite ?length_sorted; lia.
Qed.

(** X2.  On a non-empty sample percentile(values, 0) is the minimum and
    percentile(values, 100) the maximum of the sample. *)
Theorem percentile_endpoints (w : world) (values : loc) (xs : list Q) :
  mem w !! values = Some (OList xs) ->
  xs <> [] ->
  (exists q m, fst (percentile values 0 w) = Ok q /\ (q == m)%Q /\
               In m xs /\ forall x, In x xs -> (m <= x)%Q) /\
  (exists q m, fst (percentile values 100 w) = Ok q /\ (q == m)%Q /\
               In m xs /\ forall x, In x xs -> (x <= m)%Q).
Proof.
  intros Hv Hne. set (n := Z.of_nat (length xs)).
  assert (Hn : 1 <= n) by (subst n; destruct xs; [congruence|simpl; lia]).
  split.
  - rewrite (percentile_run _ _ _ _ Hv). simpl.
    destruct (percentile_of_interp xs 0 Hne) as (_ & _ & _ & _ & _ & q & Hq & Heq);
      [discriminate|discriminate|].
    assert (Hk : (rank n 0 == 0)%Q) by (unfold rank, Qdiv; ring).
    assert (Hf : Qfloor (rank n 0) = 0) by (now rewrite Hk).
    cbv zeta in Heq. fold n in Heq. rewrite Hf in Heq.
    exists q, (nth 0 (sorted xs) 0%Q). split; [exact Hq|]. split.
    + rewrite Heq, Hk. change (inject_Z 0) with 0%Q.
      change (Z.to_nat 0) with 0%nat. ring.
    + split; [apply (nth_sorted_In xs 0); lia|].
      intros x Hx. now apply sorted_extremes.
  - rewrite (percentile_run _ _ _ _ Hv). simpl.
    destruct (percentile_of_interp xs 100 Hne)
      as (_ & _ & _ & _ & _ & q & Hq & Heq); [discriminate|discriminate|].
    assert (Hk : (rank n 100 == inject_Z (n - 1))%Q) by (unfold rank; field).
    assert (Hf : Qfloor (rank n 100) = n - 1) by (now rewrite Hk, Qfloor_Z).
    cbv zeta in Heq. fold n in Heq. rewrite Hf in Heq.
    replace (Z.min (n - 1 + 1) (n - 1)) with (n - 1) in Heq by lia.
    exists q, (nth (Z.to_nat (n - 1)) (sorted xs) 0%Q). split; [exact Hq|].
    split; [rewrite Heq; ring|].
    split; [apply (nth_sorted_In xs (n - 1)); lia|].
    intros x Hx. replace (Z.to_nat (n - 1)) with (length xs - 1)%nat by lia.
    now apply sorted_extremes.
Qed.

Lemma percentile_endpoints_witness :
  exists q m, fst (percentile 1%positive 100 (sample_world [3; 1; 2]%Q)) = Ok q /\
              (q == m)%Q /\ forall x, In x [3; 1; 2]%Q -> (x <= m)%Q.
Proof.
  destruct (percentile_endpoints (sample_world [3; 1; 2]%Q) 1%positive
              [3; 1; 2]%Q eq_refl ltac:(discriminate))
    as [_ (q & m & Hq & Hm & _ & Hmax)].
  exists q, m. auto.
Defined.

(** ** Outside 0..100 *)

Lemma getitem_defined (xs : list Q) (i : Z) :
  - Z.of_nat (length xs) <= i < Z.of_nat (length xs) ->
  exists x, getitem xs i = Ok x.
Proof.
  intros Hi. unfold getitem.
  destruct (Z.leb_spec 0 i); destruct (Z.ltb_spec i (Z.of_nat (length xs)));
    simpl; try lia.
  - destruct (xs !! Z.to_nat i) as [x|] eqn:Hx; [eauto|].
    apply lookup_ge_None in Hx. lia.
  - destruct (Z.leb_spec (- Z.of_nat (length xs)) i);
      destruct (Z.ltb_spec i 0); simpl; try lia.
    destruct (xs !! Z.to_nat (Z.of_nat (length xs) + i)) as [x|] eqn:Hx;
      [eauto|].
    apply lookup_ge_None in Hx. lia.
Qed.

Lemma getitem_outside (xs : list Q) (i : Z) :
  i < - Z.of_nat (length xs) \/ Z.of_nat (length xs) <= i ->
  getitem xs i = Err IndexError.
Proof.
  intros Hi. unfold getitem.
  destruct (Z.leb_spec 0 i); destruct (Z.ltb_spec i (Z.of_nat (length xs)));
    simpl; try lia; try reflexivity;
    destruct (Z.leb_spec (- Z.of_nat (length xs)) i);
    destruct (Z.ltb_spec i 0); simpl; try lia; reflexivity.
Qed.

(** In the model's exact arithmetic: with n >= 1 samples and f = int(k)
    the truncated rank, percentile raises IndexError exactly when f is
    outside [-n, n). *)
Lemma percentile_rank_outcome
    (w : world) (values : loc) (xs : list Q) (pct : Q) :
  mem w !! values = Some (OList xs) ->
  let n := Z.of_nat (length xs) in
  let f := int (rank n pct) in
  (xs <> [] -> n <= f \/ f < - n ->
   fst (percentile values pct w) = Err IndexError) /\
  (xs = [] \/ - n <= f < n ->
   exists q, fst (percentile values pct w) = Ok q) /\
  (forall x, xs = [x] -> fst (percentile values pct w) = Ok x).
Proof.
  intros Hv n f. rewrite (percentile_run _ _ _ _ Hv). simpl.
  assert (Hlen : Z.of_nat (length (sorted xs)) = n)
    by (subst n; now rewrite length_sorted).
  split; [|split].
  - intros Hne Hout. destruct xs as [|x0 xs0]; [congruence|].
    set (xs := x0 :: xs0) in *. unfold percentile_of. fold xs. cbv zeta.
    fold n. fold (rank n pct). fold f.
    assert (Hn : 1 <= n) by (subst n xs; simpl; lia).
    destruct (Z.eqb_spec f (Z.min (f + 1) (n - 1))) as [Heq|Hneq]; [lia|].
    rewrite (getitem_outside (sorted xs) f) by lia. reflexivity.
  - intros [->|Hin]; [now exists 0%Q|].
    destruct xs as [|x0 xs0]; [now exists 0%Q|].
    set (xs := x0 :: xs0) in *. unfold percentile_of. fold xs. cbv zeta.
    fold n. fold (rank n pct). fold f.
    destruct (Z.eqb_spec f (Z.min (f + 1) (n - 1))) as [Heq|Hneq].
    + apply getitem_defined. lia.
    + destruct (getitem_defined (sorted xs) f) as [a ->]; [lia|].
      destruct (getitem_defined (sorted xs) (Z.min (f + 1) (n - 1))) as [b ->];
        [lia|].
      eauto.
  - intros x ->. unfold percentile_of, int. simpl.
    now rewrite Z.quot_0_l by lia.
Qed.

(** int(x) lies between any two integers around x that have 0 between
    them, and beyond any integer on the far side of 0. *)
Lemma int_bounds (x : Q) (a b : Z) :
  ((inject_Z a <= x)%Q -> a <= 0 -> a <= int x) /\
  ((x <= inject_Z b)%Q -> 0 <= b -> int x <= b) /\
  ((inject_Z a <= x)%Q -> 0 <= a -> a <= int x) /\
  ((x <= inject_Z b)%Q -> b <= 0 -> int x <= b).
Proof.
  destruct x as [p q]. unfold int, Qle, inject_Z. simpl.
  rewrite !Z.mul_1_r.
  assert (Hq : 0 < Z.pos q) by lia.
  pose proof (Z.quot_rem' p (Z.pos q)) as Hdiv.
  assert (Hmul : forall u v, u * Z.pos q < (v + 1) * Z.pos q -> u <= v).
  { intros u v H. apply Z.mul_lt_mono_pos_r in H; lia. }
  destruct (Z.le_gt_cases 0 p) as [Hp|Hp].
  - pose proof (Z.rem_bound_pos p (Z.pos q) Hp Hq) as Hr.
    pose proof (Z.quot_pos p (Z.pos q) Hp Hq) as Hpos.
    set (k := p ÷ Z.pos q) in *. set (r := Z.rem p (Z.pos q)) in *.
    set (d := Z.pos q) in *. clearbody k r d.
    repeat split; intros; try lia; apply Hmul; nia.
  - assert (Hp' : p <= 0) by lia.
    pose proof (Z.rem_bound_pos_neg p (Z.pos q) Hq Hp') as Hr.
    set (k := p ÷ Z.pos q) in *. set (r := Z.rem p (Z.pos q)) in *.
    set (d := Z.pos q) in *. clearbody k r d.
    assert (Hle : k <= 0) by (apply Hmul; nia).
    repeat split; intros; try lia; apply Hmul; nia.
Qed.

(** X5.  Outside 0..100.  percentile rejects no percentage: for pct
    between -100 and 100 it never raises (a negative pct indexes the
    sorted sample from its end), and with at least two samples it raises
    IndexError for pct between 200 and 10^6 and between -10^6 and -300.
    A sample of one element is returned for every pct. *)
Theorem percentile_index_error
    (w : world) (values : loc) (xs : list Q) (pct : Q) :
  mem w !! values = Some (OList xs) ->
  ((-100 <= pct)%Q -> (pct <= 100)%Q ->
   exists q, fst (percentile values pct w) = Ok q) /\
  ((2 <= length xs)%nat ->
   ((200 <= pct)%Q /\ (pct <= 1000000)%Q) \/
   ((-1000000 <= pct)%Q /\ (pct <= -300)%Q) ->
   fst (percentile values pct w) = Err IndexError) /\
  (forall x, xs = [x] -> fst (percentile values pct w) = Ok x).
Proof.
  intros Hv.
  destruct (percentile_rank_outcome w values xs pct Hv) as (Hout & Hin & Hone).
  cbv zeta in Hout, Hin.
  set (n := Z.of_nat (length xs)) in *.
  assert (Hscale : forall a : Z,
            (inject_Z a * 100 <= pct)%Q -> 1 <= n ->
            (inject_Z ((n - 1) * a) <= rank n pct)%Q).
  { intros a Ha Hn. unfold rank. rewrite inject_Z_mult.
    assert (H0 : (0 <= inject_Z (n - 1))%Q)
      by (change 0%Q with (inject_Z 0); rewrite <- Zle_Qle; lia).
    rewrite !(Qmult_comm (inject_Z (n - 1))).
    apply Qmult_le_compat_r; [|exact H0].
    apply Qle_shift_div_l; [reflexivity|exact Ha]. }
  assert (Hscale' : forall b : Z,
            (pct <= inject_Z b * 100)%Q -> 1 <= n ->
            (rank n pct <= inject_Z ((n - 1) * b))%Q).
  { intros b Hb Hn. unfold rank. rewrite inject_Z_mult.
    assert (H0 : (0 <= inject_Z (n - 1))%Q)
      by (change 0%Q with (inject_Z 0); rewrite <- Zle_Qle; lia).
    rewrite !(Qmult_comm (inject_Z (n - 1))).
    apply Qmult_le_compat_r; [|exact H0].
    apply Qle_shift_div_r; [reflexivity|exact Hb]. }
  split; [|split; [|exact Hone]].
  - intros Hlo Hhi. apply Hin.
    destruct xs as [|x0 xs0]; [now left|right].
    assert (Hn : 1 <= n) by (subst n; simpl; lia).
    pose proof (Hscale (-1) Hlo Hn) as H1.
    pose proof (Hscale' 1 Hhi Hn) as H2.
    pose proof (proj1 (int_bounds (rank n pct) ((n - 1) * -1) 0) H1 ltac:(lia)).
    pose proof (proj1 (proj2 (int_bounds (rank n pct) 0 ((n - 1) * 1)))
                  H2 ltac:(lia)).
    lia.
  - intros Hlen Hpct.
    assert (Hn : 2 <= n) by (subst n; lia).
    apply Hout; [intros ->; simpl in Hlen; lia|].
    destruct Hpct as [[Hlo _]|[_ Hhi]].
    + left.
      pose proof (Hscale 2 Hlo ltac:(lia)) as H1.
      pose proof (proj1 (proj2 (proj2 (int_bounds (rank n pct) ((n - 1) * 2) 0)))
                    H1 ltac:(lia)).
      lia.
    + right.
      pose proof (Hscale' (-3) Hhi ltac:(lia)) as H2.
      pose proof (proj2 (proj2 (proj2 (int_bounds (rank n pct) 0 ((n - 1) * -3))))
                    H2 ltac:(lia)).
      lia.
Qed.

Lemma percentile_index_error_witness :
  fst (percentile 1%positive 200 (sample_world [3; 1; 2]%Q)) = Err IndexError.
Proof.
  apply (proj1 (proj2 (percentile_index_error (sample_world [3; 1; 2]%Q)
                         1%positive [3; 1; 2]%Q 200 eq_refl))).
  - simpl. lia.
  - left. split; discriminate.
Defined.

(** ** The order of the sample *)

(** Two results that agree: the same exception, or equal numbers. *)
Definition same_result (r1 r2 : result Q) : Prop :=
  match r1, r2 with
  | Ok a, Ok b => (a == b)%Q
  | Err e1, Err e2 => e1 = e2
  | _, _ => False
  end.

Lemma Forall2_Qeq_refl (l : list Q) : Forall2 Qeq l l.
Proof. induction l; constructor; [reflexivity|assumption]. Qed.

Lemma Forall2_Qeq_trans (l1 l2 l3 : list Q) :
  Forall2 Qeq l1 l2 -> Forall2 Qeq l2 l3 -> Forall2 Qeq l1 l3.
Proof.
  intros H12. revert l3. induction H12 as [|x y l l' Hxy _ IH]; intros l3 H23;
    inversion H23; subst; constructor.
  - etransitivity; eassumption.
  - now apply IH.
Qed.

Lemma Qle_bool_proper (x y y' : Q) :
  (y == y')%Q -> Qle_bool x y = Qle_bool x y'.
Proof.
  intros Hy. destruct (Qle_bool x y) eqn:E1, (Qle_bool x y') eqn:E2;
    try reflexivity.
  - apply Qle_bool_iff in E1. rewrite Hy in E1. apply Qle_bool_iff in E1.
    congruence.
  - apply Qle_bool_iff in E2. rewrite <- Hy in E2. apply Qle_bool_iff in E2.
    congruence.
Qed.

Lemma insert_sorted_Forall2 (x : Q) (l l' : list Q) :
  Forall2 Qeq l l' -> Forall2 Qeq (insert_sorted x l) (insert_sorted x l').
Proof.
  induction 1 as [|y y' l l' Hy Hl IH]; simpl.
  - repeat constructor.
  - rewrite (Qle_bool_proper x y y' Hy).
    destruct (Qle_bool x y'); repeat constructor; try assumption;
      reflexivity.
Qed.

Lemma Qle_bool_false (x y : Q) : Qle_bool x y = false -> (y < x)%Q.
Proof.
  intros H. destruct (Qlt_le_dec y x) as [Hlt|Hle]; [assumption|].
  apply Qle_bool_iff in Hle. congruence.
Qed.

(** Inserting two elements in either order gives the same list, up to the
    representation of equal numbers. *)
Lemma insert_sorted_comm (x y : Q) (l : list Q) :
  Forall2 Qeq (insert_sorted x (insert_sorted y l))
              (insert_sorted y (insert_sorted x l)).
Proof.
  induction l as [|z l IH]; simpl.
  - destruct (Qle_bool x y) eqn:Hxy, (Qle_bool y x) eqn:Hyx;
      try apply Forall2_Qeq_refl.
    + apply Qle_bool_iff in Hxy, Hyx.
      assert (x == y)%Q by now apply Qle_antisym.
      repeat constructor; [assumption|now symmetry].
    + apply Qle_bool_false in Hxy, Hyx. exfalso.
      apply (Qlt_irrefl x). eapply Qlt_trans; eassumption.
  - destruct (Qle_bool y z) eqn:Hyz, (Qle_bool x z) eqn:Hxz; simpl.
    + destruct (Qle_bool x y) eqn:Hxy, (Qle_bool y x) eqn:Hyx;
        rewrite ?Hyz, ?Hxz; try apply Forall2_Qeq_refl.
      * apply Qle_bool_iff in Hxy, Hyx.
        assert (x == y)%Q by now apply Qle_antisym.
        constructor; [assumption|]. constructor; [now symmetry|].
        apply Forall2_Qeq_refl.
      * apply Qle_bool_false in Hxy, Hyx. exfalso.
        apply (Qlt_irrefl x). eapply Qlt_trans; eassumption.
    + rewrite Hyz.
      assert (Hxy : Qle_bool x y = false).
      { destruct (Qle_bool x y) eqn:E; [|reflexivity].
        apply Qle_bool_iff in E, Hyz. apply Qle_bool_false in Hxz. exfalso.
        apply (Qlt_irrefl z). eapply Qlt_le_trans; [exact Hxz|].
        eapply Qle_trans; eassumption. }
      rewrite Hxy, Hxz. apply Forall2_Qeq_refl.
    + rewrite Hxz.
      assert (Hyx : Qle_bool y x = false).
      { destruct (Qle_bool y x) eqn:E; [|reflexivity].
        apply Qle_bool_iff in E, Hxz. apply Qle_bool_false in Hyz. exfalso.
        apply (Qlt_irrefl z). eapply Qlt_le_trans; [exact Hyz|].
        eapply Qle_trans; eassumption. }
      rewrite Hyx, Hyz. apply Forall2_Qeq_refl.
    + rewrite Hyz, Hxz. constructor; [reflexivity|exact IH].
Qed.

Lemma sorted_Permutation (xs ys : list Q) :
  Permutation xs ys -> Forall2 Qeq (sorted xs) (sorted ys).
Proof.
  induction 1 as [|x l l' _ IH|x y l|l1 l2 l3 _ IH1 _ IH2]; simpl.
  - constructor.
  - now apply insert_sorted_Forall2.
  - apply insert_sorted_comm.
  - eapply Forall2_Qeq_trans; eassumption.
Qed.

Lemma getitem_Forall2 (s s' : list Q) (i : Z) :
  Forall2 Qeq s s' -> same_result (getitem s i) (getitem s' i).
Proof.
  intros H. unfold getitem. rewrite <- (Forall2_length _ _ _ H).
  assert (Hlk : forall j, match s !! j, s' !! j with
                          | Some a, Some b => (a == b)%Q
                          | None, None => True
                          | _, _ => False
                          end).
  { clear i. induction H as [|a b l l' Hab _ IH]; intros [|j]; simpl; auto.
    apply IH. }
  destruct ((0 <=? i) && (i <? Z.of_nat (length s))).
  - specialize (Hlk (Z.to_nat i)).
    destruct (s !! Z.to_nat i), (s' !! Z.to_nat i); simpl; tauto.
  - destruct ((- Z.of_nat (length s) <=? i) && (i <? 0)); [|reflexivity].
    specialize (Hlk (Z.to_nat (Z.of_nat (length s) + i))).
    destruct (s !! Z.to_nat (Z.of_nat (length s) + i)),
             (s' !! Z.to_nat (Z.of_nat (length s) + i)); simpl; tauto.
Qed.

(** X3.  percentile does not depend on the order of the sample: on two
    samples with the same elements it returns equal numbers, or raises the
    same exception, whatever pct is. *)
Theorem percentile_order_independent
    (w w' : world) (values values' : loc) (xs ys : list Q) (pct : Q) :
  mem w !! values = Some (OList xs) ->
  mem w' !! values' = Some (OList ys) ->
  Permutation xs ys ->
  same_result (fst (percentile values pct w)) (fst (percentile values' pct w')).
Proof.
  intros Hv Hv' Hperm.
  rewrite (percentile_run _ _ _ _ Hv), (percentile_run _ _ _ _ Hv'). simpl.
  pose proof (sorted_Permutation xs ys Hperm) as Hs.
  pose proof (Permutation_length Hperm) as Hlen.
  destruct xs as [|x0 xs0], ys as [|y0 ys0]; try discriminate.
  { simpl. reflexivity. }
  set (xs := x0 :: xs0) in *. set (ys := y0 :: ys0) in *.
  unfold percentile_of. fold xs. fold ys. cbv zeta. rewrite <- Hlen.
  set (n := Z.of_nat (length xs)). set (k := (inject_Z (n - 1) * (pct / 100))%Q).
  destruct (int k =? Z.min (int k + 1) (n - 1)).
  - now apply getitem_Forall2.
  - pose proof (getitem_Forall2 _ _ (int k) Hs) as Hf.
    pose proof (getitem_Forall2 _ _ (Z.min (int k + 1) (n - 1)) Hs) as Hc.
    destruct (getitem (sorted xs) (int k)) as [a|e],
             (getitem (sorted ys) (int k)) as [a'|e']; simpl in Hf;
      try contradiction; [|exact Hf].
    destruct (getitem (sorted xs) (Z.min (int k + 1) (n - 1))) as [b|e],
             (getitem (sorted ys) (Z.min (int k + 1) (n - 1))) as [b'|e'];
      simpl in Hc; try contradiction; [|exact Hc].
    simpl. now rewrite Hf, Hc.
Qed.

Lemma percentile_order_independent_witness :
  same_result (fst (percentile 1%positive 50 (sample_world [3; 1; 2]%Q)))
              (fst (percentile 1%positive 50 (sample_world [2; 3; 1]%Q))).
Proof.
  apply (percentile_order_independent (sample_world [3; 1; 2]%Q)
           (sample_world [2; 3; 1]%Q) 1%positive 1%positive
           [3; 1; 2]%Q [2; 3; 1]%Q 50 eq_refl eq_refl).
  apply Permutation_sym, (Permutation_cons_append [3; 1]%Q 2%Q).
Defined.

(** ** mean *)

Lemma sum_bounds (xs : list Q) (lo hi : Q) :
  (forall x, In x xs -> (lo <= x)%Q /\ (x <= hi)%Q) ->
  (lo * inject_Z (Z.of_nat (length xs)) <= fold_right Qplus 0 xs)%Q /\
  (fold_right Qplus 0 xs <= hi * inject_Z (Z.of_nat (length xs)))%Q.
Proof.
  induction xs as [|x xs IH]; intros Hb.
  - change (inject_Z (Z.of_nat (length (@nil Q)))) with 0%Q.
    change (fold_right Qplus 0%Q []) with 0%Q. split; lra.
  - destruct IH as [IH1 IH2]; [intros y Hy; apply Hb; now right|].
    destruct (Hb x (or_introl eq_refl)) as [H1 H2].
    change (length (x :: xs)) with (S (length xs)).
    rewrite Nat2Z.inj_succ. unfold Z.succ. rewrite inject_Z_plus.
    change (inject_Z 1) with 1%Q. simpl fold_right.
    set (n := inject_Z (Z.of_nat (length xs))) in *.
    set (t := fold_right Qplus 0%Q xs) in *. clearbody n t. split; lra.
Qed.

(** X6.  The mean of a non-empty sample lies within the sample: between
    any lower and any upper bound of its elements. *)
Theorem mean_within_sample
    (w : world) (values : loc) (xs : list Q) (lo hi : Q) :
  mem w !! values = Some (OList xs) ->
  xs <> [] ->
  (forall x, In x xs -> (lo <= x)%Q /\ (x <= hi)%Q) ->
  exists q, fst (mean values w) = Ok q /\ (lo <= q)%Q /\ (q <= hi)%Q.
Proof.
  intros Hv Hne Hb. rewrite (mean_run _ _ _ Hv). simpl.
  exists (mean_of xs). split; [reflexivity|].
  destruct (sum_bounds xs lo hi Hb) as [H1 H2].
  destruct xs as [|x0 xs0]; [congruence|]. unfold mean_of, statistics_mean.
  set (xs := x0 :: xs0) in *.
  assert (Hn : (0 < inject_Z (Z.of_nat (length xs)))%Q).
  { change 0%Q with (inject_Z 0). rewrite <- Zlt_Qlt. subst xs. simpl. lia. }
  split.
  - now apply Qle_shift_div_l.
  - now apply Qle_shift_div_r.
Qed.

Lemma mean_within_sample_witness :
  exists q, fst (mean 1%positive (sample_world [3; 1; 2]%Q)) = Ok q /\
            (1 <= q)%Q /\ (q <= 3)%Q.
Proof.
  apply (mean_within_sample (sample_world [3; 1; 2]%Q) 1%positive
           [3; 1; 2]%Q 1 3 eq_refl); [discriminate|].
  intros x [<-|[<-|[<-|[]]]]; split; discriminate.
Defined.

End PercentileFacts.

(* ===================================================================== *)
(** * More about backends.py: what the units' outcomes become            *)
(* ===================================================================== *)

Module OutcomeFacts.
Import Backends SpawnFacts StormFacts Samples.

Section Units.
Context {U V : Type}.
Variable code : coroutine (U:=U) (V:=V).

#[local] Abbreviation pool := (pool (U:=U) (V:=V)).
#[local] Abbreviation task := (task (U:=U) (V:=V)).

(** The number of units that have ended with an outcome satisfying [f]. *)
Definition ended_with (f : result V -> bool) (ts : list task) : Z :=
  count_true (fun t => match t with Exited o => f o | Live _ _ => false end) ts.

Lemma ended_with_insert_live f (ts : list task) i u c u' c' :
  ts !! i = Some (Live u c) ->
  ended_with f (<[i := Live u' c']> ts) = ended_with f ts.
Proof.
  unfold ended_with, count_true. revert i.
  induction ts as [|t ts IH]; intros [|i] H; simpl in *; try discriminate.
  - injection H as ->. reflexivity.
  - specialize (IH i H).
    destruct (match t with Exited o => f o | Live _ _ => false end); simpl; lia.
Qed.

Lemma ended_with_insert_exit f (ts : list task) i u c o :
  ts !! i = Some (Live u c) ->
  ended_with f (<[i := Exited o]> ts)
  = ended_with f ts + (if f o then 1 else 0).
Proof.
  unfold ended_with, count_true. revert i.
  induction ts as [|t ts IH]; intros [|i] H; simpl in *; try discriminate.
  - injection H as ->. destruct (f o); simpl; lia.
  - specialize (IH i H).
    destruct (match t with Exited o => f o | Live _ _ => false end); simpl; lia.
Qed.

Lemma ended_with_nonneg f (ts : list task) : 0 <= ended_with f ts.
Proof. unfold ended_with, count_true. lia. Qed.

(** No outcome is counted twice. *)
Lemma ended_with_disjoint (ts : list task) :
  ended_with isinstance_CancelledError ts
  + ended_with isinstance_other_error ts <= Z.of_nat (length ts).
Proof.
  unfold ended_with, count_true.
  induction ts as [|t ts IH]; simpl; [lia|].
  destruct t as [u c|[v|e]]; simpl; try lia.
  destruct e; simpl; lia.
Qed.

Lemma ended_with_all_live f (ts : list task) :
  (forall i t, ts !! i = Some t -> exists u c, t = Live u c) ->
  ended_with f ts = 0.
Proof.
  unfold ended_with, count_true. induction ts as [|t ts IH]; intros H;
    [reflexivity|].
  destruct (H 0%nat t eq_refl) as (u & c & ->). simpl.
  apply IH. intros i t' Ht'. apply (H (S i) t' Ht').
Qed.

(** A turn adds the outcome it reports, if any. *)
Lemma turn_ended f i (p : pool) :
  ended_with f (tasks (fst (turn code i p)))
  = ended_with f (tasks p)
    + match snd (turn code i p) with
      | Some o => if f o then 1 else 0
      | None => 0
      end.
Proof.
  unfold turn. destruct (tasks p !! i) as [[u [|]|o]|] eqn:E; simpl; try lia.
  - destruct (on_cancel code u (shared p)) as [o w]. simpl.
    now apply ended_with_insert_exit with u true.
  - destruct (resume code u (shared p)) as [[[d u'|v]|e] w]; simpl.
    + rewrite (ended_with_insert_live f _ i u false u' false E). lia.
    + now apply ended_with_insert_exit with u false.
    + now apply ended_with_insert_exit with u false.
Qed.

Lemma abort_ended f (p : pool) :
  ended_with f (tasks (abort p)) = ended_with f (tasks p).
Proof.
  unfold ended_with, count_true, abort. simpl.
  induction (tasks p) as [|t ts IH]; simpl; [reflexivity|].
  destruct t as [u c|o]; simpl; [exact IH|].
  destruct (f o); simpl; lia.
Qed.

Lemma abort_length (p : pool) : length (tasks (abort p)) = length (tasks p).
Proof. unfold abort. simpl. apply length_map. Qed.

Lemma cancel_all_ended f targets (p : pool) :
  ended_with f (tasks (fold_left (fun q i => cancel i q) targets p))
  = ended_with f (tasks p).
Proof.
  revert p. induction targets as [|i ts IH]; intros p; simpl; [reflexivity|].
  rewrite IH. unfold cancel.
  destruct (tasks p !! i) as [[u c|o]|] eqn:E; simpl; try reflexivity.
  now apply ended_with_insert_live with u c.
Qed.

(** ** asyncio: gather(return_exceptions=True) *)

Lemma outcomes_of_ended (ts : list task) os :
  outcomes_of ts = Some os ->
  all_exited ts = true /\
  forall f, count_true f os = ended_with f ts.
Proof.
  revert os. induction ts as [|t ts IH]; simpl; intros os.
  - intros [= <-]. split; reflexivity.
  - destruct t as [u c|o]; [discriminate|].
    destruct (outcomes_of ts) as [os'|]; [|discriminate]. intros [= <-].
    destruct (IH os' eq_refl) as [Hall Hcount]. split; [exact Hall|].
    intros f. specialize (Hcount f). unfold ended_with, count_true in *.
    simpl. destruct (f o); simpl; lia.
Qed.

Lemma gather_return_exceptions_outcomes sched (p p' : pool) os :
  gather_return_exceptions code sched p = (Some os, p') ->
  outcomes_of (tasks p') = Some os /\ length (tasks p') = length (tasks p).
Proof.
  revert p. induction sched as [|i s IH]; intros p; simpl.
  - destruct (outcomes_of (tasks p)) eqn:E; [|discriminate].
    intros [= <- <-]. auto.
  - destruct (outcomes_of (tasks p)) eqn:E.
    + intros [= <- <-]. auto.
    + intros H. destruct (IH _ H) as [Ho Hl]. split; [exact Ho|].
      now rewrite Hl, turn_length.
Qed.

Lemma storm_return_dict c e t (p p' : pool) r :
  storm_return c e t p = (r, p') ->
  tasks p' = tasks p /\
  exists l settle,
    r = Some (Ok l) /\
    mem (shared p') !! l = Some (ODict (storm_dict c e settle)).
Proof.
  unfold storm_return, in_pool, perf_counter, alloc. simpl.
  intros [= <- <-]. split; [reflexivity|].
  do 2 eexists. split; [reflexivity|]. simpl. apply lookup_insert_eq.
Qed.

(** ** trio and anyio: the runners' tally *)

Section Runner.
Variable on_turn : nat -> tally -> tally.
Hypothesis on_turn_counters : forall i t,
  cancelled (on_turn i t) = cancelled t /\
  other_errors (on_turn i t) = other_errors t.

(** What the tally has that the outcomes do not account for. *)
Definition surplus (t : tally) (p : pool) : Z * Z :=
  (cancelled t - ended_with isinstance_CancelledError (tasks p),
   other_errors t - ended_with isinstance_other_error (tasks p)).

Lemma runner_turn_tally i t (p : pool) t' p' ex :
  runner_turn code on_turn storm_runner_exit i t p = (t', p', ex) ->
  surplus t' p' = surplus t p /\
  length (tasks p') = length (tasks p) /\
  (ex = None -> other_errors t' = other_errors t).
Proof.
  unfold runner_turn, surplus.
  set (t1 := if is_live i p then on_turn i t else t).
  assert (H1 : cancelled t1 = cancelled t /\ other_errors t1 = other_errors t).
  { subst t1. destruct (is_live i p); [apply on_turn_counters|auto]. }
  destruct H1 as [Hc He].
  pose proof (turn_ended isinstance_CancelledError i p) as HC.
  pose proof (turn_ended isinstance_other_error i p) as HO.
  pose proof (turn_length code i p) as HL.
  destruct (turn code i p) as [q [o|]]; simpl in *; intros [= <- <- <-].
  - split; [|split; [exact HL|]].
    + destruct o as [v|e]; simpl in *; [f_equal; lia|].
      destruct e; simpl in *; f_equal; lia.
    + destruct o as [v|e]; simpl; [auto|]. destruct e; simpl; auto; discriminate.
  - split; [f_equal; lia|]. auto.
Qed.

Lemma during_tally sched t (p : pool) t' p' ex :
  during code on_turn storm_runner_exit t sched p = (t', p', ex) ->
  surplus t' p' = surplus t p /\
  length (tasks p') = length (tasks p) /\
  (ex = None -> other_errors t' = other_errors t).
Proof.
  revert t p. induction sched as [|i s IH]; intros t p; simpl.
  - intros [= <- <- <-]. auto.
  - destruct (runner_turn code on_turn storm_runner_exit i t p)
      as [[t1 p1] [e|]] eqn:Hrt;
      destruct (runner_turn_tally _ _ _ _ _ _ Hrt) as (Hs & Hl & Ho).
    + intros [= <- <- <-]. split; [|split; [|discriminate]].
      * rewrite <- Hs. unfold surplus. now rewrite !abort_ended.
      * now rewrite abort_length.
    + intros H. destruct (IH _ _ H) as (Hs' & Hl' & Ho').
      split; [congruence|]. split; [congruence|].
      intros ->. rewrite Ho', Ho; auto.
Qed.

Lemma join_tally sched failed t (p : pool) r t' p' :
  join code on_turn storm_runner_exit failed t sched p = (r, t', p') ->
  surplus t' p' = surplus t p /\
  length (tasks p') = length (tasks p) /\
  (r = Some None -> failed = None /\ other_errors t' = other_errors t) /\
  (r <> None -> all_exited (tasks p') = true).
Proof.
  revert failed t p. induction sched as [|i s IH]; intros failed t p; simpl.
  - destruct (all_exited (tasks p)) eqn:E; intros [= <- <- <-];
      repeat split; congruence.
  - destruct (all_exited (tasks p)) eqn:E.
    { intros [= <- <- <-]. repeat split; congruence. }
    destruct (runner_turn code on_turn storm_runner_exit i t p)
      as [[t1 p1] [e|]] eqn:Hrt;
      destruct (runner_turn_tally _ _ _ _ _ _ Hrt) as (Hs & Hl & Ho).
    + destruct failed as [e0|].
      * intros H. destruct (IH _ _ _ H) as (Hs' & Hl' & Hr' & Ha').
        split; [congruence|]. split; [congruence|]. split; [|exact Ha'].
        intros Hr. now destruct (Hr' Hr).
      * intros H. destruct (IH _ _ _ H) as (Hs' & Hl' & Hr' & Ha').
        split; [|split; [|split; [|exact Ha']]].
        -- rewrite Hs', <- Hs. unfold surplus. now rewrite !abort_ended.
        -- now rewrite Hl', abort_length.
        -- intros Hr. now destruct (Hr' Hr).
    + intros H. destruct (IH _ _ _ H) as (Hs' & Hl' & Hr' & Ha').
      split; [congruence|]. split; [congruence|]. split; [|exact Ha'].
      intros Hr. destruct (Hr' Hr) as [-> Hoe]. split; [reflexivity|].
      rewrite Hoe. now apply Ho.
Qed.

Lemma group_storm_outcomes
    (targets : tally -> list nat) (sleeping : M unit)
    (n : Z) (fn : nat -> U) s w l (p : pool) :
  group_cancellation_storm code on_turn targets sleeping n fn s w
  = (Some (Ok l), p) ->
  exists c settle,
    mem (shared p) !! l = Some (ODict (storm_dict c 0 settle)) /\
    all_exited (tasks p) = true /\
    length (tasks p) = Z.to_nat n /\
    c = ended_with isinstance_CancelledError (tasks p) /\
    0 = ended_with isinstance_other_error (tasks p).
Proof.
  unfold group_cancellation_storm.
  set (p0 := create_tasks fn n w).
  assert (Hlen0 : length (tasks p0) = Z.to_nat n) by apply created_length.
  assert (Hs0 : surplus (Tally 0 0 []) p0 = (0, 0)).
  { unfold surplus. simpl cancelled. simpl other_errors.
    rewrite !ended_with_all_live; [reflexivity| |];
      intros i t; subst p0; simpl; rewrite list_lookup_fmap;
      destruct (range n !! i); simpl; intros [= <-]; eauto. }
  assert (Hfail : forall e t q r,
            match join code on_turn storm_runner_exit (Some e) t
                       (after_signal s) q with
            | (None, _, p') => (None, p')
            | (Some _, _, p') => (Some (Err e), p')
            end = (Some (Ok l), r) -> False).
  { intros e t q r.
    destruct (join code on_turn storm_runner_exit (Some e) t (after_signal s) q)
      as [[[f|] t'] p']; discriminate. }
  pose proof (in_pool_tasks sleeping p0) as Ht1.
  destruct (in_pool sleeping p0) as [[[]|e] p1]; simpl in Ht1;
    [|intros H; now apply Hfail in H].
  destruct (during code on_turn storm_runner_exit (Tally 0 0 []) (before_signal s) p1)
    as [[t1 p2] [e|]] eqn:Hd; [intros H; now apply Hfail in H|].
  destruct (during_tally _ _ _ _ _ _ Hd) as (Hs2 & Hl2 & Ho2).
  pose proof (in_pool_tasks perf_counter p2) as Ht3.
  destruct (in_pool perf_counter p2) as [[cancel_start|e] p3]; simpl in Ht3;
    [|intros H; now apply Hfail in H].
  set (p4 := fold_left (fun q i => cancel i q) (targets t1) p3).
  destruct (join code on_turn storm_runner_exit None t1 (after_signal s) p4)
    as [[[[e|]|] t2] p5] eqn:Hj; try discriminate.
  destruct (join_tally _ _ _ _ _ _ _ Hj) as (Hs5 & Hl5 & Hr5 & Ha5).
  destruct (Hr5 eq_refl) as [_ Ho5]. specialize (Ha5 ltac:(discriminate)).
  intros Hret. destruct (storm_return_dict _ _ _ _ _ _ Hret)
    as (Htasks & l' & settle & [= <-] & Hl).
  assert (Hsur : surplus t2 p5 = (0, 0)).
  { rewrite Hs5. unfold surplus, p4. rewrite !cancel_all_ended, Ht3.
    fold (surplus t1 p2). rewrite Hs2. unfold surplus. rewrite Ht1.
    exact Hs0. }
  unfold surplus in Hsur. injection Hsur as Hc He.
  assert (Hoe : other_errors t2 = 0) by (rewrite Ho5, Ho2; auto).
  rewrite Hoe in Hl, He.
  exists (cancelled t2), settle. rewrite Htasks.
  split; [exact Hl|]. split; [exact Ha5|]. split.
  - rewrite Hl5. unfold p4. rewrite cancel_all_length, Ht3, Hl2, Ht1.
    exact Hlen0.
  - split; lia.
Qed.
End Runner.

Lemma trio_runner_turn_counters i t :
  cancelled (trio_runner_turn i t) = cancelled t /\
  other_errors (trio_runner_turn i t) = other_errors t.
Proof. unfold trio_runner_turn. now destruct (bool_decide _). Qed.

Lemma asyncio_storm_outcomes (n : Z) (ca : Q) (fn : nat -> U) s w l (p : pool) :
  AsyncioBackend_cancellation_storm code n ca fn s w = (Some (Ok l), p) ->
  exists c e settle,
    mem (shared p) !! l = Some (ODict (storm_dict c e settle)) /\
    all_exited (tasks p) = true /\
    length (tasks p) = Z.to_nat n /\
    c = ended_with isinstance_CancelledError (tasks p) /\
    e = ended_with isinstance_other_error (tasks p).
Proof.
  unfold AsyncioBackend_cancellation_storm.
  set (p0 := create_tasks fn n w).
  assert (Hlen0 : length (tasks p0) = Z.to_nat n) by apply created_length.
  pose proof (free_run_length code (before_signal s) p0) as Hlen1.
  set (p1 := free_run code (before_signal s) p0) in *.
  pose proof (in_pool_tasks perf_counter p1) as Ht2.
  destruct (in_pool perf_counter p1) as [[cancel_start|e] p2]; simpl in Ht2;
    [|discriminate].
  set (p3 := fold_left (fun q i => cancel i q) (range n) p2).
  destruct (gather_return_exceptions code (after_signal s) p3)
    as [[results|] p4] eqn:Hg; [|discriminate].
  destruct (gather_return_exceptions_outcomes _ _ _ _ Hg) as [Ho Hl4].
  destruct (outcomes_of_ended _ _ Ho) as [Hall Hcount].
  intros Hret. destruct (storm_return_dict _ _ _ _ _ _ Hret)
    as (Htasks & l' & settle & [= <-] & Hl).
  do 3 eexists. split; [exact Hl|]. rewrite Htasks.
  split; [exact Hall|]. split; [|split; apply Hcount].
  rewrite Hl4. unfold p3. rewrite cancel_all_length, Ht2, Hlen1. exact Hlen0.
Qed.

Lemma storm_outcomes
    (b : backend) (task_count : Z) (cancel_after : Q) (task_fn : nat -> U)
    (s : storm_schedule) (w : world) (l : loc) (p : pool) :
  cancellation_storm code b task_count cancel_after task_fn s w
  = (Some (Ok l), p) ->
  exists c e settle,
    mem (shared p) !! l = Some (ODict (storm_dict c e settle)) /\
    all_exited (tasks p) = true /\
    length (tasks p) = Z.to_nat task_count /\
    c = ended_with isinstance_CancelledError (tasks p) /\
    e = ended_with isinstance_other_error (tasks p) /\
    (b <> Asyncio -> e = 0).
Proof.
  destruct b; simpl; intros H.
  - destruct (asyncio_storm_outcomes _ _ _ _ _ _ _ H)
      as (c & e & settle & H1 & H2 & H3 & H4 & H5).
    exists c, e, settle. repeat split; try assumption. congruence.
  - destruct (group_storm_outcomes _ trio_runner_turn_counters _ _ _ _ _ _ _ _ H)
      as (c & settle & H1 & H2 & H3 & H4 & H5).
    exists c, 0, settle. repeat split; assumption.
  - destruct (group_storm_outcomes anyio_runner_turn (fun i t => conj eq_refl eq_refl)
                _ _ _ _ _ _ _ _ H)
      as (c & settle & H1 & H2 & H3 & H4 & H5).
    exists c, 0, settle. repeat split; assumption.
Qed.

Lemma ended_with_none f (ts : list task) i o :
  ended_with f ts = 0 -> ts !! i = Some (Exited o) -> f o = false.
Proof.
  unfold ended_with, count_true. revert i.
  induction ts as [|t ts IH]; intros [|i]; simpl; try discriminate.
  - intros H [= ->]. destruct (f o); [simpl in H; lia|reflexivity].
  - intros H. apply IH.
    destruct (match t with Exited o => f o | Live _ _ => false end);
      simpl in H; lia.
Qed.

(** X7.  The counters of a storm count outcomes.  Whenever
    cancellation_storm returns its dict, for any units (under asyncio:
    units none of which has ended by returning, since gather hands a
    returned value and a raised exception to isinstance alike): every unit
    has ended, "cancelled" is the number of units that ended with the
    cancellation exception and "exceptions" the number that ended with
    another Exception; so both are non-negative and their sum is at most
    the number of units. *)
Theorem storm_counters_count_outcomes
    (b : backend) (task_count : Z) (cancel_after : Q) (task_fn : nat -> U)
    (s : storm_schedule) (w : world) (l : loc) (p : pool) :
  cancellation_storm code b task_count cancel_after task_fn s w
  = (Some (Ok l), p) ->
  (b = Asyncio -> forall i v, tasks p !! i <> Some (Exited (Ok v))) ->
  exists c e settle,
    mem (shared p) !! l = Some (ODict (storm_dict c e settle)) /\
    all_exited (tasks p) = true /\
    length (tasks p) = Z.to_nat task_count /\
    c = ended_with isinstance_CancelledError (tasks p) /\
    e = ended_with isinstance_other_error (tasks p) /\
    0 <= c /\ 0 <= e /\ c + e <= Z.max 0 task_count.
Proof.
  intros H _.
  destruct (storm_outcomes _ _ _ _ _ _ _ _ H)
    as (c & e & settle & H1 & H2 & H3 & H4 & H5 & _).
  exists c, e, settle. repeat split; try assumption.
  - subst c. apply ended_with_nonneg.
  - subst e. apply ended_with_nonneg.
  - subst c e. pose proof (ended_with_disjoint (tasks p)). lia.
Qed.

(** X8.  Under trio and anyio a storm that returns its dict reports no
    exception: "exceptions" is 0 and no unit has ended with an Exception
    other than the cancellation (a unit that does makes the storm raise
    instead of returning). *)
Theorem group_storm_reports_no_exception
    (b : backend) (task_count : Z) (cancel_after : Q) (task_fn : nat -> U)
    (s : storm_schedule) (w : world) (l : loc) (p : pool) :
  b <> Asyncio ->
  cancellation_storm code b task_count cancel_after task_fn s w
  = (Some (Ok l), p) ->
  (exists c settle,
     mem (shared p) !! l = Some (ODict (storm_dict c 0 settle))) /\
  (forall i e, tasks p !! i = Some (Exited (Err e)) -> e = CancelledError).
Proof.
  intros Hb H.
  destruct (storm_outcomes _ _ _ _ _ _ _ _ H)
    as (c & e & settle & H1 & H2 & H3 & H4 & H5 & H6).
  specialize (H6 Hb). rewrite H6 in H1, H5. split; [eauto|].
  intros i e' Hi. symmetry in H5.
  pose proof (ended_with_none _ _ _ _ H5 Hi) as Hf. simpl in Hf.
  now destruct e'.
Qed.

(** Under asyncio the storm never raises, whatever the units do:
    gather(return_exceptions=True) collects their failures, so the storm
    either returns its dict or is still waiting for a unit. *)
Lemma asyncio_storm_never_raises
    (task_count : Z) (cancel_after : Q) (task_fn : nat -> U)
    (s : storm_schedule) (w : world) (e : exn) (p : pool) :
  cancellation_storm code Asyncio task_count cancel_after task_fn s w
  <> (Some (Err e), p).
Proof.
  simpl. unfold AsyncioBackend_cancellation_storm.
  destruct (in_pool_perf_counter
              (free_run code (before_signal s) (create_tasks task_fn task_count w)))
    as (t & p2 & -> & _).
  destruct (gather_return_exceptions code (after_signal s) _)
    as [[results|] p4]; [|discriminate].
  intros Hret. destruct (storm_return_dict _ _ _ _ _ _ Hret)
    as (_ & l & settle & Hr & _). discriminate.
Qed.

(** ** Leaving a nursery or task group *)

Section Nursery.
Context {R : Type}.
Variable on_turn : nat -> R -> R.
Variable on_exit : nat -> result V -> R -> R.

Lemma runner_turn_length i r (p : pool) :
  length (tasks (snd (fst (runner_turn code on_turn on_exit i r p))))
  = length (tasks p).
Proof.
  unfold runner_turn. pose proof (turn_length code i p) as H.
  now destruct (turn code i p) as [p' [o|]].
Qed.

(** The block is left only when every child has ended. *)
Lemma join_all_exited sched failed r (p : pool) res r' p' :
  join code on_turn on_exit failed r sched p = (Some res, r', p') ->
  all_exited (tasks p') = true /\ length (tasks p') = length (tasks p).
Proof.
  revert failed r p. induction sched as [|i s IH]; intros failed r p; simpl.
  - destruct (all_exited (tasks p)) eqn:E; intros [= <- <- <-]. auto.
  - destruct (all_exited (tasks p)) eqn:E; [intros [= <- <- <-]; auto|].
    pose proof (runner_turn_length i r p) as Hl.
    destruct (runner_turn code on_turn on_exit i r p) as [[r1 p1] [e|]];
      simpl in Hl.
    + destruct failed as [e0|]; intros H; destruct (IH _ _ _ H) as [Ha Hl'];
        (split; [exact Ha|]); rewrite Hl', ?abort_length; exact Hl.
    + intros H. destruct (IH _ _ _ H) as [Ha Hl'].
      split; [exact Ha|]. now rewrite Hl'.
Qed.

Lemma during_length sched r (p : pool) :
  length (tasks (snd (fst (during code on_turn on_exit r sched p))))
  = length (tasks p).
Proof.
  revert r p. induction sched as [|i s IH]; intros r p; simpl; [reflexivity|].
  pose proof (runner_turn_length i r p) as Hl.
  destruct (runner_turn code on_turn on_exit i r p) as [[r1 p1] [e|]];
    cbn [fst snd] in *.
  - now rewrite abort_length.
  - now rewrite IH.
Qed.
End Nursery.

Lemma group_storm_all_exited
    (on_turn : nat -> tally -> tally) (targets : tally -> list nat)
    (sleeping : M unit) (n : Z) (fn : nat -> U) s w r (p : pool) :
  group_cancellation_storm code on_turn targets sleeping n fn s w = (Some r, p) ->
  all_exited (tasks p) = true /\ length (tasks p) = Z.to_nat n.
Proof.
  unfold group_cancellation_storm.
  set (p0 := create_tasks fn n w).
  assert (Hlen0 : length (tasks p0) = Z.to_nat n) by apply created_length.
  assert (Hfail : forall e t q,
            length (tasks q) = Z.to_nat n ->
            match join code on_turn storm_runner_exit (Some e) t
                       (after_signal s) q with
            | (None, _, p') => (None, p')
            | (Some _, _, p') => (Some (Err e), p')
            end = (Some r, p) ->
            all_exited (tasks p) = true /\ length (tasks p) = Z.to_nat n).
  { intros e t q Hq.
    destruct (join code on_turn storm_runner_exit (Some e) t (after_signal s) q)
      as [[[f|] t'] p'] eqn:Hj; [|discriminate].
    intros [= <- <-]. destruct (join_all_exited _ _ _ _ _ _ _ _ _ Hj) as [Ha Hl].
    split; [exact Ha|congruence]. }
  pose proof (in_pool_tasks sleeping p0) as Ht1.
  destruct (in_pool sleeping p0) as [[[]|e] p1]; simpl in Ht1.
  2:{ apply Hfail. now rewrite abort_length, Ht1. }
  pose proof (during_length on_turn storm_runner_exit (before_signal s)
                (Tally 0 0 []) p1) as Hl2.
  destruct (during code on_turn storm_runner_exit (Tally 0 0 []) (before_signal s) p1)
    as [[t1 p2] [e|]]; simpl in Hl2.
  { apply Hfail. now rewrite Hl2, Ht1. }
  pose proof (in_pool_tasks perf_counter p2) as Ht3.
  destruct (in_pool perf_counter p2) as [[cancel_start|e] p3]; simpl in Ht3.
  2:{ apply Hfail. now rewrite abort_length, Ht3, Hl2, Ht1. }
  set (p4 := fold_left (fun q i => cancel i q) (targets t1) p3).
  assert (Hl4 : length (tasks p4) = Z.to_nat n).
  { unfold p4. now rewrite cancel_all_length, Ht3, Hl2, Ht1. }
  destruct (join code on_turn storm_runner_exit None t1 (after_signal s) p4)
    as [[[[e|]|] t2] p5] eqn:Hj; try discriminate;
    destruct (join_all_exited _ _ _ _ _ _ _ _ _ Hj) as [Ha Hl].
  - intros [= <- <-]. split; [exact Ha|congruence].
  - intros Hret. destruct (storm_return_dict _ _ _ _ _ _ Hret) as [Htasks _].
    rewrite Htasks. split; [exact Ha|congruence].
Qed.

Variable none : V.

(** X9.  Structured concurrency under trio and anyio: whenever spawn_many
    or cancellation_storm returns or raises, every one of the units it
    launched has ended; none is left running. *)
Theorem task_group_leaves_no_unit_running
    (b : backend) (count : Z) (cancel_after : Q) (fn : nat -> U)
    (sched : list nat) (s : storm_schedule) (w : world) :
  b <> Asyncio ->
  (forall r (p : pool),
     spawn_many code none b count fn sched w = (Some r, p) ->
     all_exited (tasks p) = true /\ length (tasks p) = Z.to_nat count) /\
  (forall r (p : pool),
     cancellation_storm code b count cancel_after fn s w = (Some r, p) ->
     all_exited (tasks p) = true /\ length (tasks p) = Z.to_nat count).
Proof.
  intros Hb.
  assert (Hspawn : forall r (p : pool),
            group_spawn_many code none count fn sched w = (Some r, p) ->
            all_exited (tasks p) = true /\ length (tasks p) = Z.to_nat count).
  { intros r p. unfold group_spawn_many.
    destruct (join code (fun _ r => r) spawn_runner_exit None
                (replicate (Z.to_nat count) none) sched (create_tasks fn count w))
      as [[[[e|]|] rs] p'] eqn:Hj; intros [= <- <-];
      destruct (join_all_exited _ _ _ _ _ _ _ _ _ Hj) as [Ha Hl];
      (split; [exact Ha|]); rewrite Hl; apply created_length. }
  destruct b; [congruence| |]; split; try exact Hspawn; intros r p;
    apply group_storm_all_exited.
Qed.

(** ** asyncio.gather and the first failure *)

(** The trace of a turn: the exit of the unit, if it ended. *)
Lemma turn_trace i (p q : pool) o :
  turn code i p = (q, o) ->
  match o with
  | Some r => trace q = trace p ++ [Exit i r]
  | None => forall j e, In (Exit j (Err e)) (trace q) ->
                        In (Exit j (Err e)) (trace p)
  end.
Proof.
  unfold turn.
  destruct (tasks p !! i) as [[u [|]|o']|].
  - destruct (on_cancel code u (shared p)) as [r w]. now intros [= <- <-].
  - destruct (resume code u (shared p)) as [[[d u'|v]|e] w];
      intros [= <- <-]; try reflexivity.
    simpl. intros j e Hin. apply in_app_or in Hin as [Hin|[Hin|[]]];
      [assumption|discriminate].
  - now intros [= <- <-].
  - now intros [= <- <-].
Qed.

Lemma gather_first_failure sched (p p' : pool) e :
  (forall j e', ~ In (Exit j (Err e')) (trace p)) ->
  gather code sched p = (Some (Err e), p') ->
  exists i before,
    tasks p' !! i = Some (Exited (Err e)) /\
    trace p' = before ++ [Exit i (Err e)] /\
    forall j e', ~ In (Exit j (Err e')) before.
Proof.
  revert p. induction sched as [|i s IH]; intros p Hno; simpl.
  - destruct (results_of (tasks p)); discriminate.
  - destruct (results_of (tasks p)); [discriminate|].
    destruct (turn code i p) as [q [[v|e0]|]] eqn:Ht;
      pose proof (turn_trace _ _ _ _ Ht) as Htr; cbv beta iota in Htr.
    + apply IH. intros j e' Hin. rewrite Htr in Hin.
      apply in_app_or in Hin as [Hin|[Hin|[]]];
        [now apply (Hno j e')|discriminate].
    + intros [= <- <-]. exists i, (trace p).
      split; [apply (turn_reports code _ _ _ _ Ht)|]. now split.
    + apply IH. intros j e' Hin. apply (Hno j e'). now apply Htr.
Qed.

(** X10.  Under asyncio the exception spawn_many raises is that of the
    first unit to fail: a unit has ended with it, and no unit had failed
    before that one did. *)
Theorem asyncio_spawn_many_first_failure
    (count : Z) (fn : nat -> U) (sched : list nat) (w : world)
    (e : exn) (p : pool) :
  spawn_many code none Asyncio count fn sched w = (Some (Err e), p) ->
  exists i before after,
    tasks p !! i = Some (Exited (Err e)) /\
    trace p = before ++ Exit i (Err e) :: after /\
    forall j e', ~ In (Exit j (Err e')) before.
Proof.
  simpl. unfold AsyncioBackend_spawn_many. intros H.
  assert (Hno : forall j e',
            ~ In (Exit (V:=V) j (Err e')) (trace (create_tasks fn count w))).
  { intros j e'. unfold create_tasks. simpl. intros Hin.
    apply in_map_iff in Hin as (k & Hk & _). discriminate. }
  destruct (gather_first_failure sched _ _ _ Hno H)
    as (i & before & H1 & H2 & H3).
  now exists i, before, [].
Qed.

(** ** No units *)

Lemma free_run_no_units sched w :
  free_run code sched (Pool [] w []) = Pool [] w [].
Proof. induction sched as [|i s IH]; simpl; [reflexivity|exact IH]. Qed.

Lemma during_no_units {R} (on_turn : nat -> R -> R) on_exit sched r w :
  during code on_turn on_exit r sched (Pool [] w []) = (r, Pool [] w [], None).
Proof. induction sched as [|i s IH]; simpl; [reflexivity|exact IH]. Qed.

Lemma group_storm_no_units
    (on_turn : nat -> tally -> tally) (targets : tally -> list nat)
    (sleeping : M unit) (n : Z) (fn : nat -> U) s w w1 :
  n <= 0 -> sleeping w = (Ok tt, w1) ->
  exists l p,
    group_cancellation_storm code on_turn targets sleeping n fn s w
    = (Some (Ok l), p).
Proof.
  intros Hn Hs. unfold group_cancellation_storm, create_tasks, range.
  replace (Z.to_nat n) with 0%nat by lia. simpl.
  unfold in_pool at 1. simpl. rewrite Hs.
  rewrite during_no_units. simpl.
  assert (Hc : forall ts (q : pool), tasks q = [] ->
            tasks (fold_left (fun q i => cancel i q) ts q) = []).
  { intros ts q Hq. apply length_zero_iff_nil.
    now rewrite cancel_all_length, Hq. }
  set (p4 := fold_left _ _ _).
  assert (H4 : tasks p4 = []) by (now apply Hc).
  destruct (after_signal s) as [|i0 s0]; simpl; rewrite H4; simpl;
    match goal with
    | |- context [storm_return ?c ?e ?t ?q] =>
        destruct (storm_return_ok c e t q) as (l & p' & settle & Hr & _)
    end; eauto.
Qed.

(** X11.  No units.  With count <= 0 (a negative count is an empty range)
    spawn_many returns the empty list without running anything, under
    asyncio for every such count and under trio and anyio, whose
    [None] * count needs a count that fits an index, from -2^31 on; and
    cancellation_storm returns at once, whatever the schedule, with both
    counters 0 (under trio for a non-negative cancel_after). *)
Theorem no_units
    (b : backend) (count : Z) (cancel_after : Q) (fn : nat -> U)
    (sched : list nat) (s : storm_schedule) (w : world) :
  count <= 0 ->
  ((b <> Asyncio -> - 2 ^ 31 <= count) ->
   spawn_many code none b count fn sched w = (Some (Ok []), Pool [] w [])) /\
  ((b = Trio -> (0 <= cancel_after)%Q) ->
   exists l (p : pool) settle,
     cancellation_storm code b count cancel_after fn s w = (Some (Ok l), p) /\
     mem (shared p) !! l = Some (ODict (storm_dict 0 0 settle))).
Proof.
  intros Hn.
  assert (Hr : range count = []) by (unfold range; now replace (Z.to_nat count) with 0%nat by lia).
  split.
  - intros _. destruct b; simpl;
      unfold AsyncioBackend_spawn_many, TrioBackend_spawn_many,
        AnyioBackend_spawn_many, group_spawn_many, create_tasks;
      rewrite Hr; replace (Z.to_nat count) with 0%nat by lia;
      destruct sched; reflexivity.
  - intros Hca.
    assert (Hex : exists l (p : pool),
              cancellation_storm code b count cancel_after fn s w
              = (Some (Ok l), p)).
    { destruct b; simpl.
      - unfold AsyncioBackend_cancellation_storm, create_tasks.
        rewrite Hr. simpl. rewrite free_run_no_units. simpl.
        destruct (after_signal s) as [|i0 s0]; simpl;
          match goal with
          | |- context [storm_return ?c ?e ?t ?q] =>
              destruct (storm_return_ok c e t q) as (l & p' & settle & H & _)
          end; eauto.
      - apply group_storm_no_units with w; [exact Hn|].
        unfold sleep. apply Qle_bool_iff in Hca; [|reflexivity].
        now rewrite Hca.
      - now apply group_storm_no_units with w. }
    destruct Hex as (l & p & Hrun).
    destruct (storm_outcomes _ _ _ _ _ _ _ _ Hrun)
      as (c & e & settle & H1 & H2 & H3 & H4 & H5 & _).
    exists l, p, settle. split; [exact Hrun|].
    assert (Ht : tasks p = []).
    { apply length_zero_iff_nil. rewrite H3. lia. }
    rewrite Ht in H4, H5. now subst c e.
Qed.

End Units.

(** A storm in which unit 0 fails before the signal and unit 1 is
    cancelled. *)
Lemma storm_counters_count_outcomes_witness :
  exists c e settle,
    mem (shared (snd (cancellation_storm scripted Asyncio 2 0 one_fails
                        (StormSchedule [0]%nat [1; 0]%nat) empty_world)))
      !! 1%positive = Some (ODict (storm_dict c e settle)) /\
    c = 1 /\ e = 1.
Proof.
  destruct (storm_counters_count_outcomes scripted Asyncio 2 0 one_fails
              (StormSchedule [0]%nat [1; 0]%nat) empty_world 1%positive
              (snd (cancellation_storm scripted Asyncio 2 0 one_fails
                      (StormSchedule [0]%nat [1; 0]%nat) empty_world))
              eq_refl
              ltac:(intros _ [|[|i]] v; vm_compute; discriminate))
    as (c & e & settle & H1 & _ & _ & Hc & He & _).
  exists c, e, settle. split; [exact H1|].
  split; [rewrite Hc|rewrite He]; reflexivity.
Defined.

Lemma group_storm_reports_no_exception_witness :
  exists c settle,
    mem (shared (snd (cancellation_storm scripted Trio 2 0 countdown
                        (StormSchedule [0; 1]%nat [1; 0]%nat) empty_world)))
      !! 1%positive = Some (ODict (storm_dict c 0 settle)).
Proof.
  apply (group_storm_reports_no_exception scripted Trio 2 0 countdown
           (StormSchedule [0; 1]%nat [1; 0]%nat) empty_world 1%positive
           (snd (cancellation_storm scripted Trio 2 0 countdown
                   (StormSchedule [0; 1]%nat [1; 0]%nat) empty_world))
           ltac:(discriminate) eq_refl).
Defined.

Lemma task_group_leaves_no_unit_running_witness :
  all_exited (tasks (snd (spawn_many scripted VNone Trio 2 one_fails
                            [0; 1; 1]%nat empty_world))) = true.
Proof.
  apply (proj1 (task_group_leaves_no_unit_running scripted VNone Trio 2 0
                  one_fails [0; 1; 1]%nat (StormSchedule [] []) empty_world
                  ltac:(discriminate))
           (Err (RuntimeError 7))
           (snd (spawn_many scripted VNone Trio 2 one_fails [0; 1; 1]%nat
                   empty_world)) eq_refl).
Defined.

Lemma asyncio_spawn_many_first_failure_witness :
  exists i,
    tasks (snd (spawn_many scripted VNone Asyncio 2 one_fails [1; 0; 1]%nat
                  empty_world)) !! i
    = Some (Exited (Err (RuntimeError 7))).
Proof.
  destruct (asyncio_spawn_many_first_failure scripted VNone 2 one_fails
              [1; 0; 1]%nat empty_world (RuntimeError 7)
              (snd (spawn_many scripted VNone Asyncio 2 one_fails
                      [1; 0; 1]%nat empty_world)) eq_refl)
    as (i & before & after & Hi & _).
  now exists i.
Defined.

Lemma no_units_witness :
  spawn_many scripted VNone Anyio (-1) countdown [0; 1]%nat empty_world
  = (Some (Ok []), Pool [] empty_world []).
Proof.
  apply (proj1 (no_units scripted VNone Anyio (-1) 0 countdown [0; 1]%nat
                  (StormSchedule [] []) empty_world ltac:(lia))).
  intros _. lia.
Defined.

End OutcomeFacts.

(* ===================================================================== *)
(** * More about io_bound.py: a zero mean delay                          *)
(* ===================================================================== *)

Module ZeroDelayFacts.
Import PyFacts Utils UtilsFacts MetricsFacts Backends SpawnFacts StormFacts
       OutcomeFacts Benchmarks IOFacts Samples.

Section Workers.
Variable expovariate_value : Z -> nat -> Q -> Q.
Variable b : backend.
Variables params rng op_latencies : loc.
Variables concurrency ops_per_worker : Z.
Variable mean_delay_ms : Q.
Variable seed : Z.

Hypothesis mean_zero : (mean_delay_ms == 0)%Q.
Hypothesis some_ops : 1 <= ops_per_worker.

#[local] Abbreviation the_worker :=
  (worker expovariate_value b params rng op_latencies).
#[local] Abbreviation pool := (pool (U:=worker_state) (V:=value)).
#[local] Abbreviation task := (task (U:=worker_state) (V:=value)).

Definition has_params (w : world) : Prop :=
  mem w !! params
  = Some (ODict (IOBoundParams concurrency ops_per_worker mean_delay_ms seed)).

(** The first thing a worker does is divide by the mean delay. *)
Lemma resume_start_raises w :
  has_params w -> resume the_worker WorkerStart w = (Err ZeroDivisionError, w).
Proof.
  intros Hp. simpl.
  rewrite (bind_run _ _ _ _ _ (getattr_run _ _ "ops_per_worker" _ _ Hp eq_refl)).
  unfold as_int at 1. unfold bind at 1, ret at 1.
  rewrite length_range. destruct (Z.to_nat ops_per_worker) as [|r] eqn:E; [lia|].
  unfold worker_loop.
  rewrite (bind_run _ _ _ _ _ (getattr_run _ _ "mean_delay_ms" _ _ Hp eq_refl)).
  unfold as_float at 1. unfold bind at 1, ret at 1.
  unfold truediv. now rewrite (proj2 (Qeq_bool_iff _ _) mean_zero).
Qed.

(** The tasks of such a run: not started yet or failed on the division;
    with [k], also cancelled by their task group. *)
Definition failing_task (k : bool) (t : task) : Prop :=
  t = Live WorkerStart false \/ t = Exited (Err ZeroDivisionError) \/
  (k = true /\ (t = Live WorkerStart true \/ t = Exited (Err CancelledError))).

Definition failing (k : bool) (ts : list task) : Prop :=
  forall i t, ts !! i = Some t -> failing_task k t.

Definition waiting (ts : list task) : Prop :=
  forall i t, ts !! i = Some t -> t = Live WorkerStart false.

Lemma waiting_failing k ts : waiting ts -> failing k ts.
Proof. intros H i t Ht. left. eauto. Qed.

Lemma insert_failing k (ts : list task) i t :
  failing k ts -> failing_task k t -> failing k (<[i := t]> ts).
Proof.
  intros H Ht j t' Hj. destruct (decide (i = j)) as [->|Hij].
  - destruct (decide (j < length ts)%nat) as [Hlt|Hge].
    + rewrite list_lookup_insert_eq in Hj by assumption. now injection Hj as <-.
    + rewrite list_insert_ge in Hj by lia. eauto.
  - rewrite list_lookup_insert_ne in Hj by assumption. eauto.
Qed.

Lemma turn_failing k i (p : pool) :
  has_params (shared p) -> failing k (tasks p) ->
  exists p' ev,
    turn the_worker i p = (p', ev) /\
    shared p' = shared p /\ failing k (tasks p') /\
    ((ev = None /\ p' = p) \/
     (ev = Some (Err ZeroDivisionError) /\
      tasks p !! i = Some (Live WorkerStart false)) \/
     (ev = Some (Err CancelledError) /\
      tasks p !! i = Some (Live WorkerStart true))).
Proof.
  intros Hp Hf. unfold turn.
  destruct (tasks p !! i) as [t|] eqn:E;
    [|exists p, None; repeat split; auto].
  destruct (Hf i t E) as [->|[->|[Hk [-> | ->]]]].
  - rewrite (resume_start_raises _ Hp).
    eexists _, _. split; [reflexivity|]. split; [reflexivity|].
    split; [|right; left; auto].
    apply insert_failing; [assumption|]. right. now left.
  - exists p, None. repeat split; auto.
  - eexists _, _. split; [reflexivity|]. split; [reflexivity|].
    split; [|right; right; auto].
    apply insert_failing; [assumption|]. right. right. auto.
  - exists p, None. repeat split; auto.
Qed.

Lemma results_of_failing k (ts : list task) :
  failing k ts -> ts <> [] -> results_of ts = None.
Proof.
  intros Hf Hne. destruct ts as [|t ts]; [congruence|].
  destruct (Hf 0%nat t eq_refl) as [->|[->|[Hk [-> | ->]]]]; reflexivity.
Qed.

Lemma nonempty_length (ts ts' : list task) :
  length ts' = length ts -> ts <> [] -> ts' <> [].
Proof. intros Hl Hne ->. destruct ts; [congruence|discriminate]. Qed.

(** asyncio.gather over such tasks never hands back values. *)
Lemma gather_failing sched (p p' : pool) r :
  has_params (shared p) -> failing false (tasks p) -> tasks p <> [] ->
  gather the_worker sched p = (Some r, p') -> r = Err ZeroDivisionError.
Proof.
  revert p. induction sched as [|i s IH]; intros p Hp Hf Hne; simpl;
    rewrite (results_of_failing _ _ Hf Hne); [discriminate|].
  destruct (turn_failing false i p Hp Hf)
    as (q & ev & Ht & Hs & Hf' & [[-> ->]|[[-> _]|[-> _]]]); rewrite Ht.
  - now apply IH.
  - now intros [= <- <-].
  - exfalso. pose proof (turn_reports the_worker _ _ _ _ Ht) as Hi.
    destruct (Hf' i _ Hi) as [H|[H|[H _]]]; discriminate.
Qed.

Section Nursery.
Context {R : Type}.
Variable on_turn : nat -> R -> R.
Variable on_exit : nat -> result value -> R -> R.

Lemma abort_failing (p : pool) : failing true (tasks p) -> failing true (tasks (abort p)).
Proof.
  intros Hf i t. unfold abort. simpl. rewrite list_lookup_fmap.
  destruct (tasks p !! i) as [t0|] eqn:E; [|discriminate]. simpl.
  intros [= <-].
  destruct (Hf i t0 E) as [->|[->|[Hk [-> | ->]]]]; unfold failing_task; auto.
Qed.

Lemma waiting_not_exited (ts : list task) :
  waiting ts -> ts <> [] -> all_exited ts = false.
Proof.
  intros Hw Hne. destruct ts as [|t ts]; [congruence|].
  now rewrite (Hw 0%nat t eq_refl).
Qed.

(** A task group over such tasks is left with the division error. *)
Lemma join_failing sched failed r (p : pool) res r' p' :
  has_params (shared p) -> failing true (tasks p) -> tasks p <> [] ->
  (failed = None -> waiting (tasks p)) ->
  (forall e, failed = Some e -> e = ZeroDivisionError) ->
  join the_worker on_turn on_exit failed r sched p = (Some res, r', p') ->
  res = Some ZeroDivisionError.
Proof.
  revert failed r p. induction sched as [|i s IH];
    intros failed r p Hp Hf Hne Hw He; simpl.
  - destruct (all_exited (tasks p)) eqn:E; [|discriminate].
    intros [= <- <- <-]. destruct failed as [e|]; [now rewrite (He e eq_refl)|].
    rewrite (waiting_not_exited _ (Hw eq_refl) Hne) in E. discriminate.
  - destruct (all_exited (tasks p)) eqn:E.
    { intros [= <- <- <-]. destruct failed as [e|]; [now rewrite (He e eq_refl)|].
      rewrite (waiting_not_exited _ (Hw eq_refl) Hne) in E. discriminate. }
    unfold runner_turn.
    destruct (turn_failing true i p Hp Hf)
      as (q & ev & Ht & Hs & Hf' & Hev); rewrite Ht.
    assert (Hq : has_params (shared q)) by (now rewrite Hs).
    assert (Hlen : length (tasks q) = length (tasks p)).
    { replace q with (fst (turn the_worker i p)) by (now rewrite Ht).
      apply turn_length. }
    assert (Hneq : tasks q <> []) by (now apply nonempty_length with (tasks p)).
    destruct Hev as [[-> ->]|[[-> Hi]|[-> Hi]]]; simpl.
    + now apply IH.
    + destruct failed as [e0|].
      * apply IH; try assumption. discriminate.
      * apply IH.
        -- exact Hq.
        -- now apply abort_failing.
        -- apply nonempty_length with (tasks q); [apply abort_length|assumption].
        -- discriminate.
        -- now intros e [= <-].
    + apply IH; try assumption.
      intros ->. pose proof (Hw eq_refl i _ Hi). discriminate.
Qed.

(** Once the group cancels its children, it is left as soon as each has
    had a turn. *)
Lemma join_settles_failing sched e r (p : pool) :
  has_params (shared p) -> failing true (tasks p) ->
  (forall i c, tasks p !! i = Some (Live WorkerStart c) ->
     c = true /\ In i sched) ->
  exists r' p',
    join the_worker on_turn on_exit (Some e) r sched p = (Some (Some e), r', p').
Proof.
  revert r p. induction sched as [|i s IH]; intros r p Hp Hf Hcov; simpl.
  - destruct (all_exited (tasks p)) eqn:E; [eauto|].
    destruct (all_exited_waiting _ E) as (i & u & c & Hi).
    destruct (Hf i _ Hi) as [H|[H|[_ [H|H]]]]; try discriminate;
      injection H as -> ->; now destruct (Hcov i _ Hi) as [_ []].
  - destruct (all_exited (tasks p)) eqn:E; [eauto|].
    unfold runner_turn.
    destruct (turn_failing true i p Hp Hf)
      as (q & ev & Ht & Hs & Hf' & Hev); rewrite Ht.
    assert (Hq : has_params (shared q)) by (now rewrite Hs).
    assert (Hcov' : forall j c, tasks q !! j = Some (Live WorkerStart c) ->
              c = true /\ In j s).
    { intros j c Hj. destruct (decide (i = j)) as [->|Hij].
      - exfalso. destruct Hev as [[-> ->]|[[-> Hi]|[-> Hi]]].
        + destruct (Hcov j c Hj) as [-> _].
          unfold turn in Ht. rewrite Hj in Ht. simpl in Ht. discriminate.
        + rewrite (turn_reports the_worker _ _ _ _ Ht) in Hj. discriminate.
        + rewrite (turn_reports the_worker _ _ _ _ Ht) in Hj. discriminate.
      - assert (Hj' : tasks p !! j = Some (Live WorkerStart c)).
        { rewrite <- Hj. replace q with (fst (turn the_worker i p))
            by (now rewrite Ht).
          symmetry. now apply turn_other. }
        destruct (Hcov j c Hj') as [-> [Heq|Hin]]; [congruence|auto]. }
    destruct Hev as [[-> ->]|[[-> Hi]|[-> Hi]]]; simpl.
    + now apply IH.
    + now destruct (Hcov i false Hi).
    + now apply IH.
Qed.
End Nursery.

Lemma created_waiting (n : Z) w :
  waiting (tasks (create_tasks (V:=value) (fun _ => WorkerStart) n w)).
Proof.
  intros i t. simpl. rewrite list_lookup_fmap.
  destruct (range n !! i); simpl; [|discriminate]. now intros [= <-].
Qed.

Lemma created_nonempty (n : Z) w :
  1 <= n ->
  tasks (create_tasks (V:=value) (fun _ : nat => WorkerStart) n w) <> [].
Proof.
  intros Hn H. apply (f_equal length) in H. rewrite created_length in H.
  simpl in H. lia.
Qed.

Lemma turn_waiting i (p : pool) :
  has_params (shared p) -> tasks p !! i = Some (Live WorkerStart false) ->
  turn the_worker i p
  = (exit_task i (Err ZeroDivisionError) (shared p) p,
     Some (Err ZeroDivisionError)).
Proof.
  intros Hp Hi. unfold turn. rewrite Hi.
  now rewrite (resume_start_raises _ Hp).
Qed.

Lemma waiting_lookup (ts : list task) i :
  waiting ts -> (i < length ts)%nat -> ts !! i = Some (Live WorkerStart false).
Proof.
  intros Hw Hi. destruct (lookup_lt_is_Some_2 ts i Hi) as [t Ht].
  now rewrite Ht, (Hw i t Ht).
Qed.

(** Under asyncio the first worker to run makes gather raise. *)
Lemma gather_raises_at_once i s (p : pool) :
  has_params (shared p) -> waiting (tasks p) -> (i < length (tasks p))%nat ->
  gather the_worker (i :: s) p
  = (Some (Err ZeroDivisionError),
     exit_task i (Err ZeroDivisionError) (shared p) p).
Proof.
  intros Hp Hw Hi. simpl.
  rewrite (results_of_failing false (tasks p));
    [|now apply waiting_failing|intros H; rewrite H in Hi; simpl in Hi; lia].
  now rewrite (turn_waiting i p Hp (waiting_lookup _ _ Hw Hi)).
Qed.

(** Under trio and anyio the group cancels the other workers and raises
    once each has had a turn. *)
Lemma join_raises {R} (on_turn : nat -> R -> R) on_exit i s r (p : pool) :
  has_params (shared p) -> waiting (tasks p) -> (i < length (tasks p))%nat ->
  (forall j, (j < length (tasks p))%nat -> j <> i -> In j s) ->
  exists r' p',
    join the_worker on_turn on_exit None r (i :: s) p
    = (Some (Some ZeroDivisionError), r', p').
Proof.
  intros Hp Hw Hi Hcov. simpl.
  rewrite waiting_not_exited;
    [|assumption|intros H; rewrite H in Hi; simpl in Hi; lia].
  unfold runner_turn.
  pose proof (waiting_lookup _ _ Hw Hi) as Hlk.
  rewrite (turn_waiting i p Hp Hlk). simpl.
  set (p1 := exit_task i (Err ZeroDivisionError) (shared p) p).
  assert (Hf1 : failing true (tasks p1)).
  { subst p1. simpl. apply insert_failing; [now apply waiting_failing|].
    right. now left. }
  apply join_settles_failing.
  - exact Hp.
  - now apply abort_failing.
  - intros j c. unfold abort. simpl. rewrite list_lookup_fmap.
    destruct (decide (i = j)) as [->|Hij].
    + rewrite list_lookup_insert_eq by assumption. discriminate.
    + rewrite list_lookup_insert_ne by assumption.
      destruct (tasks p !! j) as [t|] eqn:E; [|discriminate].
      rewrite (Hw j t E). simpl. intros [= <-]. split; [reflexivity|].
      apply Hcov; [now apply lookup_lt_Some in E|congruence].
Qed.

End Workers.

(** Whatever the backend, spawning the workers never hands back results. *)
Lemma spawn_failing expovariate_value b params rng op_latencies c o m seed
    sched w r (p : pool (U:=worker_state) (V:=value)) :
  (m == 0)%Q -> 1 <= o -> 1 <= c ->
  mem w !! params = Some (ODict (IOBoundParams c o m seed)) ->
  spawn_many (worker expovariate_value b params rng op_latencies) VNone b c
    (fun _ => WorkerStart) sched w = (Some r, p) ->
  r = Err ZeroDivisionError.
Proof.
  intros Hm Ho Hc Hp.
  assert (Hgroup : group_spawn_many
                     (worker expovariate_value b params rng op_latencies)
                     VNone c (fun _ => WorkerStart) sched w = (Some r, p) ->
                   r = Err ZeroDivisionError).
  { unfold group_spawn_many.
    destruct (join _ _ _ _ _ _ _) as [[[res|] rs] p'] eqn:Hj; [|discriminate].
    eapply (join_failing expovariate_value b params rng op_latencies c o m seed
              Hm Ho) in Hj.
    - subst res. now intros [= <- <-].
    - exact Hp.
    - apply waiting_failing, created_waiting.
    - now apply created_nonempty.
    - intros _. apply created_waiting.
    - discriminate. }
  destruct b; simpl; try exact Hgroup.
  unfold AsyncioBackend_spawn_many.
  apply (gather_failing expovariate_value Asyncio params rng op_latencies
           c o m seed Hm Ho).
  - exact Hp.
  - apply waiting_failing, created_waiting.
  - now apply created_nonempty.
Qed.

Lemma spawn_raises expovariate_value b params rng op_latencies c o m seed
    i sched w :
  (m == 0)%Q -> 1 <= o ->
  mem w !! params = Some (ODict (IOBoundParams c o m seed)) ->
  (i < Z.to_nat c)%nat ->
  (b <> Asyncio -> forall j, (j < Z.to_nat c)%nat -> j <> i -> In j sched) ->
  exists p,
    spawn_many (worker expovariate_value b params rng op_latencies) VNone b c
      (fun _ => WorkerStart) (i :: sched) w
    = (Some (Err ZeroDivisionError), p).
Proof.
  intros Hm Ho Hp Hi Hcov.
  set (p0 := create_tasks (V:=value) (fun _ : nat => WorkerStart) c w).
  assert (Hlen : length (tasks p0) = Z.to_nat c) by apply created_length.
  assert (Hgroup : b <> Asyncio ->
            exists p,
              group_spawn_many
                (worker expovariate_value b params rng op_latencies) VNone c
                (fun _ => WorkerStart) (i :: sched) w
              = (Some (Err ZeroDivisionError), p)).
  { intros Hb. unfold group_spawn_many. fold p0.
    destruct (join_raises expovariate_value b params rng op_latencies c o m
                seed Hm Ho (fun _ r => r) spawn_runner_exit i sched
                (replicate (Z.to_nat c) VNone) p0)
      as (r' & p' & ->); try assumption; try (now rewrite Hlen).
    - apply created_waiting.
    - rewrite Hlen. now apply Hcov.
    - eauto. }
  destruct b; simpl; try (apply Hgroup; discriminate).
  unfold AsyncioBackend_spawn_many. fold p0. eexists.
  apply (gather_raises_at_once expovariate_value Asyncio params rng op_latencies
           c o m seed Hm Ho); [exact Hp|apply created_waiting|now rewrite Hlen].
Qed.

Lemma io_bound_spawn_run expovariate_value b params rng op_latencies c o m seed
    sched w :
  mem w !! params = Some (ODict (IOBoundParams c o m seed)) ->
  io_bound_spawn expovariate_value b params rng op_latencies sched w
  = spawn_many (worker expovariate_value b params rng op_latencies) VNone b c
      (fun _ => WorkerStart) sched w.
Proof.
  intros Hp. unfold io_bound_spawn.
  now rewrite (bind_run _ _ _ _ _ (getattr_run _ _ "concurrency" _ _ Hp eq_refl)).
Qed.

(** In the model: the only outcome of the run under any backend, and when
    it is reached. *)
Lemma zero_mean_delay_outcome
    (expovariate_value : Z -> nat -> Q -> Q) (b : backend) (params : loc)
    (c o : Z) (m : Q) (seed : Z) (sched : list nat) (w : world) :
  mem w !! params = Some (ODict (IOBoundParams c o m seed)) ->
  (m == 0)%Q -> 1 <= c -> 1 <= o ->
  (forall r w',
     run_io_bound expovariate_value b (Some params) sched w = (Some r, w') ->
     r = Err ZeroDivisionError) /\
  (forall i sched',
     sched = i :: sched' -> (i < Z.to_nat c)%nat ->
     (b <> Asyncio -> forall j, (j < Z.to_nat c)%nat -> j <> i -> In j sched') ->
     exists w',
       run_io_bound expovariate_value b (Some params) sched w
       = (Some (Err ZeroDivisionError), w')).
Proof.
  intros Hp Hm Hc Ho.
  destruct (io_bound_setup_run params c o m seed w Hp)
    as (rng & lat & w1 & Hsetup & (Hp1 & _) & _).
  assert (Hp2 : mem (snd (perf_counter w1)) !! params
                = Some (ODict (IOBoundParams c o m seed))) by exact Hp1.
  assert (Hrun : run_io_bound expovariate_value b (Some params) sched w
                 = match spawn_many (worker expovariate_value b params rng lat)
                           VNone b c (fun _ => WorkerStart) sched
                           (snd (perf_counter w1)) with
                   | (Some (Ok _), p) =>
                       lift (io_bound_metrics params lat
                               (clock (shared p) (reads (shared p))
                                - clock w1 (reads w1))%Q)
                            (snd (perf_counter (shared p)))
                   | (Some (Err e), p) => (Some (Err e), shared p)
                   | (None, p) => (None, shared p)
                   end).
  { unfold run_io_bound, abind. unfold lift at 1. rewrite Hsetup.
    unfold lift at 1.
    change (perf_counter w1)
      with (Ok (clock w1 (reads w1)), snd (perf_counter w1)).
    cbv beta iota.
    rewrite (io_bound_spawn_run _ _ _ _ _ _ _ _ _ _ _ Hp2).
    unfold awaited.
    destruct (spawn_many _ _ _ _ _ _ _) as [[[vs|e]|] p]; reflexivity. }
  split.
  - intros r w'. rewrite Hrun.
    destruct (spawn_many _ _ _ _ _ _ _) as [[[vs|e]|] p] eqn:Hs;
      [| |discriminate].
    + apply (spawn_failing _ _ _ _ _ c o m seed _ _ _ _ Hm Ho Hc Hp2) in Hs.
      discriminate.
    + apply (spawn_failing _ _ _ _ _ c o m seed _ _ _ _ Hm Ho Hc Hp2) in Hs.
      injection Hs as ->. now intros [= <- <-].
  - intros i sched' -> Hi Hcov. rewrite Hrun.
    destruct (spawn_raises expovariate_value b params rng lat c o m seed i
                sched' _ Hm Ho Hp2 Hi Hcov) as [p ->].
    eauto.
Qed.

(** X13.  A mean delay of zero.  With mean_delay_ms = 0 and at least one
    worker and one operation, run_io_bound never returns metrics, under any
    backend: the first worker that runs divides by zero
    (1 / params.mean_delay_ms) before any sleep.  Under asyncio the run
    raises that ZeroDivisionError, as soon as a worker has had a turn. *)
Theorem io_bound_zero_mean_delay
    (expovariate_value : Z -> nat -> Q -> Q) (b : backend) (params : loc)
    (c o : Z) (m : Q) (seed : Z) (sched : list nat) (w : world) :
  mem w !! params = Some (ODict (IOBoundParams c o m seed)) ->
  (m == 0)%Q -> 1 <= c -> 1 <= o ->
  (forall l w',
     run_io_bound expovariate_value b (Some params) sched w
     <> (Some (Ok l), w')) /\
  (forall r w',
     run_io_bound expovariate_value Asyncio (Some params) sched w
     = (Some r, w') ->
     r = Err ZeroDivisionError) /\
  (forall i sched',
     sched = i :: sched' -> (i < Z.to_nat c)%nat ->
     exists w',
       run_io_bound expovariate_value Asyncio (Some params) sched w
       = (Some (Err ZeroDivisionError), w')).
Proof.
  intros Hp Hm Hc Ho.
  destruct (zero_mean_delay_outcome expovariate_value b params c o m seed
              sched w Hp Hm Hc Ho) as [Hb _].
  destruct (zero_mean_delay_outcome expovariate_value Asyncio params c o m seed
              sched w Hp Hm Hc Ho) as [Ha1 Ha2].
  split; [|split].
  - intros l w' H. specialize (Hb _ _ H). discriminate.
  - exact Ha1.
  - intros i sched' Hs Hi. apply (Ha2 i sched' Hs Hi). congruence.
Qed.

Lemma io_bound_zero_mean_delay_witness :
  exists w',
    run_io_bound sample_expovariate Asyncio (Some 1%positive) [1; 0]%nat
      zero_delay_world
    = (Some (Err ZeroDivisionError), w').
Proof.
  apply (proj2 (proj2 (io_bound_zero_mean_delay sample_expovariate Trio
                         1%positive 2 3 0 1337 [1; 0]%nat zero_delay_world
                         eq_refl ltac:(reflexivity) ltac:(lia) ltac:(lia)))
           1%nat [0%nat] eq_refl ltac:(simpl; lia)).
Defined.

End ZeroDelayFacts.

(* ===================================================================== *)
(** * More about task_spawn.py: a run to the end                         *)
(* ===================================================================== *)

Module TaskSpawnFacts.
Import PyFacts Utils UtilsFacts MetricsFacts PercentileFacts Backends SpawnFacts
       StormFacts Benchmarks FrameFacts Samples.

Section Units.
Variable b : backend.
Variables params latencies : loc.
Variable task_count : Z.
Variable payload_sleep : Q.
Variable clk : nat -> Q.

Hypothesis distinct : params <> latencies.
Hypothesis sleep_ok : b = Trio -> (0 <= payload_sleep)%Q.

#[local] Abbreviation the_unit := (run_one b params latencies).
#[local] Abbreviation pool := (pool (U:=run_one_state) (V:=value)).
#[local] Abbreviation task := (task (U:=run_one_state) (V:=value)).

(** A latency sample: a later reading of the clock minus an earlier one. *)
Definition span (x : Q) : Prop :=
  exists i j, (i <= j)%nat /\ x = (clk j - clk i)%Q.

(** The objects the units share, with [n] samples taken. *)
Definition spawn_world (w : world) (n : nat) : Prop :=
  clock w = clk /\
  mem w !! params = Some (ODict (TaskSpawnParams task_count payload_sleep)) /\
  exists xs, mem w !! latencies = Some (OList xs) /\
             length xs = n /\ Forall span xs.

Definition turns_left (t : task) : nat :=
  match t with
  | Live RunOneStart _ => 2
  | Live (RunOneSleeping _) _ => 1
  | Exited _ => 0
  end.

Definition turns_left_at (ts : list task) (i : nat) : nat :=
  match ts !! i with Some t => turns_left t | None => 0 end.

(** A task of the run when the clock has been read [r] times: never
    cancelled, started at an earlier reading, returning None. *)
Definition one_task (r : nat) (t : task) : Prop :=
  match t with
  | Live RunOneStart c => c = false
  | Live (RunOneSleeping start) c =>
      c = false /\ exists i, (i < r)%nat /\ start = clk i
  | Exited o => o = Ok VNone
  end.

Definition spawn_inv (r0 : nat) (p : pool) : Prop :=
  spawn_world (shared p) (exited_count (tasks p)) /\
  Forall (one_task (reads (shared p))) (tasks p) /\
  (r0 <= reads (shared p))%nat.

Lemma one_task_later r r' t : (r <= r')%nat -> one_task r t -> one_task r' t.
Proof.
  intros Hr. destruct t as [[|start] c|o]; simpl; auto.
  intros [Hc (i & Hi & Hs)]. split; [exact Hc|]. exists i. split; [lia|exact Hs].
Qed.

Lemma sleep_payload w : sleep b payload_sleep w = (Ok tt, w).
Proof.
  unfold sleep. destruct b eqn:Hb; try reflexivity.
  now rewrite (proj2 (Qle_bool_iff _ _) (sleep_ok eq_refl)).
Qed.

Lemma run_one_resume_start w n :
  spawn_world w n ->
  resume the_unit RunOneStart w
  = (Ok (Suspend payload_sleep (RunOneSleeping (clk (reads w)))),
     World (mem w) (clock w) (S (reads w))).
Proof.
  intros (Hc & Hp & _). simpl. unfold bind at 1, perf_counter at 1.
  set (w1 := World (mem w) (clock w) (S (reads w))).
  assert (Hp1 : mem w1 !! params
                = Some (ODict (TaskSpawnParams task_count payload_sleep)))
    by exact Hp.
  rewrite (bind_run _ _ _ _ _ (getattr_run _ _ "payload_sleep" _ _ Hp1 eq_refl)).
  unfold as_float at 1. unfold bind at 1, ret at 1.
  rewrite (bind_run _ _ _ _ _ (sleep_payload w1)). now rewrite Hc.
Qed.

Lemma run_one_resume_sleeping start w xs :
  clock w = clk -> mem w !! latencies = Some (OList xs) ->
  resume the_unit (RunOneSleeping start) w
  = (Ok (Return VNone),
     set_mem (<[latencies := OList (xs ++ [(clk (reads w) - start)%Q])]> (mem w))
             (World (mem w) (clock w) (S (reads w)))).
Proof.
  intros Hc Hl. simpl. unfold bind at 1, perf_counter at 1.
  set (w1 := World (mem w) (clock w) (S (reads w))).
  assert (Happ : list_append latencies (clock w (reads w) - start)%Q w1
                 = (Ok tt, set_mem (<[latencies :=
                      OList (xs ++ [(clock w (reads w) - start)%Q])]> (mem w)) w1)).
  { unfold list_append.
    rewrite (bind_run _ _ _ _ _ (read_list_run _ _ w1 Hl)).
    unfold write_list. simpl. now rewrite Hl. }
  rewrite (bind_run _ _ _ _ _ Happ). now rewrite Hc.
Qed.

Lemma spawn_turns_left_at_insert (ts : list task) i j t :
  (i < length ts)%nat ->
  turns_left_at (<[i := t]> ts) j
  = if decide (i = j) then turns_left t else turns_left_at ts j.
Proof.
  intros Hi. unfold turns_left_at. destruct (decide (i = j)) as [->|Hij].
  - now rewrite list_lookup_insert_eq.
  - now rewrite list_lookup_insert_ne.
Qed.

(** One turn of the run. *)
Lemma turn_spawn r0 i (p : pool) :
  spawn_inv r0 p ->
  spawn_inv r0 (fst (turn the_unit i p)) /\
  forall j, turns_left_at (tasks (fst (turn the_unit i p))) j
            = if decide (i = j) then pred (turns_left_at (tasks p) j)
              else turns_left_at (tasks p) j.
Proof.
  intros (Hw & Hts & Hr).
  assert (Hidle : turn the_unit i p = (p, None) ->
                  turns_left_at (tasks p) i = 0%nat ->
                  spawn_inv r0 (fst (turn the_unit i p)) /\
                  forall j, turns_left_at (tasks (fst (turn the_unit i p))) j
                            = if decide (i = j) then pred (turns_left_at (tasks p) j)
                              else turns_left_at (tasks p) j).
  { intros -> H0. split; [now split|].
    intros j. simpl. destruct (decide (i = j)) as [<-|]; [now rewrite H0|reflexivity]. }
  destruct (tasks p !! i) as [[u c|o]|] eqn:E.
  - pose proof (proj1 (Forall_lookup _ _) Hts i _ E) as Hu.
    pose proof (lookup_lt_Some _ _ _ E) as Hlt.
    assert (c = false) as -> by (destruct u; simpl in Hu; tauto).
    destruct u as [|start].
    + unfold turn. rewrite E, (run_one_resume_start _ _ Hw). simpl. split.
      * split; [|split]; simpl.
        -- rewrite (exited_count_live _ _ _ _ _ false E).
           destruct Hw as (Hc & Hp & xs & Hl & Hn & Hs).
           split; [exact Hc|]. split; [exact Hp|]. now exists xs.
        -- apply Forall_insert.
           ++ eapply Forall_impl; [exact Hts|].
              intros t. apply one_task_later. lia.
           ++ simpl. split; [reflexivity|]. exists (reads (shared p)).
              split; [lia|reflexivity].
        -- lia.
      * intros j. rewrite spawn_turns_left_at_insert by assumption.
        destruct (decide (i = j)) as [<-|]; [|reflexivity].
        unfold turns_left_at. now rewrite E.
    + destruct Hw as (Hc & Hp & xs & Hl & Hn & Hs).
      destruct Hu as [_ (i0 & Hi0 & ->)].
      unfold turn. rewrite E, (run_one_resume_sleeping _ _ _ Hc Hl). simpl. split.
      * split; [|split]; simpl.
        -- rewrite (exited_count_exit _ _ _ _ _ E).
           split; [exact Hc|]. split.
           ++ simpl. now rewrite lookup_insert_ne by congruence.
           ++ eexists. split; [simpl; apply lookup_insert_eq|]. split.
              ** rewrite length_app, Hn. simpl. lia.
              ** apply Forall_app. split; [exact Hs|]. constructor; [|constructor].
                 exists i0, (reads (shared p)). split; [lia|reflexivity].
        -- apply Forall_insert.
           ++ eapply Forall_impl; [exact Hts|].
              intros t. apply one_task_later. lia.
           ++ reflexivity.
        -- lia.
      * intros j. rewrite spawn_turns_left_at_insert by assumption.
        destruct (decide (i = j)) as [<-|]; [|reflexivity].
        unfold turns_left_at. now rewrite E.
  - apply Hidle; [unfold turn; now rewrite E|].
    unfold turns_left_at. now rewrite E.
  - apply Hidle; [unfold turn; now rewrite E|].
    unfold turns_left_at. now rewrite E.
Qed.

Lemma free_run_spawn r0 sched (p : pool) :
  spawn_inv r0 p ->
  spawn_inv r0 (free_run the_unit sched p) /\
  forall j, turns_left_at (tasks (free_run the_unit sched p)) j
            = (turns_left_at (tasks p) j - count_occ Nat.eq_dec sched j)%nat.
Proof.
  revert p. induction sched as [|i s IH]; intros p Hinv; simpl.
  - split; [assumption|]. intros j. lia.
  - destruct (turn_spawn r0 i p Hinv) as [Hinv' Hleft].
    destruct (IH _ Hinv') as [Hfin Hleft']. split; [assumption|].
    intros j. rewrite Hleft', Hleft.
    destruct (decide (i = j)) as [->|Hij].
    + destruct (Nat.eq_dec j j); [lia|congruence].
    + destruct (Nat.eq_dec i j); [congruence|reflexivity].
Qed.

Lemma spawn_finished_tasks r (ts : list task) :
  Forall (one_task r) ts -> (forall j, turns_left_at ts j = 0%nat) ->
  results_of ts = Some (replicate (length ts) VNone) /\
  exited_count ts = length ts.
Proof.
  induction ts as [|t ts IH]; intros Hwt Hleft; [now split|].
  inversion Hwt as [|? ? Ht Hts]; subst.
  pose proof (Hleft 0%nat) as H0. unfold turns_left_at in H0. simpl in H0.
  destruct t as [[|start] c|o]; try discriminate.
  simpl in Ht. subst o.
  destruct IH as [Hres Hsum]; [assumption|intros j; apply (Hleft (S j))|].
  simpl. rewrite Hres. split; [reflexivity|].
  unfold exited_count in *. simpl. now rewrite Hsum.
Qed.

(** Under a schedule that gives every unit its two turns, spawn_many
    returns, and every unit has left one sample. *)
Lemma spawn_spec sched w :
  spawn_world w 0 ->
  (forall i, (i < Z.to_nat task_count)%nat ->
     (2 <= count_occ Nat.eq_dec sched i)%nat) ->
  exists vs (p : pool),
    spawn_many the_unit VNone b task_count (fun _ => RunOneStart) sched w
    = (Some (Ok vs), p) /\
    spawn_world (shared p) (Z.to_nat task_count) /\
    (reads w <= reads (shared p))%nat.
Proof.
  intros Hw Hfair.
  set (p0 := create_tasks (V:=value) (fun _ : nat => RunOneStart) task_count w).
  assert (Hinv0 : spawn_inv (reads w) p0).
  { split; [|split].
    - rewrite exited_count_running by apply created_all_running. exact Hw.
    - apply Forall_forall. intros t Ht. simpl in Ht.
      apply list_elem_of_fmap in Ht as (i & -> & _). reflexivity.
    - simpl. lia. }
  destruct (free_run_spawn (reads w) sched p0 Hinv0)
    as [(Hwk & Hts & Hr) Hleft].
  assert (Hlen : length (tasks (free_run the_unit sched p0))
                 = Z.to_nat task_count).
  { rewrite free_run_length. apply created_length. }
  assert (Hzero : forall j,
            turns_left_at (tasks (free_run the_unit sched p0)) j = 0%nat).
  { intros j. rewrite Hleft. unfold turns_left_at at 1. subst p0. simpl.
    rewrite list_lookup_fmap. unfold range.
    destruct (decide (j < Z.to_nat task_count)%nat) as [Hlt|Hge].
    - rewrite lookup_seq_lt by assumption. simpl.
      specialize (Hfair j Hlt). lia.
    - rewrite lookup_seq_ge by lia. reflexivity. }
  destruct (spawn_finished_tasks _ _ Hts Hzero) as [Hres Hsum].
  exists (replicate (length (tasks (free_run the_unit sched p0))) VNone),
         (free_run the_unit sched p0).
  split; [|split].
  - now apply (spawn_many_free_run the_unit VNone).
  - now rewrite <- Hlen, <- Hsum.
  - exact Hr.
Qed.

End Units.

(** The dict run_task_spawn builds, field by field. *)
Definition task_spawn_report (tc : Z) (ps elapsed p50 p95 : Q) : dict :=
  [("tasks", VInt tc); ("payload_sleep_s", VFloat ps);
   ("duration_s", VFloat elapsed); ("tasks_per_sec", throughput tc elapsed);
   ("latency_p50_ms", VFloat (p50 * 1000));
   ("latency_p95_ms", VFloat (p95 * 1000))].

Lemma task_spawn_metrics_report w params latencies tc ps xs elapsed :
  mem w !! params = Some (ODict (TaskSpawnParams tc ps)) ->
  mem w !! latencies = Some (OList xs) ->
  exists l w' p50 p95,
    task_spawn_metrics params latencies elapsed w = (Ok l, w') /\
    percentile_of xs 50 = Ok p50 /\ percentile_of xs 95 = Ok p95 /\
    mem w' !! l = Some (ODict (task_spawn_report tc ps elapsed p50 p95)).
Proof.
  intros Hp Hl. unfold task_spawn_metrics.
  rewrite (bind_run _ _ _ _ _ (getattr_run _ _ "task_count" _ _ Hp eq_refl)).
  rewrite (bind_run _ _ _ _ _ (getattr_run _ _ "payload_sleep" _ _ Hp eq_refl)).
  assert (Hg : (if truthy elapsed
                then let* task_count := as_float (VInt tc) in
                     let* x := of_result (truediv task_count elapsed) in
                     ret (VFloat x)
                else ret VInf) w = (Ok (throughput tc elapsed), w)).
  { unfold truthy, throughput, truediv.
    destruct (Qeq_bool elapsed 0); reflexivity. }
  rewrite (bind_run _ _ _ _ _ Hg).
  destruct (percentile_of_total xs 50) as [p50 H50]; try discriminate.
  destruct (percentile_of_total xs 95) as [p95 H95]; try discriminate.
  rewrite (bind_run _ _ _ _ _ (percentile_run _ _ 50 _ Hl)), H50.
  rewrite (bind_run _ _ _ _ _
             (percentile_run latencies xs 95 _ (with_copy_frame _ _ _ _ Hl))).
  rewrite H95, alloc_run.
  exists (fresh (dom (mem (with_copy (match xs with [] => [] | _ => sorted xs end)
                            (with_copy (match xs with [] => [] | _ => sorted xs end)
                               w))))).
  eexists. exists p50, p95. split; [reflexivity|].
  split; [reflexivity|]. split; [reflexivity|]. apply lookup_insert_eq.
Qed.



End TaskSpawnFacts.

(* ===================================================================== *)
(** * More about runner.py: every way main can end                       *)
(* ===================================================================== *)

Module DocumentFacts.
Import PyFacts Utils UtilsFacts MetricsFacts Backends Benchmarks FrameFacts
       Runner RunnerFacts Samples.

Section Table.
Variable SCENARIOS : scenario -> BenchmarkFn.
Variable args : Namespace.

(** The benchmarks leave the objects that exist when they are called as
    they are. *)
Hypothesis table_frames : forall sc lib p w r w',
  SCENARIOS sc lib p w = (r, w') -> preserves w w'.

Definition raised_by_benchmark (e : exn) : Prop :=
  exists lib sc p w0 w1,
    In lib (libraries args) /\ In sc (benchmarks args) /\
    SCENARIOS sc lib p w0 = (Some (Err e), w1).

(** An entry and its params snapshot, for a triple. *)
Definition entry_at (w : world) (es : loc * loc)
    (c : backend * scenario * nat) : Prop :=
  exists metrics duration,
    mem w !! fst es
    = Some (ODict [("library", VStr (Backends.name (fst (fst c))));
                   ("scenario", VStr (scenario_name (snd (fst c))));
                   ("params", VRef (snd es));
                   ("metrics", VRef metrics);
                   ("rep", VInt (Z.of_nat (snd c) + 1));
                   ("duration_s", VFloat duration)]) /\
    mem w !! snd es = Some (ODict (params_fields args (snd (fst c)))).

Definition objects (ess : list (loc * loc)) : list loc :=
  flat_map (fun es => [fst es; snd es]) ess.

(** How a part of main's loops can end, started in [w0] with [entries]. *)
Definition outcome_ok (w0 : world) (entries : list loc)
    (keys : list (backend * scenario * nat))
    (r : option (result (list loc))) (w1 : world) : Prop :=
  match r with
  | Some (Ok entries') =>
      exists ess,
        entries' = entries ++ map fst ess /\ preserves w0 w1 /\
        Forall2 (entry_at w1) ess keys /\
        NoDup (objects ess) /\
        Forall (fun l => mem w0 !! l = None) (objects ess)
  | Some (Err e) => raised_by_benchmark e
  | None => True
  end.

Lemma entry_at_preserved w w' es c :
  preserves w w' -> entry_at w es c -> entry_at w' es c.
Proof.
  intros Hp (m & dur & He & Hs). exists m, dur. split; auto.
Qed.

Lemma repetition_outcome params lib sc rep entries w0 r w1 :
  In lib (libraries args) -> In sc (benchmarks args) ->
  params_intact args params w0 ->
  repetition SCENARIOS params lib sc rep entries w0 = (r, w1) ->
  outcome_ok w0 entries [(lib, sc, rep)] r w1.
Proof.
  intros Hlib Hsc Hp. unfold repetition, abind. unfold lift at 1.
  set (wa := snd (perf_counter w0)).
  change (perf_counter w0) with (Ok (clock w0 (reads w0)), wa). cbv beta iota.
  assert (H0a : preserves w0 wa) by (now intros l o).
  unfold run_benchmark, abind.
  destruct (SCENARIOS sc lib (params sc) wa) as [[[m|e]|] wb] eqn:Hrun.
  2:{ intros [= <- <-]. exists lib, sc, (params sc), wa, wb. auto. }
  2:{ now intros [= <- <-]. }
  pose proof (table_frames _ _ _ _ _ _ Hrun) as Hab.
  assert (Hpb : mem wb !! params sc = Some (ODict (params_fields args sc)))
    by (apply Hab, H0a, Hp).
  unfold lift at 1, asdict.
  rewrite (bind_run _ _ _ _ _ (read_dict_run _ _ _ Hpb)).
  rewrite alloc_run.
  set (snap := fresh (dom (mem wb))).
  set (ws := set_mem (<[snap := ODict (params_fields args sc)]> (mem wb)) wb).
  unfold lift at 1. rewrite alloc_run.
  set (e := fresh (dom (mem ws))).
  pose (d0 := fresh_entry lib sc snap m).
  set (we := set_mem (<[e := ODict _]> (mem ws)) ws).
  assert (Hsnap : mem wb !! snap = None) by apply fresh_unused.
  assert (He_s : mem ws !! e = None) by apply fresh_unused.
  assert (Hne : e <> snap).
  { intros Heq. rewrite Heq in He_s. unfold ws in He_s. simpl in He_s.
    rewrite lookup_insert_eq in He_s. discriminate. }
  assert (Hbs : preserves wb ws) by (eapply (mono_alloc _ wb); reflexivity).
  assert (Hse : preserves ws we) by (eapply (mono_alloc _ ws); reflexivity).
  assert (He0 : mem we !! e = Some (ODict d0)) by apply lookup_insert_eq.
  unfold lift at 1.
  rewrite (setitem_run _ _ "rep" (VInt (Z.of_nat rep + 1)) _ He0).
  set (d1 := dict_set "rep" (VInt (Z.of_nat rep + 1)) d0).
  set (wc := set_mem (<[e := ODict d1]> (mem we)) we).
  unfold lift at 1.
  set (wd := snd (perf_counter wc)).
  change (perf_counter wc) with (Ok (clock wc (reads wc)), wd). cbv beta iota.
  assert (Hed : mem wd !! e = Some (ODict d1)) by apply lookup_insert_eq.
  unfold lift at 1.
  rewrite (setitem_run _ _ "duration_s" _ _ Hed).
  unfold lift, ret. intros [= <- <-].
  exists [(e, snap)]. simpl.
  assert (Hfresh_e : mem w0 !! e = None).
  { destruct (mem w0 !! e) as [o|] eqn:E; [|reflexivity].
    apply H0a, Hab, Hbs in E. congruence. }
  assert (Hfresh_s : mem w0 !! snap = None).
  { destruct (mem w0 !! snap) as [o|] eqn:E; [|reflexivity].
    apply H0a, Hab in E. congruence. }
  split; [reflexivity|]. split; [|split; [|split]].
  - intros l o Hl.
    assert (l <> e) by (intros ->; congruence).
    assert (l <> snap) by (intros ->; congruence).
    unfold wd, wc, we, ws. simpl.
    rewrite !lookup_insert_ne by congruence. now apply Hab, H0a.
  - constructor; [|constructor]. eexists m, _.
    unfold wd, wc, we, ws. simpl. split.
    + rewrite lookup_insert_eq. reflexivity.
    + rewrite !lookup_insert_ne by congruence. apply lookup_insert_eq.
  - apply NoDup_cons. split; [|apply NoDup_singleton].
    intros Hin. apply list_elem_of_singleton in Hin. congruence.
  - repeat constructor; assumption.
Qed.

Lemma flat_map_singleton {A B} (f : A -> B) (l : list A) :
  flat_map (fun x => [f x]) l = map f l.
Proof. induction l as [|a l IH]; simpl; [reflexivity|now rewrite IH]. Qed.

Lemma objects_app (a b : list (loc * loc)) :
  objects (a ++ b) = objects a ++ objects b.
Proof. unfold objects. apply flat_map_app. Qed.

Lemma entry_at_allocated w ess keys l :
  Forall2 (entry_at w) ess keys -> l ∈ objects ess -> exists o, mem w !! l = Some o.
Proof.
  induction 1 as [|es c ess keys (m & dur & He & Hs) _ IH]; simpl.
  - intros Hl. now apply elem_of_nil in Hl.
  - rewrite !elem_of_cons. intros [->|[->|Hl]]; eauto.
Qed.

(** A loop whose every pass ends in one of the three ways ends in one of
    them. *)
Lemma for_each_outcome {A} (xs : list A)
    (body : A -> list loc -> Async (list loc))
    (keys : A -> list (backend * scenario * nat))
    (params : scenario -> loc) :
  (forall x entries w0 r w1, In x xs -> params_intact args params w0 ->
     body x entries w0 = (r, w1) -> outcome_ok w0 entries (keys x) r w1) ->
  forall entries w0 r w1, params_intact args params w0 ->
    for_each xs body entries w0 = (r, w1) ->
    outcome_ok w0 entries (flat_map keys xs) r w1.
Proof.
  induction xs as [|x xs IH]; intros Hbody entries w0 r w1 Hp; simpl.
  - unfold lift, ret. intros [= <- <-]. exists []. simpl.
    rewrite app_nil_r. repeat split; try constructor. apply preserves_refl.
  - unfold abind.
    destruct (body x entries w0) as [[[es1|e]|] wm] eqn:Hx;
      pose proof (Hbody x entries w0 _ _ (or_introl eq_refl) Hp Hx) as H1.
    + destruct H1 as (ess1 & -> & H0m & Hes1 & Hnd1 & Hf1).
      intros Hrest.
      pose proof (IH (fun y es w r' w' Hy => Hbody y es w r' w' (or_intror Hy))
                     _ _ _ _ (params_intact_preserved args _ _ _ H0m Hp) Hrest)
        as H2.
      destruct r as [[es'|e]|]; simpl in *; [|exact H2|exact I].
      destruct H2 as (ess2 & -> & Hm1 & Hes2 & Hnd2 & Hf2).
      exists (ess1 ++ ess2). split; [|split; [|split; [|split]]].
      * now rewrite map_app, app_assoc.
      * eapply preserves_trans; eassumption.
      * apply Forall2_app; [|assumption].
        eapply Forall2_impl; [exact Hes1|]. intros es c.
        now apply entry_at_preserved.
      * rewrite objects_app. apply NoDup_app. split; [exact Hnd1|].
        split; [|exact Hnd2]. intros l Hl1 Hl2.
        destruct (entry_at_allocated _ _ _ _ Hes1 Hl1) as [o Ho].
        rewrite Forall_forall in Hf2. rewrite (Hf2 l Hl2) in Ho. discriminate.
      * rewrite objects_app. apply Forall_app. split; [exact Hf1|].
        eapply Forall_impl; [exact Hf2|]. intros l Hl. simpl in Hl.
        destruct (mem w0 !! l) as [o|] eqn:E; [|reflexivity].
        apply H0m in E. congruence.
    + now intros [= <- <-].
    + now intros [= <- <-].
Qed.

(** However main ends: with one entry per triple, each a new object with
    its own snapshot of the params; or with an exception a benchmark
    raised; or not at all. *)
Lemma main_outcome w r w' :
  main SCENARIOS args w = (r, w') ->
  exists params wb,
    build_params args w = (Ok params, wb) /\ preserves w wb /\
    params_intact args params wb /\
    outcome_ok wb [] (combinations args) r w'.
Proof.
  destruct (build_params_run args w) as (params & wb & Hb & Hwb & Hp).
  unfold main, abind, lift. rewrite Hb. intros Hrun.
  exists params, wb. split; [reflexivity|]. split; [exact Hwb|].
  split; [exact Hp|].
  apply (for_each_outcome (libraries args)
           (fun lib => for_each (benchmarks args) (fun sc =>
              for_each (range (repetitions args)) (fun rep =>
                repetition SCENARIOS params lib sc rep)))
           (fun lib => flat_map (fun sc =>
              map (fun rep => (lib, sc, rep)) (range (repetitions args)))
              (benchmarks args))
           params); [|exact Hp|exact Hrun].
  intros lib entries w0 r0 w1 Hlib Hp0.
  apply (for_each_outcome (benchmarks args)
           (fun sc => for_each (range (repetitions args)) (fun rep =>
              repetition SCENARIOS params lib sc rep))
           (fun sc => map (fun rep => (lib, sc, rep))
                          (range (repetitions args)))
           params); [|exact Hp0].
  intros sc entries' w0' r1 w1' Hsc Hp0'.
  replace (map (fun rep => (lib, sc, rep)) (range (repetitions args)))
    with (flat_map (fun rep => [(lib, sc, rep)]) (range (repetitions args)))
    by (apply (flat_map_singleton (fun rep => (lib, sc, rep)))).
  apply (for_each_outcome (range (repetitions args))
           (fun rep => repetition SCENARIOS params lib sc rep)
           (fun rep => [(lib, sc, rep)]) params); [|exact Hp0'].
  intros rep entries'' w0'' r2 w1'' _ Hp0''.
  now apply repetition_outcome.
Qed.

Lemma entry_at_is_entry w' ess keys :
  Forall2 (entry_at w') ess keys ->
  Forall2 (is_entry args w') (map fst ess) keys /\
  map (entry_field w' "params") (map fst ess)
  = map (fun s => Some (VRef s)) (map snd ess).
Proof.
  induction 1 as [|es c ess keys (m & dur & He & Hs) _ [IH1 IH2]]; simpl.
  - split; [constructor|reflexivity].
  - split.
    + constructor; [|exact IH1]. now exists (snd es), m, dur.
    + rewrite IH2. f_equal. unfold entry_field. now rewrite He.
Qed.

Lemma objects_split (ess : list (loc * loc)) :
  objects ess ≡ₚ map fst ess ++ map snd ess.
Proof.
  induction ess as [|[e s] ess IH]; simpl; [reflexivity|].
  constructor. rewrite IH. apply Permutation_middle.
Qed.

End Table.

Lemma sample_main_returns :
  exists entries w',
    main (SCENARIOS sample_expovariate [] sample_storm) sample_args empty_world
    = (Some (Ok entries), w').
Proof.
  destruct (main_run _ sample_args
              (SCENARIOS_return _ _ _ _
                 (sample_benchmarks_terminate sample_expovariate []))
              empty_world) as (entries & params & w' & H & _).
  eauto.
Qed.

(** X16.  The entries of a run are objects of their own.  The entries
    main returns are pairwise distinct objects created during the run,
    and each holds under "params" a snapshot that is an object of its own
    too: distinct from every entry, from every other snapshot, and from
    the params objects the benchmarks were given (which are as
    build_params made them). *)
Theorem main_entries_are_new_objects
    (expovariate_value : Z -> nat -> Q -> Q) (sched : list nat)
    (storm : storm_schedule) (args : Namespace) (w : world)
    (entries : list loc) (w' : world) :
  main (SCENARIOS expovariate_value sched storm) args w
  = (Some (Ok entries), w') ->
  NoDup entries /\
  Forall (fun e => mem w !! e = None) entries /\
  exists snapshots params,
    map (entry_field w' "params") entries
    = map (fun s => Some (VRef s)) snapshots /\
    NoDup snapshots /\
    (forall s, s ∈ snapshots ->
       (s ∉ entries) /\ mem w !! s = None /\ forall sc, s <> params sc) /\
    params_intact args params w'.
Proof.
  intros Hrun.
  destruct (main_outcome _ args (SCENARIOS_preserves _ _ _) _ _ _ Hrun)
    as (params & wb & _ & Hwb & Hp & ess & -> & Hpres & Hes & Hnd & Hfresh).
  simpl. rewrite objects_split in Hnd. rewrite objects_split in Hfresh.
  apply NoDup_app in Hnd as (Hnd1 & Hdisj & Hnd2).
  apply Forall_app in Hfresh as [Hf1 Hf2].
  assert (Hback : forall l, mem wb !! l = None -> mem w !! l = None).
  { intros l Hl. destruct (mem w !! l) as [o|] eqn:E; [|reflexivity].
    apply Hwb in E. congruence. }
  split; [exact Hnd1|]. split.
  { eapply Forall_impl; [exact Hf1|]. intros l. apply Hback. }
  exists (map snd ess), params.
  split; [exact (proj2 (entry_at_is_entry args _ _ _ Hes))|].
  split; [exact Hnd2|]. split.
  - intros s Hs. rewrite Forall_forall in Hf2. split; [|split].
    + intros Hin. now apply (Hdisj s).
    + now apply Hback, Hf2.
    + intros sc ->. specialize (Hf2 _ Hs). simpl in Hf2.
      rewrite (Hp sc) in Hf2. discriminate.
  - intros sc. apply Hpres, Hp.
Qed.

Lemma main_entries_are_new_objects_witness :
  exists entries w',
    main (SCENARIOS sample_expovariate [] sample_storm) sample_args empty_world
    = (Some (Ok entries), w') /\ NoDup entries.
Proof.
  destruct sample_main_returns as (entries & w' & Hrun).
  exists entries, w'. split; [exact Hrun|].
  exact (proj1 (main_entries_are_new_objects sample_expovariate [] sample_storm
                  sample_args empty_world entries w' Hrun)).
Defined.

End DocumentFacts.

(* ===================================================================== *)
(** * More about cancellation.py: what the two durations measure         *)
(* ===================================================================== *)

Module TimingFacts.
Import PyFacts Utils UtilsFacts MetricsFacts Backends SpawnFacts StormFacts
       OutcomeFacts Benchmarks RunnerFacts Samples.

Section Units.
Context {U V : Type}.
Variable code : coroutine (U:=U) (V:=V).

#[local] Abbreviation pool := (pool (U:=U) (V:=V)).

(** Units that leave the world alone: they neither read the clock nor
    touch the heap. *)
Hypothesis silent_resume : forall u w, snd (resume code u w) = w.
Hypothesis silent_on_cancel : forall u w, snd (on_cancel code u w) = w.

Lemma turn_shared i (p : pool) : shared (fst (turn code i p)) = shared p.
Proof.
  unfold turn. destruct (tasks p !! i) as [[u [|]|o]|]; try reflexivity.
  - pose proof (silent_on_cancel u (shared p)) as H.
    destruct (on_cancel code u (shared p)) as [o w]. exact H.
  - pose proof (silent_resume u (shared p)) as H.
    destruct (resume code u (shared p)) as [[[d u'|v]|e] w]; exact H.
Qed.

Lemma free_run_shared sched (p : pool) :
  shared (free_run code sched p) = shared p.
Proof.
  revert p. induction sched as [|i s IH]; intros p; simpl; [reflexivity|].
  now rewrite IH, turn_shared.
Qed.

Lemma gather_return_exceptions_shared sched (p : pool) :
  shared (snd (gather_return_exceptions code sched p)) = shared p.
Proof.
  revert p. induction sched as [|i s IH]; intros p; simpl;
    destruct (outcomes_of (tasks p)); try reflexivity.
  now rewrite IH, turn_shared.
Qed.

Section Nursery.
Context {R : Type}.
Variable on_turn : nat -> R -> R.
Variable on_exit : nat -> result V -> R -> R.

Lemma runner_turn_shared i r (p : pool) :
  shared (snd (fst (runner_turn code on_turn on_exit i r p))) = shared p.
Proof.
  unfold runner_turn. pose proof (turn_shared i p) as H.
  now destruct (turn code i p) as [p' [o|]].
Qed.

Lemma during_shared sched r (p : pool) :
  shared (snd (fst (during code on_turn on_exit r sched p))) = shared p.
Proof.
  revert r p. induction sched as [|i s IH]; intros r p; simpl; [reflexivity|].
  pose proof (runner_turn_shared i r p) as H.
  destruct (runner_turn code on_turn on_exit i r p) as [[r1 p1] [e|]];
    cbn [fst snd] in *; [exact H|now rewrite IH].
Qed.

Lemma join_shared sched failed r (p : pool) :
  shared (snd (join code on_turn on_exit failed r sched p)) = shared p.
Proof.
  revert failed r p. induction sched as [|i s IH]; intros failed r p; simpl;
    destruct (all_exited (tasks p)); try reflexivity.
  pose proof (runner_turn_shared i r p) as H.
  destruct (runner_turn code on_turn on_exit i r p) as [[r1 p1] [e|]];
    cbn [fst snd] in *.
  - destruct failed; rewrite IH; exact H.
  - now rewrite IH.
Qed.
End Nursery.

(** The world the dict of the storm is returned in: the clock has been
    read twice, once before the signal and once when the units have
    settled, and the dict is the one new object. *)
Definition after_storm (w : world) (l : loc) (c e : Z) : world :=
  World (<[l := ODict (storm_dict c e
                         (clock w (S (reads w)) - clock w (reads w)))]> (mem w))
        (clock w) (S (S (reads w))).

Lemma storm_return_shared c e cancel_start (p : pool) w :
  shared p = World (mem w) (clock w) (S (reads w)) ->
  cancel_start = clock w (reads w) ->
  exists p',
    storm_return c e cancel_start p = (Some (Ok (fresh (dom (mem w)))), p') /\
    shared p' = after_storm w (fresh (dom (mem w))) c e.
Proof.
  intros Hs ->. unfold storm_return, in_pool, perf_counter, alloc.
  rewrite Hs. simpl. eexists. split; reflexivity.
Qed.

Lemma sleep_shared b d w : snd (sleep b d w) = w.
Proof.
  unfold sleep. destruct b; try reflexivity.
  now destruct (Qle_bool 0 d).
Qed.

Lemma storm_world
    (b : backend) (task_count : Z) (cancel_after : Q) (task_fn : nat -> U)
    (s : storm_schedule) (w : world) (l : loc) (p : pool) :
  cancellation_storm code b task_count cancel_after task_fn s w
  = (Some (Ok l), p) ->
  l = fresh (dom (mem w)) /\
  exists c e, shared p = after_storm w l c e.
Proof.
  assert (Hgroup : forall on_turn targets,
            group_cancellation_storm code on_turn targets
              (sleep b cancel_after) task_count task_fn s w = (Some (Ok l), p) ->
            l = fresh (dom (mem w)) /\
            exists c e, shared p = after_storm w l c e).
  { intros on_turn targets. unfold group_cancellation_storm.
    set (p0 := create_tasks task_fn task_count w).
    assert (Hfail : forall e t q r,
              match join code on_turn storm_runner_exit (Some e) t
                         (after_signal s) q with
              | (None, _, p') => (None, p')
              | (Some _, _, p') => (Some (Err e), p')
              end = (Some (Ok l), r) -> False).
    { intros e t q r.
      destruct (join code on_turn storm_runner_exit (Some e) t (after_signal s) q)
        as [[[f|] t'] p']; discriminate. }
    unfold in_pool at 1. pose proof (sleep_shared b cancel_after (shared p0)) as Hsl.
    destruct (sleep b cancel_after (shared p0)) as [[[]|e] w1]; simpl in Hsl;
      [|intros H; now apply Hfail in H].
    subst w1.
    pose proof (during_shared on_turn storm_runner_exit (before_signal s)
                  (Tally 0 0 []) (Pool (tasks p0) (shared p0) (trace p0))) as Hd.
    destruct (during code on_turn storm_runner_exit (Tally 0 0 []) (before_signal s) _)
      as [[t1 p2] [e|]]; cbn [fst snd] in Hd; [intros H; now apply Hfail in H|].
    unfold in_pool at 1, perf_counter at 1. rewrite Hd. simpl shared at 1.
    cbv beta iota.
    set (p3 := Pool (tasks p2) _ (trace p2)).
    set (p4 := fold_left (fun q i => cancel i q) (targets t1) p3).
    pose proof (join_shared on_turn storm_runner_exit (after_signal s) None t1 p4)
      as Hj.
    destruct (join code on_turn storm_runner_exit None t1 (after_signal s) p4)
      as [[[[e|]|] t2] p5]; cbn [fst snd] in Hj; try discriminate.
    unfold p4 in Hj. rewrite cancel_all_shared in Hj. simpl in Hj.
    destruct (storm_return_shared (cancelled t2) (other_errors t2)
                (clock w (reads w)) p5 w Hj eq_refl) as (p' & Hr & Hs).
    simpl. rewrite Hr. intros [= <- <-]. split; [reflexivity|]. eauto. }
  destruct b; simpl; try apply Hgroup.
  unfold AsyncioBackend_cancellation_storm.
  set (p1 := free_run code (before_signal s) (create_tasks task_fn task_count w)).
  assert (H1 : shared p1 = w) by (unfold p1; now rewrite free_run_shared).
  unfold in_pool at 1, perf_counter at 1. rewrite H1.
  set (p2 := Pool (tasks p1) _ (trace p1)).
  set (p3 := fold_left (fun q i => cancel i q) (range task_count) p2).
  pose proof (gather_return_exceptions_shared (after_signal s) p3) as Hg.
  destruct (gather_return_exceptions code (after_signal s) p3)
    as [[results|] p4]; cbn [fst snd] in Hg; [|discriminate].
  unfold p3 in Hg. rewrite cancel_all_shared in Hg. simpl in Hg.
  destruct (storm_return_shared (count_true isinstance_CancelledError results)
              (count_true isinstance_other_error results)
              (clock w (reads w)) p4 w Hg eq_refl) as (p' & Hr & Hs).
  rewrite Hr. intros [= <- <-]. split; [reflexivity|]. eauto.
Qed.

End Units.

Lemma long_task_silent b :
  (forall u w, snd (resume (_long_task b) u w) = w) /\
  (forall u w, snd (on_cancel (_long_task b) u w) = w).
Proof. split; intros u w; [destruct b|]; reflexivity. Qed.

(** X17.  What run_cancellation measures.  A run that returns reads the
    clock exactly four times, t0..t3: "settle_s" is t2 - t1 (from the
    signal to the last unit settling) and "duration_s" is t3 - t0 (the
    whole run), the units themselves never reading the clock; so with a
    clock that never runs backwards 0 <= settle_s <= duration_s. *)
Theorem run_cancellation_timing
    (b : backend) (p : loc) (tc : Z) (ca : Q) (s : storm_schedule)
    (w : world) (l : loc) (w' : world) :
  0 <= tc ->
  mem w !! p = Some (ODict (CancellationParams tc ca)) ->
  run_cancellation b (Some p) s w = (Some (Ok l), w') ->
  let t i := clock w (reads w + i)%nat in
  mem w' !! l
  = Some (ODict (storm_dict tc 0 (t 2%nat - t 1%nat)%Q
                 ++ cancellation_extras tc ca (t 3%nat - t 0%nat)%Q)) /\
  reads w' = (reads w + 4)%nat /\
  ((forall i j, (i <= j)%nat -> (clock w i <= clock w j)%Q) ->
   (0 <= t 2%nat - t 1%nat)%Q /\ (t 2%nat - t 1%nat <= t 3%nat - t 0%nat)%Q).
Proof.
  intros Htc Hp Hret t.
  set (wa := snd (perf_counter w)).
  assert (Hpa : mem wa !! p = Some (ODict (CancellationParams tc ca))) by exact Hp.
  set (storm := cancellation_storm (_long_task b) b tc ca (fun _ => tt) s wa).
  assert (Hrun : run_cancellation b (Some p) s w
                 = match storm with
                   | (Some (Ok l), pl) =>
                       let wb := snd (perf_counter (shared pl)) in
                       let dur := (clock (shared pl) (reads (shared pl))
                                   - clock w (reads w))%Q in
                       match update l (cancellation_extras tc ca dur) wb with
                       | (Ok _, wc) => (Some (Ok l), wc)
                       | (Err e, wc) => (Some (Err e), wc)
                       end
                   | (Some (Err e), pl) => (Some (Err e), shared pl)
                   | (None, pl) => (None, shared pl)
                   end).
  { unfold run_cancellation, abind, lift, or_default, ret.
    change (perf_counter w) with (Ok (clock w (reads w)), wa). cbv beta iota.
    rewrite (getattr_run _ _ "task_count" _ _ Hpa eq_refl).
    unfold as_int, ret.
    rewrite (getattr_run _ _ "cancel_after_s" _ _ Hpa eq_refl).
    unfold as_float, ret, awaited. fold storm.
    destruct storm as [[[l0|e]|] pl]; simpl; try reflexivity.
    unfold cancellation_extras.
    now destruct (update l0 _ _) as [[[]|e] wc]. }
  rewrite Hrun in Hret. clear Hrun.
  destruct storm as [[[l0|e]|] pl] eqn:Hstorm; [| |]; try discriminate.
  destruct (long_task_silent b) as [Hres Hcan].
  destruct (storm_world (_long_task b) Hres Hcan b tc ca (fun _ => tt) s wa l0 pl
              Hstorm) as (Hl0 & c & e & Hshared).
  destruct (proj1 (cancellation_storm_counts (_long_task b) b tc ca
                     (fun _ => tt) s wa Htc (long_task_only_cancellable b))
              l0 pl Hstorm) as (c' & e' & settle & Hdict & _ & -> & ->).
  rewrite Hshared in Hdict. unfold after_storm in Hdict. simpl in Hdict.
  rewrite lookup_insert_eq in Hdict. injection Hdict as -> -> _.
  cbv zeta in Hret. rewrite Hshared in Hret.
  assert (Hlk : mem (snd (perf_counter (after_storm wa l0 tc 0))) !! l0
                = Some (ODict (storm_dict tc 0
                                 (clock wa (S (reads wa)) - clock wa (reads wa)))))
    by apply lookup_insert_eq.
  rewrite (update_run _ _ _ _ Hlk) in Hret. injection Hret as <- <-.
  replace (reads w + 0)%nat with (reads w) in * by lia.
  split; [|split].
  - simpl. rewrite lookup_insert_eq. subst t. simpl.
    replace (reads w + 2)%nat with (S (S (reads w))) by lia.
    replace (reads w + 1)%nat with (S (reads w)) by lia.
    replace (reads w + 3)%nat with (S (S (S (reads w)))) by lia.
    replace (reads w + 0)%nat with (reads w) by lia.
    reflexivity.
  - simpl. lia.
  - intros Hmono. subst t. simpl.
    pose proof (Hmono (reads w + 0)%nat (reads w + 1)%nat ltac:(lia)).
    pose proof (Hmono (reads w + 1)%nat (reads w + 2)%nat ltac:(lia)).
    pose proof (Hmono (reads w + 2)%nat (reads w + 3)%nat ltac:(lia)).
    split; lra.
Qed.

Lemma run_cancellation_timing_witness :
  exists l w',
    run_cancellation Asyncio (Some 1%positive) sample_storm cancel_world
    = (Some (Ok l), w') /\
    mem w' !! l
    = Some (ODict (storm_dict 2 0 1 ++ cancellation_extras 2 0.05 3)).
Proof.
  assert (Hp : mem cancel_world !! 1%positive
               = Some (ODict (CancellationParams 2 0.05))) by reflexivity.
  destruct (run_cancellation_returns Asyncio 1 2 0.05 sample_storm
              cancel_world ltac:(lia) Hp) as (l & w' & Hrun);
    [intros i Hi; simpl in *; lia|discriminate|].
  exists l, w'. split; [exact Hrun|].
  exact (proj1 (run_cancellation_timing Asyncio 1%positive 2 0.05 sample_storm
                  cancel_world l w' ltac:(lia) Hp Hrun)).
Defined.

End TimingFacts.

(* ===================================================================== *)
(** * More about io_bound.py: a run to the end                           *)
(* ===================================================================== *)

Module IOSampleFacts.
Import PyFacts Utils UtilsFacts MetricsFacts PercentileFacts Backends SpawnFacts
       Benchmarks IOFacts FrameFacts Samples.

Section Workers.
Variable expovariate_value : Z -> nat -> Q -> Q.
Variable b : backend.
Variables params rng op_latencies : loc.
Variables concurrency ops_per_worker : Z.
Variable mean_delay_ms : Q.
Variable seed : Z.

Hypothesis mean_positive : (0 < mean_delay_ms)%Q.
Hypothesis delays_nonnegative :
  forall sd k lambd, (0 < lambd)%Q -> (0 <= expovariate_value sd k lambd)%Q.
Hypothesis params_rng : params <> rng.
Hypothesis params_latencies : params <> op_latencies.
Hypothesis rng_latencies : rng <> op_latencies.

#[local] Abbreviation the_worker :=
  (worker expovariate_value b params rng op_latencies).
#[local] Abbreviation pool := (pool (U:=worker_state) (V:=value)).
#[local] Abbreviation task := (task (U:=worker_state) (V:=value)).
#[local] Abbreviation the_world :=
  (io_world params rng op_latencies concurrency ops_per_worker mean_delay_ms
            seed).
#[local] Abbreviation the_inv :=
  (io_inv expovariate_value params rng op_latencies concurrency ops_per_worker
          mean_delay_ms seed).

(** The number of latency samples taken so far. *)
Definition samples (w : world) : nat :=
  match mem w !! op_latencies with
  | Some (OList xs) => length xs
  | _ => 0%nat
  end.

(** A worker that sleeps has drawn a delay whose latency is still to be
    recorded. *)
Definition pending (t : task) : nat :=
  match t with
  | Live (WorkerSleeping _ _) _ => 1
  | _ => 0
  end.

Fixpoint total_pending (ts : list task) : nat :=
  match ts with
  | [] => 0
  | t :: ts' => pending t + total_pending ts'
  end.

Definition sample_inv (p : pool) : Prop :=
  the_inv p /\
  (samples (shared p) + total_pending (tasks p)
   = total_drawn ops_per_worker (tasks p))%nat.

(** Drawing the next delay leaves the samples alone. *)
Lemma worker_loop_samples r w res w' xs :
  mem w !! op_latencies = Some (OList xs) ->
  worker_loop expovariate_value b params rng r w = (res, w') ->
  mem w' !! op_latencies = Some (OList xs).
Proof.
  intros Hl Hrun.
  set (w0 := World {[ op_latencies := OList xs ]} (clock w) 0).
  assert (Hr0 : mem w0 !! rng = None)
    by (unfold w0; simpl; now apply lookup_singleton_ne).
  assert (Hpres : preserves w0 w).
  { intros l o. unfold w0. simpl. intros Hlo.
    apply lookup_singleton_Some in Hlo as [<- <-]. exact Hl. }
  apply (worker_loop_framed expovariate_value w0 b params rng r Hr0 w res w'
           Hpres Hrun).
  unfold w0. simpl. apply lookup_singleton_eq.
Qed.

Lemma resume_samples u w k res w' :
  the_world w k ->
  resume the_worker u w = (res, w') ->
  samples w' = (samples w + pending (Live u false))%nat.
Proof.
  intros (Hp & Hr & xs & Hl). destruct u as [|start remaining]; simpl.
  - rewrite (bind_run _ _ _ _ _ (getattr_run _ _ "ops_per_worker" _ _ Hp eq_refl)).
    unfold as_int at 1. unfold bind at 1, ret at 1. intros Hrun.
    unfold samples. rewrite (worker_loop_samples _ _ _ _ _ Hl Hrun), Hl. lia.
  - unfold bind at 1, perf_counter at 1.
    set (w1 := World (mem w) (clock w) (S (reads w))).
    assert (Happ : list_append op_latencies (clock w (reads w) - start)%Q w1
                   = (Ok tt, set_mem (<[op_latencies :=
                        OList (xs ++ [(clock w (reads w) - start)%Q])]> (mem w)) w1)).
    { unfold list_append.
      rewrite (bind_run _ _ _ _ _ (read_list_run _ _ w1 Hl)).
      unfold write_list. simpl. now rewrite Hl. }
    rewrite (bind_run _ _ _ _ _ Happ). intros Hrun.
    unfold samples.
    rewrite (worker_loop_samples _ _ _ _
               (xs ++ [(clock w (reads w) - start)%Q]) (lookup_insert_eq _ _ _) Hrun).
    rewrite Hl, length_app. simpl. lia.
Qed.

Lemma total_pending_insert (ts : list task) i t0 t :
  ts !! i = Some t0 ->
  (total_pending (<[i := t]> ts) + pending t0 = total_pending ts + pending t)%nat.
Proof.
  revert i. induction ts as [|t1 ts IH]; intros [|i] H; try discriminate.
  - injection H as ->. simpl. lia.
  - specialize (IH i H). simpl. lia.
Qed.

(** A step of a worker: what it has drawn grows by what it leaves
    pending. *)
Lemma step_drawn u t :
  worker_task ops_per_worker (Live u false) ->
  worker_task ops_per_worker t ->
  S (turns_left ops_per_worker t) = turns_left ops_per_worker (Live u false) ->
  drawn ops_per_worker t
  = (drawn ops_per_worker (Live u false) + pending t)%nat.
Proof.
  unfold ops. destruct u as [|start rem], t as [[|start' rem'] c|o]; simpl;
    intros Hu Ht Hs; lia.
Qed.

Lemma turn_sample i (p : pool) :
  sample_inv p -> sample_inv (fst (turn the_worker i p)).
Proof.
  intros [Hinv Hcount].
  split; [now apply (turn_io expovariate_value b)|].
  destruct Hinv as (k & Hw & Hts & Hk & Hd).
  destruct (tasks p !! i) as [[u c|o]|] eqn:E.
  - pose proof (proj1 (Forall_lookup _ _) Hts i _ E) as Hu.
    assert (c = false) as -> by (destruct u; simpl in Hu; tauto).
    destruct (resume_worker expovariate_value b params rng op_latencies
                concurrency ops_per_worker mean_delay_ms seed mean_positive
                delays_nonnegative params_rng params_latencies rng_latencies
                u (shared p) k Hw Hu)
      as (t & w' & k' & Hres & Hw' & Ht & Hleft & Hk' & Hle).
    pose proof (step_drawn u t Hu Ht Hleft) as Hstep.
    pose proof (total_drawn_insert params rng op_latencies ops_per_worker
                  params_rng params_latencies rng_latencies _ _ _ t E) as Hsum.
    pose proof (total_pending_insert _ _ _ t E) as Hpen.
    unfold turn. rewrite E.
    destruct (resume the_worker u (shared p)) as [[[d u'|v]|e] w1] eqn:Hrun;
      simpl in Hres; [| |discriminate];
      injection Hres as <- _ <-;
      pose proof (resume_samples u (shared p) k _ _ Hw Hrun) as Hsam;
      simpl in *; lia.
  - unfold turn. now rewrite E.
  - unfold turn. now rewrite E.
Qed.

Lemma free_run_sample sched (p : pool) :
  sample_inv p -> sample_inv (free_run the_worker sched p).
Proof.
  revert p. induction sched as [|i s IH]; intros p Hinv; simpl; [assumption|].
  now apply IH, turn_sample.
Qed.

Lemma finished_pending (ts : list task) :
  (forall j, turns_left_at ops_per_worker ts j = 0%nat) -> total_pending ts = 0%nat.
Proof.
  induction ts as [|t ts IH]; intros Hleft; [reflexivity|].
  pose proof (Hleft 0%nat) as H0. unfold turns_left_at in H0. simpl in H0.
  destruct t as [[|start r] c|o]; try discriminate. simpl.
  apply IH. intros j. apply (Hleft (S j)).
Qed.

(** The workers of a run, under a schedule that lets them finish: all
    return, having recorded one latency per operation. *)
Lemma spawn_samples sched w :
  the_world w 0 -> mem w !! op_latencies = Some (OList []) ->
  lets_workers_finish concurrency ops_per_worker sched ->
  exists vs (p : pool) xs,
    io_bound_spawn expovariate_value b params rng op_latencies sched w
    = (Some (Ok vs), p) /\
    mem (shared p) !! params
    = Some (ODict (IOBoundParams concurrency ops_per_worker mean_delay_ms seed)) /\
    mem (shared p) !! op_latencies = Some (OList xs) /\
    length xs = (Z.to_nat concurrency * Z.to_nat ops_per_worker)%nat.
Proof.
  intros Hw Hl0 Hfair. pose proof Hw as (Hp & _).
  unfold io_bound_spawn.
  rewrite (bind_run _ _ _ _ _ (getattr_run _ _ "concurrency" _ _ Hp eq_refl)).
  unfold as_int.
  set (p0 := create_tasks (V:=value) (fun _ => WorkerStart) concurrency w).
  assert (Hinv0 : sample_inv p0).
  { split.
    - exists 0%nat. split; [exact Hw|]. split; [|split].
      + apply Forall_forall. intros t Ht. simpl in Ht.
        apply list_elem_of_fmap in Ht as (i & -> & _). reflexivity.
      + simpl. induction (range concurrency); simpl; auto.
      + simpl. induction (range concurrency); simpl; auto.
    - unfold samples. simpl. rewrite Hl0. simpl.
      induction (range concurrency); simpl; auto. }
  destruct (free_run_sample sched p0 Hinv0) as [Hinv Hcount].
  destruct (free_run_io expovariate_value b params rng op_latencies
              concurrency ops_per_worker mean_delay_ms seed mean_positive
              delays_nonnegative params_rng params_latencies rng_latencies
              sched p0 (proj1 Hinv0))
    as [(k & Hwk & Hts & Hk & Hd) Hleft].
  assert (Hlen : length (tasks (free_run the_worker sched p0))
                 = Z.to_nat concurrency).
  { rewrite free_run_length. subst p0. simpl.
    now rewrite length_map, length_range. }
  assert (Hzero : forall j,
            turns_left_at ops_per_worker
              (tasks (free_run the_worker sched p0)) j = 0%nat).
  { intros j. rewrite Hleft. unfold turns_left_at at 1. subst p0. simpl.
    rewrite list_lookup_fmap. unfold range.
    destruct (decide (j < Z.to_nat concurrency)%nat) as [Hlt|Hge].
    - rewrite lookup_seq_lt by assumption. simpl.
      specialize (Hfair j Hlt). unfold ops. lia.
    - rewrite lookup_seq_ge by lia. reflexivity. }
  destruct (finished_tasks params rng op_latencies ops_per_worker
              params_rng params_latencies rng_latencies _ Hts Hzero)
    as [Hres Hsum].
  rewrite (finished_pending _ Hzero), Hsum, Hlen in Hcount.
  destruct Hwk as (Hpp & _ & xs & Hlp).
  unfold samples in Hcount. rewrite Hlp in Hcount.
  exists (replicate (length (tasks (free_run the_worker sched p0))) VNone),
         (free_run the_worker sched p0), xs.
  split; [|split; [exact Hpp|split; [exact Hlp|]]].
  - now apply (spawn_many_free_run the_worker VNone).
  - unfold ops in Hcount. lia.
Qed.

End Workers.

Lemma io_bound_setup_empty params c o m seed w :
  mem w !! params = Some (ODict (IOBoundParams c o m seed)) ->
  exists rng op_latencies w1,
    io_bound_setup (Some params) w = (Ok (params, rng, op_latencies), w1) /\
    io_world params rng op_latencies c o m seed w1 0 /\
    mem w1 !! op_latencies = Some (OList []) /\
    params <> rng /\ params <> op_latencies /\ rng <> op_latencies.
Proof.
  intros Hp. unfold io_bound_setup, or_default.
  unfold bind at 1, ret at 1.
  rewrite (bind_run _ _ _ _ _ (getattr_run _ _ "seed" _ _ Hp eq_refl)).
  unfold as_int at 1. unfold bind at 1, ret at 1.
  unfold Random. rewrite (bind_run _ _ _ _ _ (alloc_run _ w)).
  set (rng := fresh (dom (mem w))).
  set (w1 := set_mem (<[rng := ORandom seed 0]> (mem w)) w).
  rewrite (bind_run _ _ _ _ _ (alloc_run _ w1)).
  set (lat := fresh (dom (mem w1))).
  assert (Hpr : params <> rng)
    by (now apply fresh_other with (ODict (IOBoundParams c o m seed))).
  assert (Hp1 : mem w1 !! params = Some (ODict (IOBoundParams c o m seed)))
    by (subst w1; simpl; now rewrite lookup_insert_ne by congruence).
  assert (Hr1 : mem w1 !! rng = Some (ORandom seed 0)) by apply lookup_insert_eq.
  assert (Hrl : rng <> lat) by (now apply fresh_other with (ORandom seed 0)).
  assert (Hpl : params <> lat)
    by (now apply fresh_other with (ODict (IOBoundParams c o m seed))).
  exists rng, lat, (set_mem (<[lat := OList []]> (mem w1)) w1).
  split; [reflexivity|]. split; [|split; [apply lookup_insert_eq|auto]].
  repeat split; simpl.
  - now rewrite lookup_insert_ne by congruence.
  - now rewrite lookup_insert_ne by congruence.
  - exists []. apply lookup_insert_eq.
Qed.

(** The dict run_io_bound returns, from the params' fields, the elapsed
    time and the statistics of the sample. *)
Definition io_bound_report (c o : Z) (m elapsed avg p95 p99 : Q) : dict :=
  [("workers", VInt c); ("ops_per_worker", VInt o);
   ("mean_delay_ms", VFloat m); ("duration_s", VFloat elapsed);
   ("ops", VInt (c * o)); ("ops_per_sec", throughput (c * o) elapsed);
   ("latency_mean_ms", VFloat (avg * 1000));
   ("latency_p95_ms", VFloat (p95 * 1000));
   ("latency_p99_ms", VFloat (p99 * 1000))].

Lemma io_bound_metrics_report w params op_latencies c o m sd xs elapsed :
  mem w !! params = Some (ODict (IOBoundParams c o m sd)) ->
  mem w !! op_latencies = Some (OList xs) ->
  exists l w' p95 p99,
    io_bound_metrics params op_latencies elapsed w = (Ok l, w') /\
    percentile_of xs 95 = Ok p95 /\ percentile_of xs 99 = Ok p99 /\
    mem w' !! l
    = Some (ODict (io_bound_report c o m elapsed (mean_of xs) p95 p99)).
Proof.
  intros Hp Hl. unfold io_bound_metrics.
  rewrite (bind_run _ _ _ _ _ (getattr_run _ _ "concurrency" _ _ Hp eq_refl)).
  unfold as_int at 1. unfold bind at 1, ret at 1.
  rewrite (bind_run _ _ _ _ _ (getattr_run _ _ "ops_per_worker" _ _ Hp eq_refl)).
  unfold as_int at 1. unfold bind at 1, ret at 1.
  rewrite (bind_run _ _ _ _ _ (getattr_run _ _ "mean_delay_ms" _ _ Hp eq_refl)).
  rewrite (bind_run _ _ _ _ _ (guarded_division_run (c * o) elapsed w)).
  rewrite (bind_run _ _ _ _ _ (mean_run _ _ _ Hl)).
  destruct (percentile_of_total xs 95) as [p95 H95]; try discriminate.
  destruct (percentile_of_total xs 99) as [p99 H99]; try discriminate.
  rewrite (bind_run _ _ _ _ _
             (percentile_run op_latencies xs 95 _ (with_copy_frame _ _ _ _ Hl))).
  rewrite H95.
  rewrite (bind_run _ _ _ _ _
             (percentile_run op_latencies xs 99 _
                (with_copy_frame _ _ _ _ (with_copy_frame _ _ _ _ Hl)))).
  rewrite H99, alloc_run.
  eexists. eexists. exists p95, p99. split; [reflexivity|].
  split; [reflexivity|]. split; [reflexivity|]. apply lookup_insert_eq.
Qed.



End IOSampleFacts.
